(** * The items service of [app.js]

    A shallow embedding of the Express application of [app.js]: the storage
    adapter ([readData], [writeData]) over the single document [data.json]
    and the three route handlers ([GET /items], [GET /items/:id],
    [POST /items]), together with the parts of the JavaScript runtime they
    call: [JSON.parse], [JSON.stringify], [parseInt], [Array.prototype.find],
    [Array.prototype.push], property reads and writes, and [fs.readFile] /
    [fs.writeFile].

    Conventions of the model.
    - Text (HTTP bodies, JavaScript strings, the content of the document as
      [fs.readFile] decodes it) is a [string] of bytes, the UTF-8 form of
      the text; a string literal of JSON that escapes a lone surrogate has
      no such form and is outside the model.
    - A JavaScript number is a binary64 value: [NaN], an infinity, or
      [m * 2^e] with its sign.  [JSON.parse] and [parseInt] round the
      decimal they read to the nearest such value, ties to even;
      [JSON.stringify] writes the shortest decimal that is read back as the
      value, with an exponent where [Number::toString] has one, and [null]
      for [NaN] and the infinities.
    - An object is the list of its own properties in the order in which
      JavaScript enumerates them; [undefined] is [None].
    - An [async] handler is a state transformer over the [world] (the
      document on disk); an exception, or the rejection of the promise of a
      handler, is the result [Throw]: the handler has then written no
      response, and what the client receives is up to the framework. *)

From Stdlib Require Import String Ascii List ZArith NArith Bool Arith Lia.
Import ListNotations.
Open Scope string_scope.

Set Warnings "-register-all".

(* ================================================================= *)
(** ** Characters and text *)

Definition dquote : ascii := "034"%char.
Definition newline : ascii := "010"%char.
Definition space : ascii := " "%char.

Definition code (c : ascii) : N := N_of_ascii c.

Definition is_digit (c : ascii) : bool :=
  ((48 <=? code c) && (code c <=? 57))%N.

Definition digit_val (c : ascii) : N := (code c - 48)%N.

Definition digit_char (d : N) : ascii := ascii_of_N (48 + d).

(** Value of a hexadecimal digit, [None] for any other character. *)
Definition hex_val (c : ascii) : option N :=
  let n := code c in
  if ((48 <=? n) && (n <=? 57))%N then Some (n - 48)%N
  else if ((97 <=? n) && (n <=? 102))%N then Some (n - 87)%N
  else if ((65 <=? n) && (n <=? 70))%N then Some (n - 55)%N
  else None.

Definition hex_char (d : N) : ascii :=
  if (d <? 10)%N then ascii_of_N (48 + d) else ascii_of_N (87 + d).

Fixpoint spaces (n : nat) : string :=
  match n with
  | O => ""
  | S n' => String space (spaces n')
  end.

(** [ls.join(sep)]. *)
Fixpoint join (sep : string) (ls : list string) : string :=
  match ls with
  | [] => ""
  | [x] => x
  | x :: rest => x ++ sep ++ join sep rest
  end.

(** The longest prefix of decimal digits of [s], and what follows it. *)
Fixpoint lex_digits (s : string) : string * string :=
  match s with
  | String c r =>
      if is_digit c then let (ds, rest) := lex_digits r in (String c ds, rest)
      else ("", s)
  | "" => ("", "")
  end.

(** Value of a string of decimal digits read from the left, starting
    from [acc]. *)
Fixpoint digits_val (s : string) (acc : N) : N :=
  match s with
  | String c r => digits_val r (acc * 10 + digit_val c)
  | "" => acc
  end.

Fixpoint take (n : nat) (s : string) : string :=
  match n, s with
  | S n', String c r => String c (take n' r)
  | _, _ => ""
  end.

Fixpoint drop (n : nat) (s : string) : string :=
  match n, s with
  | S n', String _ r => drop n' r
  | _, _ => s
  end.

Fixpoint all_digits (s : string) : bool :=
  match s with
  | "" => true
  | String c r => is_digit c && all_digits r
  end.

(** Decimal digits of [n], most significant first; [fuel] bounds the number
    of digits. *)
Fixpoint N_digits_aux (fuel : nat) (n : N) : string :=
  match fuel with
  | O => ""
  | S f =>
      if (n <? 10)%N then String (digit_char n) ""
      else N_digits_aux f (n / 10) ++ String (digit_char (n mod 10)) ""
  end.

Definition N_digits (n : N) : string :=
  N_digits_aux (S (N.to_nat (N.log2 n))) n.

(* ================================================================= *)
(** ** JavaScript values *)

(** A number is a binary64 value: [NaN], an infinity, or [m * 2^e], each
    with its sign; there are two zeros. *)
Inductive number : Type :=
| NaN
| Infinity (negative : bool)
| Finite (negative : bool) (m : N) (e : Z).

(** The least and the greatest exponent of a significand of 53 bits. *)
Definition emin : Z := -1074.
Definition emax : Z := 971.

(** [m * 2^e] as binary64 holds it: the significand is below [2^53], and
    its leading bit is set unless the exponent is the least one (zero and
    the subnormal numbers). *)
Definition binary64 (m : N) (e : Z) : bool :=
  (m <? 2 ^ 53)%N && (emin <=? e)%Z && (e <=? emax)%Z
  && ((2 ^ 52 <=? m)%N || (e =? emin)%Z).

(** The binary64 number nearest to [p / q] (for [0 <= p] and [0 < q]), a
    tie going to the even significand.  [n / q] is the ratio in units of
    [2^emin]; the significand keeps its 53 leading bits, [2^g] being the
    weight of the last of them, and what is cut off decides the rounding.
    A ratio beyond the largest number becomes an infinity. *)
Definition nearest (negative : bool) (p q : Z) : number :=
  let n := (p * 2 ^ 1074)%Z in
  let g := Z.max 0 (Z.log2 (n / q) - 52) in
  let d := (q * 2 ^ g)%Z in
  let m0 := (n / d)%Z in
  let r := (n mod d)%Z in
  let m := if ((d <? 2 * r) || ((d =? 2 * r) && Z.odd m0))%Z
           then (m0 + 1)%Z else m0 in
  let (m', g') := if (m =? 2 ^ 53)%Z then (2 ^ 52, g + 1)%Z else (m, g) in
  if (emax <? g' + emin)%Z then Infinity negative
  else Finite negative (Z.to_N m') (g' + emin).

(** The number that the decimal [s * 10^x] denotes, for [0 <= s]. *)
Definition decimal (negative : bool) (s x : Z) : number :=
  if (0 <=? x)%Z then nearest negative (s * 10 ^ x) 1
  else nearest negative s (10 ^ (- x)).

(** The number that the decimal [m / 10^k] denotes. *)
Definition Dec (m : Z) (k : nat) : number :=
  decimal (m <? 0)%Z (Z.abs m) (- Z.of_nat k).

(** [a === b] on numbers: the same value, the two zeros being equal;
    [NaN] equals nothing. *)
Definition number_eqb (a b : number) : bool :=
  match a, b with
  | Finite s m e, Finite t n f =>
      ((m =? 0) && (n =? 0))%N
      || (Bool.eqb s t && (m =? n)%N && (e =? f)%Z)
  | Infinity s, Infinity t => Bool.eqb s t
  | _, _ => false
  end.

(** The values the program handles: JSON data, where an array may also
    carry named own properties (an array is an object: [arr.id = x] adds
    the property [id] to it). *)
Inductive value : Type :=
| VNull
| VBool (b : bool)
| VNum (n : number)
| VStr (s : string)
| VArr (elems : list value) (own : list (string * value))
| VObj (props : list (string * value)).

Inductive error : Type :=
| TypeError
| SyntaxError
| SystemError (errno : string).

Inductive result (A : Type) : Type :=
| Ok (a : A)
| Throw (e : error).
Arguments Ok {A} a.
Arguments Throw {A} e.

(** [if (v)]: [undefined] is [None]. *)
Definition truthy (v : option value) : bool :=
  match v with
  | None => false
  | Some VNull => false
  | Some (VBool b) => b
  | Some (VNum NaN) => false
  | Some (VNum (Infinity _)) => true
  | Some (VNum (Finite _ m _)) => negb (m =? 0)%N
  | Some (VStr s) => negb (s =? "")
  | Some (VArr _ _) => true
  | Some (VObj _) => true
  end.

(** *** Property keys and their order *)

(** An array index is a canonical numeric string ("0", or digits with no
    leading zero) of value at most 2^32 - 2.  The own keys of an object are
    enumerated with the array indices first, in ascending order, then the
    other keys in the order they were created. *)
Definition array_index (k : string) : option N :=
  match k with
  | "" => None
  | String c r =>
      let (ds, rest) := lex_digits k in
      if negb (rest =? "") then None
      else if (c =? "0")%char && negb (r =? "") then None
      else
        let n := digits_val ds 0 in
        if (n <=? 4294967294)%N then Some n else None
  end.

Fixpoint lookup (k : string) (props : list (string * value)) : option value :=
  match props with
  | [] => None
  | (k', v) :: rest => if k' =? k then Some v else lookup k rest
  end.

Fixpoint replace (k : string) (v : value) (props : list (string * value))
  : list (string * value) :=
  match props with
  | [] => []
  | (k', v') :: rest =>
      if k' =? k then (k', v) :: rest else (k', v') :: replace k v rest
  end.

(** Place of a new index key [i]: before the first key that is not an
    index or is a larger index. *)
Fixpoint insert_index (i : N) (k : string) (v : value)
  (props : list (string * value)) : list (string * value) :=
  match props with
  | [] => [(k, v)]
  | (k', v') :: rest =>
      match array_index k' with
      | Some j =>
          if (j <? i)%N then (k', v') :: insert_index i k v rest
          else (k, v) :: props
      | None => (k, v) :: props
      end
  end.

(** [obj[k] = v] on the own properties of an ordinary object. *)
Definition define (k : string) (v : value) (props : list (string * value))
  : list (string * value) :=
  match lookup k props with
  | Some _ => replace k v props
  | None =>
      match array_index k with
      | Some i => insert_index i k v props
      | None => props ++ [(k, v)]
      end
  end.

(** [item.id]: reading the property [id].  [null.id] throws; a primitive
    has no such property; an array has it only as a named own property. *)
Definition get_id (item : value) : result (option value) :=
  match item with
  | VNull => Throw TypeError
  | VObj props => Ok (lookup "id" props)
  | VArr _ own => Ok (lookup "id" own)
  | _ => Ok None
  end.

(** [target.id = v]: throws on [null], does nothing on a primitive
    (the file is not in strict mode), sets the own property otherwise. *)
Definition set_id (target : value) (v : value) : result value :=
  match target with
  | VNull => Throw TypeError
  | VObj props => Ok (VObj (define "id" v props))
  | VArr elems own => Ok (VArr elems (define "id" v own))
  | _ => Ok target
  end.

(** [x === n] for a number [n]: strict equality never converts, so a value
    that is not a number (or is [undefined]) is different from [n]. *)
Definition strict_equals (x : option value) (n : number) : bool :=
  match x with
  | Some (VNum m) => number_eqb m n
  | _ => false
  end.

(** [arr.find(p)]: the first element on which [p] is true, [undefined]
    when there is none; an exception of [p] ends the scan. *)
Fixpoint find_first (p : value -> result bool) (elems : list value)
  : result (option value) :=
  match elems with
  | [] => Ok None
  | x :: rest =>
      match p x with
      | Throw e => Throw e
      | Ok true => Ok (Some x)
      | Ok false => find_first p rest
      end
  end.

(** [data.find(p)]: only an array has the method. *)
Definition Array_find (data : value) (p : value -> result bool)
  : result (option value) :=
  match data with
  | VArr elems _ => find_first p elems
  | _ => Throw TypeError
  end.

(** [data.push(x)]: only an array has the method. *)
Definition Array_push (data : value) (x : value) : result value :=
  match data with
  | VArr elems own => Ok (VArr (elems ++ [x]) own)
  | _ => Throw TypeError
  end.

(* ================================================================= *)
(** ** [JSON.stringify] *)

(** [QuoteJSONString]: the two-character escapes, [\u00xx] for the other
    control characters, every other character as it is. *)
Definition escape_char (c : ascii) : string :=
  let n := code c in
  if (c =? dquote)%char then String "\" (String dquote "")
  else if (c =? "\")%char then "\\"
  else if (n =? 8)%N then "\b"
  else if (n =? 12)%N then "\f"
  else if (n =? 10)%N then "\n"
  else if (n =? 13)%N then "\r"
  else if (n =? 9)%N then "\t"
  else if (n <? 32)%N then
    "\u00" ++ String (hex_char (n / 16)) (String (hex_char (n mod 16)) "")
  else String c "".

Fixpoint escape (s : string) : string :=
  match s with
  | "" => ""
  | String c r => escape_char c ++ escape r
  end.

Definition quote (s : string) : string :=
  String dquote (escape s ++ String dquote "").

Fixpoint zeros (n : nat) : string :=
  match n with
  | O => ""
  | S n' => String "0" (zeros n')
  end.

(** [m * 2^e] written out in full as a decimal [s * 10^x]. *)
Definition exact_decimal (m : N) (e : Z) : Z * Z :=
  if (0 <=? e)%Z then (Z.of_N m * 2 ^ e, 0)%Z
  else (Z.of_N m * 5 ^ (- e), e)%Z.

(** The number [m * 2^e], as binary64 holds it. *)
Definition canonical (negative : bool) (m : N) (e : Z) : number :=
  let (full, X) := exact_decimal m e in decimal negative full X.

(** The same number, zero for zero. *)
Definition number_same (a b : number) : bool :=
  match a, b with
  | NaN, NaN => true
  | Infinity s, Infinity t => Bool.eqb s t
  | Finite s m e, Finite t n f => Bool.eqb s t && (m =? n)%N && (e =? f)%Z
  | _, _ => false
  end.

(** [s * 10^x] without the zeros that end [s]. *)
Fixpoint strip_zeros (fuel : nat) (s x : Z) : Z * Z :=
  match fuel with
  | O => (s, x)
  | S f =>
      if ((s mod 10 =? 0) && negb (s =? 0))%Z
      then strip_zeros f (s / 10) (x + 1)
      else (s, x)
  end.

(** Number of decimal digits of [s]. *)
Definition digits_count (s : Z) : nat := String.length (N_digits (Z.to_N s)).

(** The decimals next to [full * 10^X] without its last [less] digits: the
    one below and the one above, the nearer one first, the even one first
    when they are as near. *)
Definition candidates (full X : Z) (less : nat) : list (Z * Z) :=
  let cut := (10 ^ Z.of_nat less)%Z in
  let lo := (full / cut)%Z in
  let r := (full mod cut)%Z in
  let x := (X + Z.of_nat less)%Z in
  let down := strip_zeros (digits_count lo) lo x in
  let up := strip_zeros (S (digits_count lo)) (lo + 1) x in
  if ((2 * r <? cut) || ((2 * r =? cut) && Z.even lo))%Z then [down; up]
  else [up; down].

(** The first decimal of [cs] that denotes [target]. *)
Fixpoint first_denoting (target : number) (cs : list (Z * Z))
  : option (Z * Z) :=
  match cs with
  | [] => None
  | (s, x) :: rest =>
      if number_same (decimal false s x) target then Some (s, x)
      else first_denoting target rest
  end.

(** The decimal of fewest digits that denotes [target], the value of
    [full * 10^X]: the decimals with [less] digits less are tried first,
    then with one digit more at a time, up to the decimal in full. *)
Fixpoint shortest (target : number) (full X : Z) (less : nat) : Z * Z :=
  match less with
  | O => (full, X)
  | S less' =>
      match first_denoting target (candidates full X less) with
      | Some c => c
      | None => shortest target full X less'
      end
  end.

(** The digits [ds] with a point after the first and the exponent of
    [10^(n-1)]. *)
Definition exponent_form (ds : string) (n : Z) : string :=
  let e := (n - 1)%Z in
  let es := (if (e <? 0)%Z then "-" else "+") ++ N_digits (Z.abs_N e) in
  match ds with
  | String d "" => String d ("e" ++ es)
  | String d r => String d ("." ++ r ++ "e" ++ es)
  | "" => ""
  end.

(** The text of [s * 10^x]: with [k] digits and [n = k + x], positional
    notation for [-6 < n <= 21], with an exponent otherwise. *)
Definition digits_string (s x : Z) : string :=
  let ds := N_digits (Z.to_N s) in
  let k := Z.of_nat (String.length ds) in
  let n := (k + x)%Z in
  if ((k <=? n) && (n <=? 21))%Z then ds ++ zeros (Z.to_nat (n - k))
  else if ((0 <? n) && (n <=? 21))%Z
  then take (Z.to_nat n) ds ++ "." ++ drop (Z.to_nat n) ds
  else if ((-6 <? n) && (n <=? 0))%Z
  then "0." ++ zeros (Z.to_nat (- n)) ++ ds
  else exponent_form ds n.

(** [Number::toString] of the positive number [m * 2^e]. *)
Definition Number_toString (m : N) (e : Z) : string :=
  let (full, X) := exact_decimal m e in
  let (s, x) :=
    shortest (canonical false m e) full X (digits_count full - 1) in
  digits_string s x.

(** A number in JSON text: [NaN] and the infinities are written [null],
    both zeros [0]. *)
Definition number_json (n : number) : string :=
  match n with
  | NaN | Infinity _ => "null"
  | Finite negative m e =>
      if (m =? 0)%N then "0"
      else (if negative then "-" else "") ++ Number_toString m e
  end.

(** The text of an array or of an object from the texts of its elements or
    members: on one line without [gap], else one per line, indented. *)
Definition wrap (opening closing nl gap indent : string) (parts : list string)
  : string :=
  match parts with
  | [] => opening ++ closing
  | _ =>
      if gap =? "" then opening ++ join "," parts ++ closing
      else
        opening ++ nl ++ (indent ++ gap)
          ++ join ("," ++ nl ++ (indent ++ gap)) parts
          ++ nl ++ indent ++ closing
  end.

(** [SerializeJSONProperty] with its [SerializeJSONArray] and
    [SerializeJSONObject]: [gap] is the indentation unit and [indent] the
    current indentation.  The named own properties of an array are not
    written. *)
Fixpoint serialize (gap indent : string) (v : value) : string :=
  match v with
  | VNull => "null"
  | VBool true => "true"
  | VBool false => "false"
  | VNum n => number_json n
  | VStr s => quote s
  | VArr elems _ =>
      wrap "[" "]" (String newline "") gap indent
        (map (serialize gap (indent ++ gap)) elems)
  | VObj props =>
      wrap "{" "}" (String newline "") gap indent
        (map (fun kv =>
                quote (fst kv) ++ (if gap =? "" then ":" else ": ")
                  ++ serialize gap (indent ++ gap) (snd kv))
             props)
  end.

(** [JSON.stringify(v, null, space)] for a numeric [space] (at most ten
    spaces are used); [JSON.stringify(v)] is [JSON_stringify v 0]. *)
Definition JSON_stringify (v : value) (space : nat) : string :=
  serialize (spaces (Nat.min 10 space)) "" v.

(* ================================================================= *)
(** ** [JSON.parse] *)

(** White space of the JSON grammar: space, tab, line feed, carriage
    return. *)
Definition is_ws (c : ascii) : bool :=
  let n := code c in
  ((n =? 32) || (n =? 9) || (n =? 10) || (n =? 13))%N.

Fixpoint skip_ws (s : string) : string :=
  match s with
  | String c r => if is_ws c then skip_ws r else s
  | "" => ""
  end.

(** [strip_prefix p s]: what follows [p] in [s], when [s] starts with [p]. *)
Fixpoint strip_prefix (p s : string) : option string :=
  match p with
  | "" => Some s
  | String a p' =>
      match s with
      | String b s' => if (a =? b)%char then strip_prefix p' s' else None
      | "" => None
      end
  end.

(** A character of a string literal: a byte of the text, or the UTF-16 code
    unit of a [\uXXXX] escape. *)
Inductive strchar : Type :=
| Raw (c : ascii)
| Unit16 (n : N).

(** The character that a two-character escape stands for. *)
Definition simple_escape (e : ascii) : option ascii :=
  if (e =? dquote)%char then Some dquote
  else if (e =? "\")%char then Some "\"%char
  else if (e =? "/")%char then Some "/"%char
  else if (e =? "b")%char then Some "008"%char
  else if (e =? "f")%char then Some "012"%char
  else if (e =? "n")%char then Some "010"%char
  else if (e =? "r")%char then Some "013"%char
  else if (e =? "t")%char then Some "009"%char
  else None.

(** The code unit of four hexadecimal digits. *)
Definition hex4 (a b c d : ascii) : option N :=
  match hex_val a, hex_val b, hex_val c, hex_val d with
  | Some x, Some y, Some z, Some w => Some (((x * 16 + y) * 16 + z) * 16 + w)%N
  | _, _, _, _ => None
  end.

Definition cons_chars (t : strchar) (r : option (list strchar * string))
  : option (list strchar * string) :=
  match r with
  | Some (ts, rest) => Some (t :: ts, rest)
  | None => None
  end.

(** The characters of a string literal after its opening quote, up to the
    closing quote; a raw control character is refused. *)
Fixpoint string_chars (s : string) : option (list strchar * string) :=
  match s with
  | "" => None
  | String c r =>
      if (c =? dquote)%char then Some ([], r)
      else if (c =? "\")%char then
        match r with
        | "" => None
        | String e r1 =>
            if (e =? "u")%char then
              match r1 with
              | String h1 (String h2 (String h3 (String h4 r2))) =>
                  match hex4 h1 h2 h3 h4 with
                  | Some n => cons_chars (Unit16 n) (string_chars r2)
                  | None => None
                  end
              | _ => None
              end
            else
              match simple_escape e with
              | Some b => cons_chars (Raw b) (string_chars r1)
              | None => None
              end
        end
      else if (code c <? 32)%N then None
      else cons_chars (Raw c) (string_chars r)
  end.

(** UTF-8 form of the code point [n]. *)
Definition utf8 (n : N) : string :=
  if (n <? 128)%N then String (ascii_of_N n) ""
  else if (n <? 2048)%N then
    String (ascii_of_N (192 + n / 64)) (String (ascii_of_N (128 + n mod 64)) "")
  else if (n <? 65536)%N then
    String (ascii_of_N (224 + n / 4096))
      (String (ascii_of_N (128 + (n / 64) mod 64))
         (String (ascii_of_N (128 + n mod 64)) ""))
  else
    String (ascii_of_N (240 + n / 262144))
      (String (ascii_of_N (128 + (n / 4096) mod 64))
         (String (ascii_of_N (128 + (n / 64) mod 64))
            (String (ascii_of_N (128 + n mod 64)) ""))).

Definition is_high_surrogate (n : N) : bool := ((55296 <=? n) && (n <=? 56319))%N.
Definition is_low_surrogate (n : N) : bool := ((56320 <=? n) && (n <=? 57343))%N.

(** The text of a string literal: a surrogate pair of escapes is one code
    point. *)
Fixpoint decode (ts : list strchar) : string :=
  match ts with
  | [] => ""
  | Raw c :: rest => String c (decode rest)
  | Unit16 hi :: rest =>
      match rest with
      | Unit16 lo :: rest' =>
          if is_high_surrogate hi && is_low_surrogate lo
          then utf8 (65536 + (hi - 55296) * 1024 + (lo - 56320)) ++ decode rest'
          else utf8 hi ++ decode rest
      | _ => utf8 hi ++ decode rest
      end
  end.

(** A string literal after its opening quote. *)
Definition parse_string (s : string) : option (string * string) :=
  match string_chars s with
  | Some (ts, rest) => Some (decode ts, rest)
  | None => None
  end.

Definition starts_with (c : ascii) (s : string) : bool :=
  match s with
  | String c' _ => (c' =? c)%char
  | "" => false
  end.

Definition tail (s : string) : string :=
  match s with
  | String _ r => r
  | "" => ""
  end.

(** The exponent part of a number: [e] or [E], an optional sign, digits. *)
Definition parse_exponent (s : string) : option (Z * string) :=
  if starts_with "e" s || starts_with "E" s then
    let s1 := tail s in
    let neg := starts_with "-" s1 in
    let s2 := if neg || starts_with "+" s1 then tail s1 else s1 in
    let (ds, rest) := lex_digits s2 in
    if ds =? "" then None
    else
      let x := Z.of_N (digits_val ds 0) in
      Some (if neg then (- x)%Z else x, rest)
  else Some (0%Z, s).

(** The fraction part of a number: a point and digits. *)
Definition parse_fraction (s : string) : option (string * string) :=
  if starts_with "." s then
    let (ds, rest) := lex_digits (tail s) in
    if ds =? "" then None else Some (ds, rest)
  else Some ("", s).

(** A number of the JSON grammar: an optional minus sign, an integer part
    with no leading zero, an optional fraction, an optional exponent.  Its
    value is the number that the decimal denotes. *)
Definition parse_number (s : string) : option (number * string) :=
  let neg := starts_with "-" s in
  let s1 := if neg then tail s else s in
  let (ip, s2) := lex_digits s1 in
  if ip =? "" then None
  else if starts_with "0" ip && negb (tail ip =? "") then None
  else
    match parse_fraction s2 with
    | None => None
    | Some (fp, s3) =>
        match parse_exponent s3 with
        | None => None
        | Some (x, rest) =>
            let mant := Z.of_N (digits_val fp (digits_val ip 0)) in
            Some (decimal neg mant (x - Z.of_nat (String.length fp)), rest)
        end
    end.

(** The value at the head of [s], after white space, and the text that
    follows it.  An object is built property by property with [define], so
    a repeated key keeps the last value.  Every call reads a character
    before it recurses, so that fuel above the length of the text is
    enough (see [JSON_parse_fuel]). *)
Fixpoint parse_value (fuel : nat) (s : string) : option (value * string) :=
  match fuel with
  | O => None
  | S f =>
      let s0 := skip_ws s in
      if starts_with "{" s0 then
        let s1 := skip_ws (tail s0) in
        if starts_with "}" s1 then Some (VObj [], tail s1)
        else parse_members f s1 []
      else if starts_with "[" s0 then
        let s1 := skip_ws (tail s0) in
        if starts_with "]" s1 then Some (VArr [] [], tail s1)
        else parse_elements f s1 []
      else if starts_with dquote s0 then
        match parse_string (tail s0) with
        | Some (str, rest) => Some (VStr str, rest)
        | None => None
        end
      else
        match strip_prefix "null" s0 with
        | Some rest => Some (VNull, rest)
        | None =>
        match strip_prefix "true" s0 with
        | Some rest => Some (VBool true, rest)
        | None =>
        match strip_prefix "false" s0 with
        | Some rest => Some (VBool false, rest)
        | None =>
        match parse_number s0 with
        | Some (n, rest) => Some (VNum n, rest)
        | None => None
        end end end end
  end

with parse_elements (fuel : nat) (s : string) (acc : list value)
  : option (value * string) :=
  match fuel with
  | O => None
  | S f =>
      match parse_value f s with
      | None => None
      | Some (v, rest) =>
          let s1 := skip_ws rest in
          if starts_with "," s1 then parse_elements f (tail s1) (acc ++ [v])
          else if starts_with "]" s1 then Some (VArr (acc ++ [v]) [], tail s1)
          else None
      end
  end

with parse_members (fuel : nat) (s : string) (acc : list (string * value))
  : option (value * string) :=
  match fuel with
  | O => None
  | S f =>
      let s0 := skip_ws s in
      if starts_with dquote s0 then
        match parse_string (tail s0) with
        | None => None
        | Some (key, rest) =>
            let s1 := skip_ws rest in
            if starts_with ":" s1 then
              match parse_value f (tail s1) with
              | None => None
              | Some (v, rest') =>
                  let s2 := skip_ws rest' in
                  if starts_with "," s2
                  then parse_members f (tail s2) (define key v acc)
                  else if starts_with "}" s2
                  then Some (VObj (define key v acc), tail s2)
                  else None
              end
            else None
        end
      else None
  end.

(** [JSON.parse(text)]: one value, white space around it, nothing else. *)
Definition JSON_parse (text : string) : result value :=
  match parse_value (S (String.length text)) text with
  | Some (v, rest) => if skip_ws rest =? "" then Ok v else Throw SyntaxError
  | None => Throw SyntaxError
  end.

(* ================================================================= *)
(** ** [parseInt] *)

(** Width in bytes of the white-space character at the head of [s]
    ([StrWhiteSpaceChar]: white space and line terminators), 0 when [s]
    does not start with one. *)
Definition ws_width (s : string) : nat :=
  match s with
  | "" => 0
  | String a r =>
      let x := code a in
      if ((9 <=? x) && (x <=? 13) || (x =? 32))%N then 1
      else
        match r with
        | "" => 0
        | String b r' =>
            let y := code b in
            if ((x =? 194) && (y =? 160))%N then 2
            else
              match r' with
              | "" => 0
              | String c _ =>
                  let z := code c in
                  if ((x =? 225) && (y =? 154) && (z =? 128))%N then 3
                  else if ((x =? 226) && (y =? 128)
                           && ((128 <=? z) && (z <=? 138)
                               || (z =? 168) || (z =? 169) || (z =? 175)))%N
                  then 3
                  else if ((x =? 226) && (y =? 129) && (z =? 159))%N then 3
                  else if ((x =? 227) && (y =? 128) && (z =? 128))%N then 3
                  else if ((x =? 239) && (y =? 187) && (z =? 191))%N then 3
                  else 0
              end
        end
  end.

Fixpoint trim_start_aux (fuel : nat) (s : string) : string :=
  match fuel with
  | O => s
  | S f =>
      match ws_width s with
      | O => s
      | w => trim_start_aux f (drop w s)
      end
  end.

Definition trim_start (s : string) : string :=
  trim_start_aux (String.length s) s.

(** The longest prefix of hexadecimal digits of [s], as a value: [None]
    when [s] starts with no such digit. *)
Fixpoint hex_digits_val (s : string) (acc : option N) : option N :=
  match s with
  | "" => acc
  | String c r =>
      match hex_val c with
      | Some d =>
          hex_digits_val r
            (Some (match acc with Some a => a * 16 + d | None => d end)%N)
      | None => acc
      end
  end.

(** [parseInt(input)], no radix given: leading white space and a sign are
    skipped, [0x] or [0X] selects radix 16, the longest prefix of digits is
    read and the rest of the text ignored; [NaN] when there is no digit,
    else the number of the integer read. *)
Definition parseInt (input : string) : number :=
  let s := trim_start input in
  let neg := starts_with "-" s in
  let s1 := if neg || starts_with "+" s then tail s else s in
  let magnitude :=
    match strip_prefix "0x" s1, strip_prefix "0X" s1 with
    | Some r, _ | None, Some r => hex_digits_val r None
    | None, None =>
        let (ds, _) := lex_digits s1 in
        if ds =? "" then None else Some (digits_val ds 0)
    end in
  match magnitude with
  | None => NaN
  | Some n => decimal neg (Z.of_N n) 0
  end.

(* ================================================================= *)
(** ** The document on disk and asynchronous code *)

(** State of [data.json]: [Content text] when reading the file as UTF-8
    gives [text]. *)
Inductive document : Type :=
| Absent
| Unreadable (errno : string)
| Content (text : string).

(** The world a request runs in: the document, and whether a write to it
    fails ([Some (errno, residue)]: the write fails with [errno] and
    leaves the document as [residue]). *)
Record world : Type := {
  data_json : document;
  write_fault : option (string * document)
}.

(** An [async] computation: it may read and write the world, and ends with
    a value or an exception (a rejected promise). *)
Definition async (A : Type) : Type := world -> result A * world.

Definition ret {A} (a : A) : async A := fun w => (Ok a, w).

(** [await m] followed by [k]. *)
Definition bind {A B} (m : async A) (k : A -> async B) : async B :=
  fun w =>
    match m w with
    | (Ok a, w') => k a w'
    | (Throw e, w') => (Throw e, w')
    end.

(** A synchronous call inside an [async] function. *)
Definition lift {A} (r : result A) : async A := fun w => (r, w).

(** [try { m } catch (error) { h error }]. *)
Definition try_catch {A} (m : async A) (h : error -> async A) : async A :=
  fun w =>
    match m w with
    | (Ok a, w') => (Ok a, w')
    | (Throw e, w') => h e w'
    end.

Notation "x <- m ;; k" := (bind m (fun x => k))
  (at level 61, m at next level, right associativity).
Notation "m ;;; k" := (bind m (fun _ => k))
  (at level 61, right associativity).

(** [fs.readFile(dataFilePath, 'utf8')]. *)
Definition fs_readFile : async string :=
  fun w =>
    match data_json w with
    | Absent => (Throw (SystemError "ENOENT"), w)
    | Unreadable errno => (Throw (SystemError errno), w)
    | Content text => (Ok text, w)
    end.

(** [fs.writeFile(dataFilePath, text, 'utf8')]: the document is replaced in
    full. *)
Definition fs_writeFile (text : string) : async unit :=
  fun w =>
    match write_fault w with
    | Some (errno, residue) =>
        (Throw (SystemError errno),
         {| data_json := residue; write_fault := write_fault w |})
    | None =>
        (Ok tt, {| data_json := Content text; write_fault := write_fault w |})
    end.

(* ================================================================= *)
(** ** The storage adapter *)

(** [readData]: the parsed document, [[]] on any exception. *)
Definition readData : async value :=
  try_catch
    (data <- fs_readFile ;;
     lift (JSON_parse data))
    (fun _error => ret (VArr [] [])).

(** [writeData(data)]: the document becomes the text of [data], indented by
    two spaces; nothing is caught. *)
Definition writeData (data : value) : async unit :=
  fs_writeFile (JSON_stringify data 2).

(* ================================================================= *)
(** ** The route handlers *)

(** What a handler sends: the status and the body. *)
Record response : Type := {
  status : nat;
  body : string
}.

(** [res.status(code).json(v)]: the body is [JSON.stringify(v)]. *)
Definition res_json (code : nat) (v : value) : async response :=
  ret {| status := code; body := JSON_stringify v 0 |}.

(** [app.get('/items', ...)]. *)
Definition get_items : async response :=
  data <- readData ;;
  res_json 200 data.

(** [{ message: 'Item not found' }]. *)
Definition not_found : value := VObj [("message", VStr "Item not found")].

(** The callback of [find]: [item => item.id === id]. *)
Definition id_is (id : number) (item : value) : result bool :=
  match get_id item with
  | Ok x => Ok (strict_equals x id)
  | Throw e => Throw e
  end.

(** [app.get('/items/:id', ...)] on the path segment [req.params.id]. *)
Definition get_items_id (req_params_id : string) : async response :=
  let id := parseInt req_params_id in
  data <- readData ;;
  item <- lift (Array_find data (id_is id)) ;;
  match item with
  | Some found =>
      if truthy item then res_json 200 found else res_json 404 not_found
  | None => res_json 404 not_found
  end.

(** [app.post('/items', ...)] on the parsed body [req.body]; [uuid] is the
    identifier that [uuidv4()] draws for this request. *)
Definition post_items (req_body : value) (uuid : string) : async response :=
  let newItem := req_body in
  data <- readData ;;
  newItem <- lift (set_id newItem (VStr uuid)) ;;
  data <- lift (Array_push data newItem) ;;
  writeData data ;;;
  res_json 201 newItem.

(* ================================================================= *)
(** ** JSON data and what a client reads *)

(** The key [k] is an array index smaller than [i]. *)
Definition below (i : N) (k : string) : bool :=
  match array_index k with
  | Some j => (j <? i)%N
  | None => false
  end.

(** A new key [k] takes the last place after the keys [seen]. *)
Definition appendable (seen : list string) (k : string) : bool :=
  negb (existsb (String.eqb k) seen)
  && match array_index k with
     | Some i => forallb (below i) seen
     | None => true
     end.

(** The keys [ks], coming after the keys [seen], are in the order in which
    an object enumerates them: no key twice, array indices first and
    ascending. *)
Fixpoint canonical_after (seen ks : list string) : bool :=
  match ks with
  | [] => true
  | k :: rest => appendable seen k && canonical_after (seen ++ [k]) rest
  end.

Definition is_empty {A} (l : list A) : bool :=
  match l with
  | [] => true
  | _ => false
  end.

(** The values [JSON.parse] produces, as an object holds them in memory:
    binary64 numbers ([1e999] is read as an infinity, never [NaN]), arrays
    without named properties, objects with their keys in enumeration
    order. *)
Fixpoint json_data (v : value) : bool :=
  match v with
  | VNull | VBool _ | VStr _ => true
  | VNum NaN => false
  | VNum (Infinity _) => true
  | VNum (Finite _ m e) => binary64 m e
  | VArr elems own => forallb json_data elems && is_empty own
  | VObj props =>
      canonical_after [] (map fst props)
      && forallb (fun kv => json_data (snd kv)) props
  end.

(** The object that defining the properties [props] one after the other
    builds, starting from [acc]. *)
Definition define_all (props acc : list (string * value))
  : list (string * value) :=
  fold_left (fun acc kv => define (fst kv) (snd kv) acc) props acc.

(** What JSON text makes of a finite number: the number itself, and the
    positive zero of both zeros. *)
Definition carried (negative : bool) (m : N) (e : Z) : number :=
  if (m =? 0)%N then Finite false 0 emin else canonical negative m e.

(** Every number of [v] goes through JSON text unchanged: it is finite, and
    it is not the negative zero. *)
Fixpoint lossless (v : value) : bool :=
  match v with
  | VNull | VBool _ | VStr _ => true
  | VNum (Finite negative m _) => negb (negative && (m =? 0)%N)
  | VNum _ => false
  | VArr elems own =>
      forallb lossless elems && forallb (fun kv => lossless (snd kv)) own
  | VObj props => forallb (fun kv => lossless (snd kv)) props
  end.

(** What is left of a value once it went through JSON text: [NaN] and the
    infinities are [null], the negative zero is zero, the named properties
    of an array are gone. *)
Fixpoint plain (v : value) : value :=
  match v with
  | VNum NaN | VNum (Infinity _) => VNull
  | VNum (Finite negative m e) => VNum (carried negative m e)
  | VArr elems _ => VArr (map plain elems) []
  | VObj props =>
      VObj (define_all (map (fun kv => (fst kv, plain (snd kv))) props) [])
  | _ => v
  end.

(** Number of nodes of a value: enough fuel to parse its text. *)
Fixpoint size (v : value) : nat :=
  match v with
  | VArr elems _ => S (fold_right (fun x n => S (size x + n)) 0 elems)
  | VObj props => S (fold_right (fun kv n => S (size (snd kv) + n)) 0 props)
  | _ => 1
  end.

(** A number of the text ends before [rest]. *)
Definition number_end (rest : string) : bool :=
  match rest with
  | "" => true
  | String c _ =>
      negb (is_digit c || (c =? ".") || (c =? "e") || (c =? "E"))%char
  end.

(** The own property [k] of a record, as a client reads it in JSON. *)
Definition get_own (k : string) (v : value) : option value :=
  match v with
  | VObj props => lookup k props
  | VArr elems own =>
      match array_index k with
      | Some i => nth_error elems (N.to_nat i)
      | None => lookup k own
      end
  | _ => None
  end.

(** A record of the collection. *)
Definition is_record (v : value) : bool :=
  match v with
  | VObj _ => true
  | _ => false
  end.

(** What an HTTP client reads in a response: its body as JSON. *)
Definition sent (r : response) : result value := JSON_parse (body r).

(** The status of the answer to a request, when it is answered. *)
Definition status_of (run : result response * world) : option nat :=
  match fst run with
  | Ok r => Some (status r)
  | Throw _ => None
  end.

(** What a client reads in the answer to a request, when it is answered. *)
Definition read_of (run : result response * world) : option (result value) :=
  match fst run with
  | Ok r => Some (sent r)
  | Throw _ => None
  end.

(** The identifier [identifier], as a client writes it in the path, is the
    [id] of [item]: the [id] is that string, or the number written so. *)
Definition has_id (identifier : string) (item : value) : bool :=
  match get_id item with
  | Ok (Some (VStr s)) => s =? identifier
  | Ok (Some (VNum n)) => number_json n =? identifier
  | _ => false
  end.

(** The world holds the collection [items]: this is what [readData]
    returns. *)
Definition holds (w : world) (items : list value) : Prop :=
  fst (readData w) = Ok (VArr items []).

(** The text [{"message":"Item not found"}]. *)
Definition not_found_text : string :=
  "{" ++ quote "message" ++ ":" ++ quote "Item not found" ++ "}".

(** The request succeeds with the response [r]. *)
Definition responds {A} (run : result A * world) (r : A) : Prop :=
  fst run = Ok r.

(** A body that [express.json()] hands to the handler: an object or an
    array (the middleware refuses any other JSON text), as JSON data. *)
Definition valid_body (v : value) : bool :=
  match v with
  | VObj _ | VArr _ _ => json_data v
  | _ => false
  end.

(** *** Scenarios *)

(** An identifier as [uuidv4()] draws them. *)
Definition uuid_example : string := "f47ac10b-58cc-4372-a567-0e02b2c3d479".

(** The body [{"name":"Widget"}]. *)
Definition widget : value := VObj [("name", VStr "Widget")].

(** No document yet, and writes succeed. *)
Definition empty_store : world :=
  {| data_json := Absent; write_fault := None |}.

(** The document that [writeData] leaves for the collection [items]. *)
Definition store_of (items : list value) : world :=
  {| data_json := Content (JSON_stringify (VArr items []) 2);
     write_fault := None |}.

(** A document that is not JSON. *)
Definition corrupted_store : world :=
  {| data_json := Content "{ not json"; write_fault := None |}.

(** A store on which every write fails and leaves the document as it was. *)
Definition read_only (w : world) : world :=
  {| data_json := data_json w;
     write_fault := Some ("EACCES", data_json w) |}.

(** The item [{"id":n,"name":name}] of a collection with numeric ids. *)
Definition numbered (n : Z) (name : string) : value :=
  VObj [("id", VNum (Dec n 0)); ("name", VStr name)].

(** The item that [POST /items] makes of [widget]. *)
Definition created_widget : value :=
  VObj [("name", VStr "Widget"); ("id", VStr uuid_example)].

(** The properties of a body that supplies an [id] of its own. *)
Definition with_client_id : list (string * value) :=
  [("id", VNum (Dec 5 0)); ("name", VStr "Widget")].

(** A collection in which two items have the id 7. *)
Definition duplicates : list value :=
  [numbered 3 "other"; numbered 7 "first"; numbered 5 "between";
   numbered 7 "second"].

(** The answer to [POST /items] carries the generated identifier as its
    [id], and the client did not supply that identifier. *)
Definition echoes_fresh_id (w : world) (req_body : value) (uuid : string)
  : Prop :=
  exists resp item,
    responds (post_items req_body uuid w) resp
    /\ status resp = 201
    /\ sent resp = Ok item
    /\ get_id item = Ok (Some (VStr uuid))
    /\ get_id req_body <> Ok (Some (VStr uuid)).

(** [GET /items/identifier] answers 404 when no item of the collection has
    the identifier as its [id]. *)
Definition absent_id_not_found (w : world) (items : list value)
  (identifier : string) : Prop :=
  holds w items ->
  (forall item, In item items -> has_id identifier item = false) ->
  responds (get_items_id identifier w)
    {| status := 404; body := not_found_text |}.

(** The white space that [JSON.stringify] puts before an element: none
    without indentation, else a line break and the indentation. *)
Definition pad (gap : nat) (indent : nat) : string :=
  if (gap =? 0)%nat then "" else String newline (spaces indent).

(** A character that starts a value of the text. *)
Definition value_start (c : ascii) : bool :=
  negb (is_ws c) && negb (c =? "]")%char && negb (c =? "}")%char.

(** The text of [v], whatever its indentation and whatever follows it, is
    read back as [plain v]. *)
Definition reads_back (v : value) : Prop :=
  forall gap indent fuel rest,
    size v <= fuel ->
    number_end rest = true ->
    parse_value fuel (serialize (spaces gap) (spaces indent) v ++ rest)
    = Some (plain v, rest).

Definition elems_size (elems : list value) : nat :=
  fold_right (fun x n => S (size x + n)) 0 elems.

Definition props_size (props : list (string * value)) : nat :=
  fold_right (fun kv n => S (size (snd kv) + n)) 0 props.

(** A member of an object in the text. *)
Definition member (gap indent : string) (kv : string * value) : string :=
  quote (fst kv) ++ (if gap =? "" then ":" else ": ")
    ++ serialize gap indent (snd kv).

(** *** The two halves of [POST /items] and schedules of two requests *)

(** [POST /items] from its first [await] on: [data] is what
    [await readData()] returned. *)
Definition post_items_resume (req_body : value) (uuid : string) (data : value)
  : async response :=
  newItem <- lift (set_id req_body (VStr uuid)) ;;
  data <- lift (Array_push data newItem) ;;
  writeData data ;;;
  res_json 201 newItem.

(** Two requests [POST /items], the second handled after the first has
    answered. *)
Definition two_posts (a : value) (ua : string) (b : value) (ub : string)
  : async (response * response) :=
  first <- post_items a ua ;;
  second <- post_items b ub ;;
  ret (first, second).

(** Two requests [POST /items] whose handlers both get past
    [await readData()] before either reaches [await writeData(data)]. *)
Definition interleaved_posts (a : value) (ua : string) (b : value)
  (ub : string) : async (response * response) :=
  dataA <- readData ;;
  dataB <- readData ;;
  first <- post_items_resume a ua dataA ;;
  second <- post_items_resume b ub dataB ;;
  ret (first, second).

(** *** Shapes of documents and of path segments *)

Definition is_array (v : value) : bool :=
  match v with
  | VArr _ _ => true
  | _ => false
  end.

Definition is_null (v : value) : bool :=
  match v with
  | VNull => true
  | _ => false
  end.

(** A visible ASCII character that starts no number for [parseInt]: not
    white space, not a sign, not a digit. *)
Definition starts_no_number (c : ascii) : bool :=
  ((33 <=? code c) && (code c <=? 126))%N
  && negb (is_digit c) && negb (c =? "+")%char && negb (c =? "-")%char.

(** A text that [parseInt] does not read on after a decimal numeral: empty,
    or starting with a character that is neither a digit nor [x] or [X]. *)
Definition ends_numeral (suffix : string) : bool :=
  match suffix with
  | "" => true
  | String c _ =>
      negb (is_digit c) && negb (c =? "x")%char && negb (c =? "X")%char
  end.

(** The document [[null]]. *)
Definition store_of_null : world :=
  {| data_json := Content "[null]"; write_fault := None |}.

(** The document [{}]: JSON, and no array. *)
Definition store_of_object : world :=
  {| data_json := Content "{}"; write_fault := None |}.

(** *** Numerals *)

(** A number with the sign [negative]. *)
Definition with_sign (negative : bool) (n : number) : number :=
  match n with
  | NaN => NaN
  | Infinity _ => Infinity negative
  | Finite _ m e => Finite negative m e
  end.

Definition sign_text (negative : bool) : string :=
  if negative then "-" else "".

(** The decimal numeral of the integer [z]. *)
Definition numeral (z : Z) : string :=
  sign_text (z <? 0)%Z ++ N_digits (Z.abs_N z).

(** The exponent part of a numeral. *)
Definition exponent_text (e : Z) : string :=
  "e" ++ (if (e <? 0)%Z then "-" else "+") ++ N_digits (Z.abs_N e).

(** No digit comes first in [rest]. *)
Definition no_digit (rest : string) : Prop :=
  match rest with
  | String c _ => is_digit c = false
  | "" => True
  end.

(** [parseInt] reads the identifier in full: it makes no number of it, or
    the number whose text the identifier is. *)
Definition read_in_full (identifier : string) : bool :=
  match parseInt identifier with
  | NaN => true
  | n => number_json n =? identifier
  end.

(** [GET /items] answers with the collection [items]: this is what a
    client reads of the store. *)
Definition lists (w : world) (items : list value) : Prop :=
  exists resp,
    responds (get_items w) resp
    /\ status resp = 200
    /\ sent resp = Ok (VArr items []).

(** The request is answered with a server error. *)
Definition answers_server_error (run : result response * world) : Prop :=
  exists resp, responds run resp /\ 500 <= status resp.

(** Saving the collection [items] and then loading returns [items]. *)
Definition saved_is_loaded (w : world) (items : list value) : Prop :=
  responds (writeData (VArr items []) w) tt
  /\ holds (snd (writeData (VArr items []) w)) items.

(** The answer to [POST /items] is the body with the generated identifier
    as its [id] and every other field as it came. *)
Definition echoes_other_fields (w : world) (req_body : value) (uuid : string)
  : Prop :=
  exists resp created,
    responds (post_items req_body uuid w) resp
    /\ sent resp = Ok created
    /\ get_own "id" created = Some (VStr uuid)
    /\ forall k, k <> "id" -> get_own k created = get_own k req_body.

(** An item that an earlier [POST /items] made of the body [[]]. *)
Definition created_array : value := VArr [] [("id", VStr uuid_example)].

(** The body [{"big":1e999}] as [express.json()] parses it. *)
Definition big_body_text : string := "{" ++ quote "big" ++ ":1e999}".
Definition big_body : value := VObj [("big", VNum (Infinity false))].

(** The body [{"z":-0}] as [express.json()] parses it. *)
Definition negative_zero_text : string := "{" ++ quote "z" ++ ":-0}".
Definition negative_zero_body : value :=
  VObj [("z", VNum (Finite true 0 emin))].

(* ================================================================= *)
(** * Properties *)

(** ** Text *)

Lemma append_assoc (a b c : string) : (a ++ b) ++ c = a ++ b ++ c.
Proof. induction a as [|x a IH]; simpl; [reflexivity | now rewrite IH]. Qed.

Lemma append_nil_r (a : string) : a ++ "" = a.
Proof. induction a as [|x a IH]; simpl; [reflexivity | now rewrite IH]. Qed.

Lemma length_append (a b : string) :
  String.length (a ++ b) = String.length a + String.length b.
Proof. induction a as [|x a IH]; simpl; [reflexivity | now rewrite IH]. Qed.

Lemma take_drop (n : nat) (s : string) : take n s ++ drop n s = s.
Proof.
  revert s; induction n as [|n IH]; intros [|c r]; simpl; try reflexivity.
  now rewrite IH.
Qed.

Lemma length_take (n : nat) (s : string) :
  n <= String.length s -> String.length (take n s) = n.
Proof.
  revert s; induction n as [|n IH]; intros [|c r]; simpl; intros H;
    try reflexivity; try lia.
  rewrite IH; lia.
Qed.

Lemma length_drop (n : nat) (s : string) :
  String.length (drop n s) = String.length s - n.
Proof.
  revert s; induction n as [|n IH]; intros [|c r]; simpl; try reflexivity.
  apply IH.
Qed.

Lemma spaces_app (a b : nat) : spaces a ++ spaces b = spaces (a + b).
Proof. induction a as [|a IH]; simpl; [reflexivity | now rewrite IH]. Qed.

Lemma spaces_empty (n : nat) : (spaces n =? "") = (n =? 0)%nat.
Proof. destruct n; reflexivity. Qed.

Lemma skip_ws_spaces (n : nat) (s : string) :
  skip_ws (spaces n ++ s) = skip_ws s.
Proof. induction n as [|n IH]; simpl; [reflexivity | exact IH]. Qed.

Lemma strip_prefix_app (p s : string) : strip_prefix p (p ++ s) = Some s.
Proof.
  induction p as [|c p IH]; simpl; [reflexivity |].
  now rewrite Ascii.eqb_refl.
Qed.

(** ** Decimal digits *)

Lemma digit_char_spec (d : N) :
  (d < 10)%N ->
  is_digit (digit_char d) = true /\ digit_val (digit_char d) = d.
Proof.
  intros H.
  assert (Hd : In d [0; 1; 2; 3; 4; 5; 6; 7; 8; 9]%N) by (simpl; lia).
  simpl in Hd.
  repeat (destruct Hd as [<- | Hd]; [split; reflexivity |]).
  contradiction.
Qed.

Lemma digit_char_zero (d : N) :
  (d < 10)%N -> d <> 0%N -> (digit_char d =? "0")%char = false.
Proof.
  intros H H0.
  assert (Hd : In d [1; 2; 3; 4; 5; 6; 7; 8; 9]%N) by (simpl; lia).
  simpl in Hd.
  repeat (destruct Hd as [<- | Hd]; [reflexivity |]).
  contradiction.
Qed.

Lemma digits_val_app (a b : string) (acc : N) :
  digits_val (a ++ b) acc = digits_val b (digits_val a acc).
Proof. revert acc; induction a as [|c a IH]; simpl; intros; [reflexivity | apply IH]. Qed.

Lemma all_digits_app (a b : string) :
  all_digits (a ++ b) = all_digits a && all_digits b.
Proof.
  induction a as [|c a IH]; simpl; [reflexivity |].
  now rewrite IH, andb_assoc.
Qed.

Lemma all_digits_take (n : nat) (s : string) :
  all_digits s = true -> all_digits (take n s) = true.
Proof.
  revert s; induction n as [|n IH]; intros [|c r]; simpl; try reflexivity.
  intros H; apply andb_true_iff in H as [Hc Hr].
  now rewrite Hc, IH.
Qed.

Lemma all_digits_drop (n : nat) (s : string) :
  all_digits s = true -> all_digits (drop n s) = true.
Proof.
  revert s; induction n as [|n IH]; intros [|c r]; simpl; try easy.
  intros H; apply andb_true_iff in H as [Hc Hr].
  now apply IH.
Qed.

Lemma all_digits_zeros (n : nat) : all_digits (zeros n) = true.
Proof. induction n; simpl; [reflexivity | assumption]. Qed.

Lemma digits_val_zeros (n : nat) (s : string) :
  digits_val (zeros n ++ s) 0 = digits_val s 0.
Proof. induction n; simpl; [reflexivity | assumption]. Qed.

Lemma length_zeros (n : nat) : String.length (zeros n) = n.
Proof. induction n; simpl; [reflexivity | now f_equal]. Qed.

(** The lexer takes exactly a run of digits that is followed by something
    else. *)
Lemma lex_digits_app (ds rest : string) :
  all_digits ds = true ->
  match rest with String c _ => is_digit c = false | "" => True end ->
  lex_digits (ds ++ rest) = (ds, rest).
Proof.
  intros Hds Hrest; induction ds as [|c ds IH]; simpl in *.
  - destruct rest as [|c r]; [reflexivity |].
    simpl; now rewrite Hrest.
  - apply andb_true_iff in Hds as [Hc Hds].
    now rewrite Hc, IH.
Qed.

Lemma N_digits_aux_val (fuel : nat) (n : N) :
  (n < 10 ^ N.of_nat fuel)%N -> digits_val (N_digits_aux fuel n) 0 = n.
Proof.
  revert n; induction fuel as [|f IH]; intros n H.
  - simpl in *. lia.
  - simpl N_digits_aux.
    destruct (N.ltb_spec n 10) as [Hlt | Hge].
    + simpl. now destruct (digit_char_spec n Hlt) as [_ ->].
    + rewrite digits_val_app, IH.
      * simpl.
        destruct (digit_char_spec (n mod 10)) as [_ ->].
        { apply N.mod_lt; lia. }
        pose proof (N.div_mod n 10 ltac:(lia)). lia.
      * rewrite Nat2N.inj_succ, N.pow_succ_r' in H.
        apply N.Div0.div_lt_upper_bound; lia.
Qed.

Lemma N_digits_aux_digits (fuel : nat) (n : N) :
  all_digits (N_digits_aux fuel n) = true.
Proof.
  revert n; induction fuel as [|f IH]; intros n; simpl; [reflexivity |].
  destruct (N.ltb_spec n 10) as [Hlt | Hge].
  - simpl. now destruct (digit_char_spec n Hlt) as [-> _].
  - rewrite all_digits_app, IH. simpl.
    destruct (digit_char_spec (n mod 10)) as [-> _]; [| reflexivity].
    apply N.mod_lt; lia.
Qed.

Lemma N_digits_aux_head (fuel : nat) (n : N) :
  n <> 0%N -> (n < 10 ^ N.of_nat fuel)%N ->
  exists c r, N_digits_aux fuel n = String c r /\ (c =? "0")%char = false.
Proof.
  revert n; induction fuel as [|f IH]; intros n Hn H.
  - simpl in H. lia.
  - simpl N_digits_aux.
    destruct (N.ltb_spec n 10) as [Hlt | Hge].
    + eexists _, _; split; [reflexivity |]. now apply digit_char_zero.
    + destruct (IH (n / 10)%N) as (c & r & E & Hc).
      * intros E. apply N.div_small_iff in E; lia.
      * rewrite Nat2N.inj_succ, N.pow_succ_r' in H.
        apply N.Div0.div_lt_upper_bound; lia.
      * rewrite E. simpl. eexists _, _; split; [reflexivity | exact Hc].
Qed.

Lemma N_digits_bound (n : N) :
  (n < 10 ^ N.of_nat (S (N.to_nat (N.log2 n))))%N.
Proof.
  rewrite Nat2N.inj_succ, N2Nat.id.
  destruct (N.eq_dec n 0) as [-> | Hn]; [reflexivity |].
  destruct (N.log2_spec n) as [_ H]; [lia |].
  eapply N.lt_le_trans; [exact H |].
  apply N.pow_le_mono_l. lia.
Qed.

Lemma N_digits_val (n : N) : digits_val (N_digits n) 0 = n.
Proof. apply N_digits_aux_val, N_digits_bound. Qed.

Lemma N_digits_digits (n : N) : all_digits (N_digits n) = true.
Proof. apply N_digits_aux_digits. Qed.

Lemma N_digits_head (n : N) :
  n <> 0%N ->
  exists c r, N_digits n = String c r /\ (c =? "0")%char = false.
Proof. intros Hn. apply N_digits_aux_head; [assumption | apply N_digits_bound]. Qed.

(** The numeral of a number starts with a digit. *)
Lemma N_digits_first (n : N) :
  exists c r, N_digits n = String c r /\ is_digit c = true.
Proof.
  pose proof (N_digits_digits n) as H.
  destruct (N.eq_dec n 0) as [-> | Hn].
  - eexists _, _; split; reflexivity.
  - destruct (N_digits_head n Hn) as (c & r & E & _).
    rewrite E in H. simpl in H. apply andb_true_iff in H as [Hc _].
    eauto.
Qed.

(** ** Array indices name their key *)

Lemma digit_val_bound (c : ascii) : is_digit c = true -> (digit_val c <= 9)%N.
Proof.
  unfold is_digit, digit_val. intros H.
  apply andb_true_iff in H as [H1 H2].
  apply N.leb_le in H1, H2. lia.
Qed.

Lemma digit_val_inj (c d : ascii) :
  is_digit c = true -> is_digit d = true -> digit_val c = digit_val d -> c = d.
Proof.
  unfold is_digit, digit_val, code. intros Hc Hd H.
  apply andb_true_iff in Hc as [Hc _], Hd as [Hd _].
  apply N.leb_le in Hc, Hd.
  rewrite <- (ascii_N_embedding c), <- (ascii_N_embedding d).
  f_equal. lia.
Qed.

Lemma digit_val_zero (c : ascii) :
  is_digit c = true -> (c =? "0")%char = false -> (1 <= digit_val c)%N.
Proof.
  intros Hc H0.
  destruct (N.eq_dec (digit_val c) 0) as [E | E]; [| lia].
  assert (c = "0"%char) as -> by (apply digit_val_inj; auto).
  discriminate.
Qed.

Lemma digits_val_acc (s : string) (acc : N) :
  digits_val s acc
  = (acc * 10 ^ N.of_nat (String.length s) + digits_val s 0)%N.
Proof.
  revert acc; induction s as [|c s IH]; intros acc.
  - simpl. lia.
  - cbn [digits_val String.length]. rewrite (IH (acc * 10 + digit_val c)%N).
    rewrite (IH (0 * 10 + digit_val c)%N).
    rewrite Nat2N.inj_succ, N.pow_succ_r'. ring.
Qed.

Lemma digits_val_lt (s : string) :
  all_digits s = true -> (digits_val s 0 < 10 ^ N.of_nat (String.length s))%N.
Proof.
  induction s as [|c s IH]; intros H.
  - simpl. lia.
  - cbn [all_digits] in H. apply andb_true_iff in H as [Hc Hs].
    cbn [digits_val String.length]. rewrite digits_val_acc.
    rewrite Nat2N.inj_succ, N.pow_succ_r'.
    pose proof (digit_val_bound c Hc). specialize (IH Hs).
    nia.
Qed.

(** Two strings of digits of the same length and value are the same. *)
Lemma digits_val_inj (a b : string) :
  String.length a = String.length b ->
  all_digits a = true -> all_digits b = true ->
  digits_val a 0 = digits_val b 0 -> a = b.
Proof.
  revert b; induction a as [|c a IH]; intros [|d b] Hlen Ha Hb Hval;
    try discriminate; [reflexivity |].
  cbn [all_digits] in Ha, Hb.
  apply andb_true_iff in Ha as [Hc Ha], Hb as [Hd Hb].
  cbn [digits_val String.length] in *.
  injection Hlen as Hlen.
  rewrite (digits_val_acc a), (digits_val_acc b), <- Hlen in Hval.
  pose proof (digits_val_lt a Ha) as La.
  pose proof (digits_val_lt b Hb) as Lb. rewrite <- Hlen in Lb.
  destruct (N.div_mod_unique (10 ^ N.of_nat (String.length a))
              (digit_val c) (digit_val d) (digits_val a 0) (digits_val b 0)
              La Lb ltac:(lia)) as [E1 E2].
  f_equal; [now apply digit_val_inj | now apply IH].
Qed.

(** A key that is an array index is the canonical numeral of the index. *)
Lemma array_index_spec (k : string) (i : N) :
  array_index k = Some i ->
  exists c r,
    k = String c r /\ all_digits k = true /\ digits_val k 0 = i
    /\ ((c =? "0")%char = false \/ r = "").
Proof.
  unfold array_index. destruct k as [|c r]; [discriminate |].
  destruct (lex_digits (String c r)) as [ds rest] eqn:E.
  destruct (rest =? "") eqn:Hrest; [| discriminate].
  apply String.eqb_eq in Hrest. subst rest. simpl negb. cbv iota.
  destruct ((c =? "0")%char && negb (r =? "")) eqn:Hlead; [discriminate |].
  destruct (digits_val ds 0 <=? 4294967294)%N; [| discriminate].
  intros [= <-].
  assert (Hds : forall s ds', lex_digits s = (ds', "") ->
                              ds' = s /\ all_digits s = true).
  { clear. induction s as [|c s IH]; simpl; intros ds' H.
    - injection H as <-. split; reflexivity.
    - destruct (is_digit c); [| discriminate].
      destruct (lex_digits s) as [ds'' rest'].
      injection H as <- ->. destruct (IH ds'' eq_refl) as [-> ->].
      split; reflexivity. }
  destruct (Hds _ _ E) as [-> Hall].
  exists c, r. repeat split; try assumption.
  apply andb_false_iff in Hlead as [H | H]; [now left | right].
  apply negb_false_iff, String.eqb_eq in H. exact H.
Qed.

Lemma array_index_inj (a b : string) (i : N) :
  array_index a = Some i -> array_index b = Some i -> a = b.
Proof.
  intros Ha Hb.
  destruct (array_index_spec a i Ha) as (c & r & -> & Da & Va & Ca).
  destruct (array_index_spec b i Hb) as (d & t & -> & Db & Vb & Cb).
  apply digits_val_inj; try assumption; [| congruence].
  pose proof (digits_val_lt _ Da) as La. rewrite Va in La.
  pose proof (digits_val_lt _ Db) as Lb. rewrite Vb in Lb.
  cbn [all_digits] in Da, Db.
  apply andb_true_iff in Da as [Hc Dr], Db as [Hd Dt].
  cbn [digits_val String.length] in *.
  rewrite digits_val_acc in Va, Vb.
  rewrite Nat2N.inj_succ, N.pow_succ_r' in La, Lb.
  pose proof (digits_val_lt r Dr) as Lr.
  pose proof (digits_val_lt t Dt) as Lt.
  assert (Hpow : forall x y : nat,
             x < y -> (10 * 10 ^ N.of_nat x <= 10 ^ N.of_nat y)%N).
  { intros x y Hxy. rewrite <- N.pow_succ_r', <- Nat2N.inj_succ.
    apply N.pow_le_mono_r; lia. }
  assert (Hpos : forall x : nat, (1 <= 10 ^ N.of_nat x)%N).
  { intros x. pose proof (N.pow_nonzero 10 (N.of_nat x)). lia. }
  destruct Ca as [Ca | ->], Cb as [Cb | ->].
  - pose proof (digit_val_zero c Hc Ca). pose proof (digit_val_zero d Hd Cb).
    destruct (Nat.lt_trichotomy (String.length r) (String.length t))
      as [Hlt | [Heq | Hgt]]; [| now f_equal |].
    + specialize (Hpow _ _ Hlt). nia.
    + specialize (Hpow _ _ Hgt). nia.
  - pose proof (digit_val_zero c Hc Ca). simpl in *.
    destruct r; [reflexivity |]. exfalso.
    cbn [String.length] in *. rewrite Nat2N.inj_succ, N.pow_succ_r' in *.
    pose proof (Hpos (String.length r)).
    pose proof (digit_val_bound d Hd). nia.
  - pose proof (digit_val_zero d Hd Cb). simpl in *.
    destruct t; [reflexivity |]. exfalso.
    cbn [String.length] in *. rewrite Nat2N.inj_succ, N.pow_succ_r' in *.
    pose proof (Hpos (String.length t)).
    pose proof (digit_val_bound c Hc). nia.
  - reflexivity.
Qed.

(** ** Rounding to binary64 *)

Lemma nearest_cases (negative : bool) (p q : Z) :
  exists m g,
    (nearest negative p q
     = if (emax <? g + emin)%Z then Infinity negative
       else Finite negative (Z.to_N m) (g + emin))
    /\ ((0 <= p)%Z -> (0 < q)%Z ->
        (0 <= g /\ 0 <= m < 2 ^ 53 /\ (0 < g -> 2 ^ 52 <= m))%Z).
Proof.
  unfold nearest.
  set (n := (p * 2 ^ 1074)%Z).
  set (y := (n / q)%Z).
  set (g := Z.max 0 (Z.log2 y - 52)).
  set (d := (q * 2 ^ g)%Z).
  set (m0 := (n / d)%Z).
  set (r := (n mod d)%Z).
  set (up := ((d <? 2 * r) || ((d =? 2 * r) && Z.odd m0))%Z).
  set (m := if up then (m0 + 1)%Z else m0).
  assert (Hbounds : (0 <= p -> 0 < q ->
                     0 <= g /\ 0 <= m0 < 2 ^ 53 /\ (0 < g -> 2 ^ 52 <= m0))%Z).
  { intros Hp Hq.
    assert (Hg : (0 <= g)%Z) by (unfold g; lia).
    assert (Hn : (0 <= n)%Z).
    { unfold n. apply Z.mul_nonneg_nonneg; [exact Hp |].
      apply Z.pow_nonneg. lia. }
    assert (Hy : (0 <= y)%Z) by (unfold y; apply Z.div_pos; assumption).
    assert (H2g : (0 < 2 ^ g)%Z) by (apply Z.pow_pos_nonneg; lia).
    assert (Hm0 : m0 = (y / 2 ^ g)%Z).
    { unfold m0, d, y. rewrite Z.div_div; [reflexivity | lia | exact H2g]. }
    split; [exact Hg |].
    destruct (Z.eq_dec y 0) as [E | E].
    - assert (Eg : g = 0%Z) by (unfold g; rewrite E; reflexivity).
      rewrite Hm0, E, Eg. rewrite Z.div_0_l by lia.
      split; [split; [lia | apply Z.pow_pos_nonneg; lia] | lia].
    - assert (Hy' : (0 < y)%Z) by lia.
      destruct (Z.log2_spec y Hy') as [Hlo Hhi].
      set (l := Z.log2 y) in *.
      assert (Hl : (0 <= l)%Z) by apply Z.log2_nonneg.
      rewrite Hm0. split; [split |].
      + apply Z.div_pos; lia.
      + apply Z.div_lt_upper_bound; [exact H2g |].
        rewrite <- Z.pow_add_r by lia.
        eapply Z.lt_le_trans; [exact Hhi |].
        apply Z.pow_le_mono_r; unfold g; lia.
      + intros Hgpos.
        assert (Eg : g = (l - 52)%Z) by (unfold g in *; lia).
        apply Z.div_le_lower_bound; [exact H2g |].
        rewrite <- Z.pow_add_r by lia.
        replace (g + 52)%Z with l by lia. exact Hlo. }
  destruct (m =? 2 ^ 53)%Z eqn:Ecarry.
  - exists (2 ^ 52)%Z, (g + 1)%Z. split; [reflexivity |].
    intros Hp Hq. destruct (Hbounds Hp Hq) as (Hg & _ & _).
    split; [lia |]. split; [| intros _; lia].
    split; [apply Z.pow_nonneg; lia |].
    apply Z.pow_lt_mono_r; lia.
  - exists m, g. split; [reflexivity |].
    intros Hp Hq. destruct (Hbounds Hp Hq) as (Hg & Hm0 & Hnormal).
    apply Z.eqb_neq in Ecarry.
    split; [exact Hg |].
    assert (Hm : (m0 <= m <= m0 + 1)%Z) by (unfold m; destruct up; lia).
    split; [lia |]. intros Hgpos. specialize (Hnormal Hgpos). lia.
Qed.

(** What [nearest] returns is a binary64 number of the given sign. *)
Lemma nearest_binary64 (negative : bool) (p q : Z) :
  (0 <= p)%Z -> (0 < q)%Z ->
  match nearest negative p q with
  | NaN => False
  | Infinity s => s = negative
  | Finite s m e => s = negative /\ binary64 m e = true
  end.
Proof.
  intros Hp Hq.
  destruct (nearest_cases negative p q) as (m & g & -> & H).
  destruct (H Hp Hq) as (Hg & Hm & Hnormal).
  destruct (Z.ltb_spec emax (g + emin)) as [Hinf | Hfin]; [reflexivity |].
  split; [reflexivity |]. unfold binary64.
  assert (H53 : Z.to_N (2 ^ 53) = (2 ^ 53)%N) by reflexivity.
  assert (H52 : Z.to_N (2 ^ 52) = (2 ^ 52)%N) by reflexivity.
  repeat (apply andb_true_iff; split).
  - apply N.ltb_lt. rewrite <- H53. apply Z2N.inj_lt; lia.
  - apply Z.leb_le; lia.
  - apply Z.leb_le; lia.
  - apply orb_true_iff.
    destruct (Z.eq_dec g 0) as [-> | Hne].
    + right. apply Z.eqb_eq. lia.
    + left. apply N.leb_le. rewrite <- H52. apply Z2N.inj_le; lia.
Qed.

Lemma binary64_bounds (m : N) (e : Z) :
  binary64 m e = true ->
  (0 <= Z.of_N m < 2 ^ 53 /\ emin <= e <= emax
   /\ (2 ^ 52 <= Z.of_N m \/ e = emin))%Z.
Proof.
  unfold binary64. intros H.
  apply andb_true_iff in H as [H Hn].
  apply andb_true_iff in H as [H He2].
  apply andb_true_iff in H as [Hm He1].
  apply Z.leb_le in He1, He2. apply N.ltb_lt in Hm.
  assert (H53 : Z.of_N (2 ^ 53) = (2 ^ 53)%Z) by reflexivity.
  assert (H52 : Z.of_N (2 ^ 52) = (2 ^ 52)%Z) by reflexivity.
  split; [rewrite <- H53; lia |]. split; [lia |].
  apply orb_true_iff in Hn as [Hn | Hn];
    [apply N.leb_le in Hn; left; rewrite <- H52; lia
    | apply Z.eqb_eq in Hn; now right].
Qed.

Lemma log2_binary64 (m : N) (e : Z) :
  binary64 m e = true -> (0 < Z.of_N m)%Z ->
  (Z.max 0 (Z.log2 (Z.of_N m * 2 ^ (e - emin)) - 52) = e - emin)%Z.
Proof.
  intros H Hm.
  destruct (binary64_bounds m e H) as (Hm' & He & Hn).
  rewrite Z.log2_mul_pow2 by lia.
  destruct Hn as [Hn | ->].
  - assert (E : Z.log2 (Z.of_N m) = 52%Z)
      by (apply Z.log2_unique; [lia | split; [exact Hn | apply Hm']]).
    lia.
  - assert (Z.log2 (Z.of_N m) < 53)%Z
      by (apply Z.log2_lt_pow2; [assumption | apply Hm']).
    lia.
Qed.

(** A quotient that is a binary64 number is its own nearest number. *)
Lemma nearest_exact (negative : bool) (p q : Z) (m : N) (e : Z) :
  binary64 m e = true -> (0 < q)%Z ->
  (p * 2 ^ 1074 = q * (Z.of_N m * 2 ^ (e - emin)))%Z ->
  nearest negative p q = Finite negative m e.
Proof.
  intros H Hq Hpq.
  destruct (binary64_bounds m e H) as (Hm & He & Hn).
  unfold nearest. rewrite Hpq.
  set (y := (Z.of_N m * 2 ^ (e - emin))%Z).
  assert (Hy : (q * y / q = y)%Z) by (rewrite Z.mul_comm; apply Z.div_mul; lia).
  rewrite Hy.
  assert (Eg : Z.max 0 (Z.log2 y - 52) = (e - emin)%Z).
  { destruct (N.eq_dec m 0) as [-> | Hm0].
    - unfold y. rewrite Z.mul_0_l. simpl Z.log2.
      assert (2 ^ 52 > 0)%Z by (apply Z.lt_gt, Z.pow_pos_nonneg; lia). lia.
    - apply log2_binary64; [exact H | lia]. }
  rewrite Eg.
  set (g := (e - emin)%Z) in *.
  assert (H2g : (0 < 2 ^ g)%Z) by (apply Z.pow_pos_nonneg; unfold g; lia).
  assert (Ed : (q * y = Z.of_N m * (q * 2 ^ g))%Z) by (unfold y; ring).
  rewrite Ed.
  assert (Hd : (0 < q * 2 ^ g)%Z) by (apply Z.mul_pos_pos; assumption).
  rewrite Z.div_mul by lia. rewrite Z.mod_mul by lia.
  rewrite Z.mul_0_r.
  destruct (Z.ltb_spec (q * 2 ^ g) 0) as [? | _]; [lia |].
  destruct (Z.eqb_spec (q * 2 ^ g) 0) as [? | _]; [lia |].
  cbn [orb andb].
  destruct (Z.eqb_spec (Z.of_N m) (2 ^ 53)) as [? | _]; [lia |].
  replace (g + emin)%Z with e by (unfold g; lia).
  destruct (Z.ltb_spec emax e) as [? | _]; [lia |].
  now rewrite N2Z.id.
Qed.

(** The decimal expansion of a binary64 number denotes it. *)
Lemma canonical_binary64 (negative : bool) (m : N) (e : Z) :
  binary64 m e = true -> canonical negative m e = Finite negative m e.
Proof.
  intros H. unfold canonical.
  destruct (binary64_bounds m e H) as (Hm & He & Hn).
  unfold exact_decimal, decimal.
  destruct (Z.leb_spec 0 e) as [Hpos | Hneg].
  - simpl (0 <=? 0)%Z. cbv iota.
    apply nearest_exact; [exact H | lia |].
    rewrite Z.pow_0_r, !Z.mul_1_r, Z.mul_1_l.
    replace (e - emin)%Z with (e + 1074)%Z by (unfold emin; lia).
    rewrite (Z.pow_add_r 2 e 1074) by lia. ring.
  - destruct (Z.leb_spec 0 e) as [? | _]; [lia |].
    apply nearest_exact; [exact H | apply Z.pow_pos_nonneg; lia |].
    set (a := (- e)%Z).
    assert (Ha : (0 < a <= 1074)%Z) by (unfold a, emin in *; lia).
    replace (e - emin)%Z with (1074 - a)%Z by (unfold a, emin; lia).
    replace 10%Z with (5 * 2)%Z by reflexivity.
    rewrite Z.pow_mul_l.
    replace (2 ^ 1074)%Z with (2 ^ a * 2 ^ (1074 - a))%Z.
    + ring.
    + rewrite <- Z.pow_add_r by lia. f_equal. lia.
Qed.

(** ** The shortest numeral of a number *)

Lemma nearest_sign (negative : bool) (p q : Z) :
  nearest negative p q = with_sign negative (nearest false p q).
Proof.
  unfold nearest.
  repeat match goal with
         | |- context [if ?b then _ else _] => destruct b
         end; reflexivity.
Qed.

Lemma decimal_sign (negative : bool) (s x : Z) :
  decimal negative s x = with_sign negative (decimal false s x).
Proof. unfold decimal. destruct (0 <=? x)%Z; apply nearest_sign. Qed.

Lemma number_same_eq (a b : number) : number_same a b = true -> a = b.
Proof.
  destruct a as [| s | s m e], b as [| t | t n f]; simpl; try discriminate;
    try reflexivity.
  - intros H. apply Bool.eqb_prop in H. now subst.
  - intros H. apply andb_true_iff in H as [H He].
    apply andb_true_iff in H as [Hs Hm].
    apply Bool.eqb_prop in Hs. apply N.eqb_eq in Hm. apply Z.eqb_eq in He.
    now subst.
Qed.

Lemma strip_zeros_pos (fuel : nat) (s x : Z) :
  (0 < s)%Z -> (0 < fst (strip_zeros fuel s x))%Z.
Proof.
  revert s x; induction fuel as [|f IH]; intros s x Hs; simpl; [exact Hs |].
  destruct (Z.eqb_spec (s mod 10) 0) as [E | _]; [| exact Hs].
  destruct (Z.eqb_spec s 0) as [? | _]; [lia |]. simpl.
  apply IH.
  pose proof (Z.div_mod s 10 ltac:(lia)). lia.
Qed.

Lemma first_denoting_spec (target : number) (cs : list (Z * Z)) (c : Z * Z) :
  first_denoting target cs = Some c ->
  In c cs /\ decimal false (fst c) (snd c) = target.
Proof.
  induction cs as [|[s x] cs IH]; simpl; [discriminate |].
  destruct (number_same (decimal false s x) target) eqn:E.
  - intros [= <-]. split; [now left | now apply number_same_eq].
  - intros H. destruct (IH H) as [Hin Heq]. split; [now right | exact Heq].
Qed.

Lemma candidates_pos (full X : Z) (less : nat) (c : Z * Z) :
  (10 ^ Z.of_nat less <= full)%Z ->
  In c (candidates full X less) -> (0 < fst c)%Z.
Proof.
  intros Hfull. unfold candidates.
  set (cut := (10 ^ Z.of_nat less)%Z) in *.
  assert (Hcut : (0 < cut)%Z) by (apply Z.pow_pos_nonneg; lia).
  assert (Hlo : (0 < full / cut)%Z) by (apply Z.div_str_pos; lia).
  intros Hin.
  assert (Hc : c = strip_zeros (digits_count (full / cut)) (full / cut)
                     (X + Z.of_nat less)
               \/ c = strip_zeros (S (digits_count (full / cut)))
                        (full / cut + 1) (X + Z.of_nat less)).
  { destruct ((2 * (full mod cut) <? cut)
              || (2 * (full mod cut) =? cut) && Z.even (full / cut))%Z;
      simpl in Hin; intuition. }
  destruct Hc as [-> | ->]; apply strip_zeros_pos; lia.
Qed.

Lemma shortest_spec (target : number) (full X : Z) (less : nat) :
  decimal false full X = target ->
  (0 < full)%Z ->
  (10 ^ Z.of_nat less <= full)%Z ->
  decimal false (fst (shortest target full X less))
    (snd (shortest target full X less)) = target
  /\ (0 < fst (shortest target full X less))%Z.
Proof.
  intros Ht Hpos. induction less as [|d IH]; intros Hfull.
  - simpl. split; assumption.
  - cbn [shortest].
    destruct (first_denoting target (candidates full X (S d))) as [c|] eqn:E.
    + destruct (first_denoting_spec _ _ _ E) as [Hin Heq].
      split; [exact Heq | exact (candidates_pos _ _ _ _ Hfull Hin)].
    + apply IH. eapply Z.le_trans; [| exact Hfull].
      apply Z.pow_le_mono_r; lia.
Qed.

Lemma digits_val_head (c : ascii) (r : string) :
  is_digit c = true -> (c =? "0")%char = false -> all_digits r = true ->
  (10 ^ N.of_nat (String.length r) <= digits_val (String c r) 0)%N.
Proof.
  intros Hc H0 Hr. cbn [digits_val]. rewrite digits_val_acc.
  pose proof (digit_val_zero c Hc H0).
  assert (1 <= 10 ^ N.of_nat (String.length r))%N.
  { pose proof (N.pow_nonzero 10 (N.of_nat (String.length r))). lia. }
  nia.
Qed.

Lemma digits_count_bound (s : Z) :
  (0 < s)%Z -> (10 ^ Z.of_nat (digits_count s - 1) <= s)%Z.
Proof.
  intros Hs. unfold digits_count.
  assert (Hn : Z.to_N s <> 0%N) by lia.
  destruct (N_digits_head _ Hn) as (c & r & E & Hc).
  pose proof (N_digits_digits (Z.to_N s)) as Hd.
  pose proof (N_digits_val (Z.to_N s)) as Hv.
  rewrite E in *. cbn [all_digits] in Hd.
  apply andb_true_iff in Hd as [Hdc Hdr].
  pose proof (digits_val_head c r Hdc Hc Hdr) as H. rewrite Hv in H.
  cbn [String.length]. replace (S (String.length r) - 1) with (String.length r) by lia.
  apply N2Z.inj_le in H. rewrite N2Z.inj_pow in H.
  rewrite nat_N_Z in H. simpl Z.of_N in H at 1. lia.
Qed.

(** ** Numbers in JSON text *)

Lemma number_end_digit (rest : string) :
  number_end rest = true ->
  match rest with String c _ => is_digit c = false | "" => True end.
Proof.
  destruct rest as [|c r]; simpl; [trivial |].
  intros H. apply negb_true_iff in H.
  now repeat (apply orb_false_iff in H as [H _]).
Qed.

Lemma number_end_fraction (rest : string) :
  number_end rest = true -> parse_fraction rest = Some ("", rest).
Proof.
  unfold parse_fraction. destruct rest as [|c r]; simpl; [reflexivity |].
  intros H. apply negb_true_iff in H.
  repeat (apply orb_false_iff in H as [H ?]).
  now replace (c =? ".")%char with false.
Qed.

Lemma number_end_exponent (rest : string) :
  number_end rest = true -> parse_exponent rest = Some (0%Z, rest).
Proof.
  unfold parse_exponent. destruct rest as [|c r]; simpl; [reflexivity |].
  intros H. apply negb_true_iff in H.
  repeat (apply orb_false_iff in H as [H ?]).
  now replace (c =? "e")%char with false; replace (c =? "E")%char with false.
Qed.

(** A numeral in its parts: sign, integer part, what [parse_fraction] and
    [parse_exponent] make of the rest. *)
Lemma parse_number_parts (negative : bool) (ip tl fp tl' rest : string) (x : Z) :
  all_digits ip = true ->
  (exists c r, ip = String c r /\ is_digit c = true) ->
  starts_with "0" ip && negb (tail ip =? "") = false ->
  no_digit tl ->
  parse_fraction tl = Some (fp, tl') ->
  parse_exponent tl' = Some (x, rest) ->
  parse_number (sign_text negative ++ ip ++ tl)
  = Some (decimal negative (Z.of_N (digits_val fp (digits_val ip 0)))
            (x - Z.of_nat (String.length fp)), rest).
Proof.
  intros Hip (c & r & Eip & Hc) Hlead Htl Hfrac Hexp.
  assert (Hc' : (c =? "-")%char = false).
  { destruct (Ascii.eqb_spec c "-") as [-> |]; [discriminate | reflexivity]. }
  unfold parse_number.
  assert (Hs : (if starts_with "-" (sign_text negative ++ ip ++ tl)
                then tail (sign_text negative ++ ip ++ tl)
                else sign_text negative ++ ip ++ tl) = ip ++ tl
               /\ starts_with "-" (sign_text negative ++ ip ++ tl) = negative).
  { destruct negative; simpl; [split; reflexivity |].
    rewrite Eip. simpl. rewrite Hc'. split; reflexivity. }
  destruct Hs as [-> ->].
  rewrite lex_digits_app by assumption.
  rewrite Eip at 1. simpl String.eqb. cbv iota.
  now rewrite Hlead, Hfrac, Hexp.
Qed.

Lemma parse_fraction_digits (fp tl : string) :
  all_digits fp = true -> fp <> "" -> no_digit tl ->
  parse_fraction ("." ++ fp ++ tl) = Some (fp, tl).
Proof.
  intros Hfp Hne Htl. unfold parse_fraction. simpl.
  rewrite lex_digits_app by assumption.
  destruct fp; [contradiction | reflexivity].
Qed.

Lemma parse_fraction_none (tl : string) :
  starts_with "." tl = false -> parse_fraction tl = Some ("", tl).
Proof. unfold parse_fraction. now intros ->. Qed.

Lemma parse_exponent_text (e : Z) (rest : string) :
  no_digit rest -> parse_exponent (exponent_text e ++ rest) = Some (e, rest).
Proof.
  intros Hrest. unfold parse_exponent, exponent_text.
  destruct (N_digits_first (Z.abs_N e)) as (c & r & E & Hc).
  assert (Hne : (N_digits (Z.abs_N e) =? "") = false) by now rewrite E.
  destruct (Z.ltb_spec e 0) as [Hneg | Hpos]; simpl;
    rewrite lex_digits_app by (apply N_digits_digits || assumption);
    rewrite Hne, N_digits_val; f_equal; f_equal; lia.
Qed.

Lemma digits_val_of_zeros (s : string) (j : nat) :
  digits_val (s ++ zeros j) 0 = (digits_val s 0 * 10 ^ N.of_nat j)%N.
Proof.
  rewrite digits_val_app, digits_val_acc, length_zeros.
  replace (digits_val (zeros j) 0) with 0%N; [lia |].
  induction j; simpl; [reflexivity | assumption].
Qed.

Lemma take_all_digits_head (n : nat) (c : ascii) (r : string) :
  0 < n -> is_digit c = true ->
  exists c' r', take n (String c r) = String c' r' /\ is_digit c' = true.
Proof. destruct n; [lia |]. simpl. eauto. Qed.

Lemma decimal_shift (negative : bool) (s x : Z) :
  (0 <= x)%Z -> decimal negative (s * 10 ^ x) (0 - Z.of_nat 0) = decimal negative s x.
Proof.
  intros Hx. unfold decimal. simpl (0 <=? 0 - _)%Z. cbv iota.
  destruct (Z.leb_spec 0 x) as [_ | ?]; [| lia].
  simpl (0 - Z.of_nat 0)%Z. now rewrite Z.pow_0_r, Z.mul_1_r.
Qed.

(** The text that [Number::toString] makes of the digits [s] and the
    exponent [x] is a JSON numeral of [s * 10^x]. *)
Lemma parse_digits_string (negative : bool) (s x : Z) (rest : string) :
  (0 < s)%Z ->
  number_end rest = true ->
  parse_number (sign_text negative ++ digits_string s x ++ rest)
  = Some (decimal negative s x, rest).
Proof.
  intros Hs Hrest.
  assert (Hn : Z.to_N s <> 0%N) by lia.
  destruct (N_digits_head _ Hn) as (c & r & E & Hc0).
  pose proof (N_digits_digits (Z.to_N s)) as Hd.
  pose proof (N_digits_val (Z.to_N s)) as Hv.
  pose proof (number_end_digit rest Hrest) as Hnd.
  unfold digits_string.
  set (ds := N_digits (Z.to_N s)) in *.
  set (k := Z.of_nat (String.length ds)).
  set (n := (k + x)%Z).
  assert (Hnx : n = (k + x)%Z) by reflexivity.
  assert (Hkl : k = Z.of_nat (String.length ds)) by reflexivity.
  assert (Hk : (1 <= k)%Z) by (unfold k; rewrite E; simpl String.length; lia).
  assert (Hdc : is_digit c = true).
  { rewrite E in Hd. simpl in Hd. now apply andb_true_iff in Hd as [? _]. }
  assert (Hlead : starts_with "0" ds && negb (tail ds =? "") = false).
  { rewrite E. simpl. now rewrite Hc0. }
  destruct ((k <=? n) && (n <=? 21))%Z eqn:C1.
  - (* digits and zeros *)
    apply andb_true_iff in C1 as [C1 _]. apply Z.leb_le in C1.
    rewrite append_assoc.
    rewrite <- (append_assoc ds).
    rewrite (parse_number_parts negative (ds ++ zeros (Z.to_nat (n - k)))
               rest "" rest rest 0).
    + f_equal. f_equal. simpl digits_val at 1.
      rewrite digits_val_of_zeros, Hv.
      rewrite N2Z.inj_mul, N2Z.inj_pow, Z2N.id, nat_N_Z by lia.
      replace (Z.of_nat (Z.to_nat (n - k))) with x by lia.
      apply decimal_shift. lia.
    + now rewrite all_digits_app, Hd, all_digits_zeros.
    + rewrite E. simpl. eauto.
    + rewrite E. simpl. rewrite Hc0. reflexivity.
    + exact Hnd.
    + now apply number_end_fraction.
    + now apply number_end_exponent.
  - destruct ((0 <? n) && (n <=? 21))%Z eqn:C2.
    + (* a point inside the digits *)
      apply andb_true_iff in C2 as [C2 C2']. apply Z.ltb_lt in C2.
      assert (Hnk : (n < k)%Z).
      { apply andb_false_iff in C1 as [C1 | C1];
          [apply Z.leb_gt in C1; lia | rewrite C2' in C1; discriminate]. }
      assert (Hlen : Z.to_nat n < String.length ds) by (unfold k in Hnk; lia).
      rewrite !append_assoc.
      rewrite (parse_number_parts negative (take (Z.to_nat n) ds)
                 ("." ++ drop (Z.to_nat n) ds ++ rest)
                 (drop (Z.to_nat n) ds) rest rest 0).
      * f_equal. f_equal.
        rewrite <- digits_val_app, take_drop, Hv, length_drop.
        rewrite Z2N.id by lia. f_equal. unfold n, k in *. lia.
      * now apply all_digits_take.
      * rewrite E. apply take_all_digits_head; [lia | exact Hdc].
      * rewrite E. destruct (Z.to_nat n) as [|j] eqn:Ej; [lia |].
        simpl. now rewrite Hc0.
      * reflexivity.
      * apply parse_fraction_digits; [now apply all_digits_drop | | exact Hnd].
        intros Edrop. pose proof (length_drop (Z.to_nat n) ds) as L.
        rewrite Edrop in L. simpl in L. lia.
      * now apply number_end_exponent.
    + destruct ((-6 <? n) && (n <=? 0))%Z eqn:C3.
      * (* zeros after the point *)
        apply andb_true_iff in C3 as [_ C3]. apply Z.leb_le in C3.
        change ("0." ++ zeros (Z.to_nat (- n)) ++ ds)
          with ("0" ++ "." ++ zeros (Z.to_nat (- n)) ++ ds).
        rewrite !append_assoc.
        rewrite <- (append_assoc (zeros _) ds rest).
        rewrite (parse_number_parts negative "0"
                   ("." ++ (zeros (Z.to_nat (- n)) ++ ds) ++ rest)
                   (zeros (Z.to_nat (- n)) ++ ds) rest rest 0).
        -- f_equal. f_equal. simpl digits_val at 2.
           rewrite digits_val_zeros, Hv, length_append, length_zeros.
           rewrite Z2N.id by lia. f_equal. unfold n, k in *. lia.
        -- reflexivity.
        -- eexists _, _. split; reflexivity.
        -- reflexivity.
        -- reflexivity.
        -- apply parse_fraction_digits;
             [now rewrite all_digits_app, all_digits_zeros | | exact Hnd].
           rewrite E. destruct (zeros (Z.to_nat (- n))); discriminate.
        -- now apply number_end_exponent.
      * (* an exponent *)
        unfold exponent_form. rewrite E.
        destruct r as [|c2 r2]; cbv beta iota zeta;
          change ("e" ++ (if (n - 1 <? 0)%Z then "-" else "+")
                    ++ N_digits (Z.abs_N (n - 1)))
            with (exponent_text (n - 1)).
        -- etransitivity.
           { apply (parse_number_parts negative (String c "")
                      (exponent_text (n - 1) ++ rest) ""
                      (exponent_text (n - 1) ++ rest) rest (n - 1)).
             - simpl. now rewrite Hdc.
             - eauto.
             - simpl. now destruct (c =? "0")%char.
             - reflexivity.
             - now apply parse_fraction_none.
             - now apply parse_exponent_text. }
           f_equal. f_equal.
           change (digits_val "" (digits_val (String c "") 0))
             with (digits_val (String c "") 0).
           rewrite <- E, Hv, Z2N.id by lia. f_equal.
           rewrite E in Hkl. simpl String.length in *. lia.
        -- cbn [append]. rewrite (append_assoc r2). etransitivity.
           { apply (parse_number_parts negative (String c "")
                      ("." ++ String c2 r2 ++ exponent_text (n - 1) ++ rest)
                      (String c2 r2)
                      (exponent_text (n - 1) ++ rest) rest (n - 1)).
             - simpl. now rewrite Hdc.
             - eauto.
             - simpl. now destruct (c =? "0")%char.
             - reflexivity.
             - apply parse_fraction_digits; [| discriminate | reflexivity].
               rewrite E in Hd. simpl in Hd.
               now apply andb_true_iff in Hd as [_ ?].
             - now apply parse_exponent_text. }
           f_equal. f_equal.
           change (digits_val (String c2 r2) (digits_val (String c "") 0))
             with (digits_val (String c (String c2 r2)) 0).
           rewrite <- E, Hv, Z2N.id by lia. f_equal.
           rewrite E in Hkl. simpl String.length in *. lia.
Qed.

Lemma exact_decimal_pos (m : N) (e : Z) :
  m <> 0%N -> (0 < fst (exact_decimal m e))%Z.
Proof.
  intros Hm. unfold exact_decimal.
  destruct (0 <=? e)%Z eqn:E; cbn [fst];
    (apply Z.mul_pos_pos; [lia | apply Z.pow_pos_nonneg; lia]).
Qed.

(** The digits that [Number::toString] chooses denote the number. *)
Lemma shortest_canonical (m : N) (e : Z) :
  m <> 0%N ->
  exists s x,
    Number_toString m e = digits_string s x
    /\ (0 < s)%Z
    /\ forall negative, decimal negative s x = canonical negative m e.
Proof.
  intros Hm. unfold Number_toString.
  pose proof (exact_decimal_pos m e Hm) as Hpos.
  assert (Hc : forall negative,
             canonical negative m e
             = decimal negative (fst (exact_decimal m e))
                 (snd (exact_decimal m e))).
  { intros negative. unfold canonical. now destruct (exact_decimal m e). }
  destruct (exact_decimal m e) as [full X]. cbn [fst snd] in *.
  destruct (shortest_spec (canonical false m e) full X (digits_count full - 1))
    as [Hd Hs].
  - now rewrite Hc.
  - exact Hpos.
  - now apply digits_count_bound.
  - destruct (shortest (canonical false m e) full X (digits_count full - 1))
      as [s x].
    cbn [fst snd] in *. exists s, x.
    split; [reflexivity |]. split; [exact Hs |].
    intros negative.
    rewrite (decimal_sign negative s x), Hd, Hc, Hc.
    symmetry. apply decimal_sign.
Qed.

Lemma parse_number_json (negative : bool) (m : N) (e : Z) (rest : string) :
  number_end rest = true ->
  parse_number (number_json (Finite negative m e) ++ rest)
  = Some (carried negative m e, rest).
Proof.
  intros Hrest. unfold number_json, carried.
  destruct (N.eqb_spec m 0) as [-> | Hm].
  - change ("0" ++ rest) with (sign_text false ++ "0" ++ rest).
    rewrite (parse_number_parts false "0" rest "" rest rest 0);
      try reflexivity.
    + eexists _, _. split; reflexivity.
    + now apply number_end_digit.
    + now apply number_end_fraction.
    + now apply number_end_exponent.
  - destruct (shortest_canonical m e Hm) as (s & x & -> & Hs & Hd).
    fold (sign_text negative). rewrite append_assoc.
    rewrite (parse_digits_string negative s x rest Hs Hrest).
    now rewrite Hd.
Qed.

Lemma digits_string_first (s x : Z) :
  exists c r, digits_string s x = String c r /\ is_digit c = true.
Proof.
  unfold digits_string.
  destruct (N_digits_first (Z.to_N s)) as (c & r & E & Hc).
  rewrite E.
  set (k := Z.of_nat (String.length (String c r))).
  destruct ((k <=? k + x) && (k + x <=? 21))%Z;
    [simpl; eauto |].
  destruct ((0 <? k + x) && (k + x <=? 21))%Z eqn:C2.
  - apply andb_true_iff in C2 as [C2 _]. apply Z.ltb_lt in C2.
    destruct (Z.to_nat (k + x)) as [|j] eqn:Ej; [lia |]. simpl. eauto.
  - destruct ((-6 <? k + x) && (k + x <=? 0))%Z;
      [eexists _, _; split; reflexivity |].
    unfold exponent_form. destruct r; eauto.
Qed.

(** A numeral starts with a minus sign or a digit. *)
Lemma number_json_first (negative : bool) (m : N) (e : Z) :
  exists c r, number_json (Finite negative m e) = String c r
              /\ (is_digit c || (c =? "-")%char) = true.
Proof.
  unfold number_json.
  destruct (m =? 0)%N; [eexists _, _; split; reflexivity |].
  destruct negative; [eexists _, _; split; reflexivity |].
  unfold Number_toString.
  destruct (exact_decimal m e) as [full X].
  destruct (shortest _ full X _) as [s x].
  destruct (digits_string_first s x) as (c & r & -> & Hc).
  exists c, r. split; [reflexivity |]. now rewrite Hc.
Qed.

(** What [parse_number] returns is a binary64 number. *)
Lemma decimal_binary64 (negative : bool) (s x : Z) :
  (0 <= s)%Z ->
  match decimal negative s x with
  | NaN => False
  | Infinity _ => True
  | Finite _ m e => binary64 m e = true
  end.
Proof.
  intros Hs. unfold decimal.
  destruct (Z.leb_spec 0 x) as [Hx | Hx].
  - pose proof (nearest_binary64 negative (s * 10 ^ x) 1) as H.
    destruct (nearest negative (s * 10 ^ x) 1); try apply H; try lia;
      (apply Z.mul_nonneg_nonneg; [lia | apply Z.pow_nonneg; lia]).
  - pose proof (nearest_binary64 negative s (10 ^ (- x))) as H.
    destruct (nearest negative s (10 ^ (- x))); try apply H; try lia;
      apply Z.pow_pos_nonneg; lia.
Qed.

(** ** Strings in JSON text *)

(** Each character is read back from its escaped form. *)
Lemma escape_char_chars (c : ascii) (t : string) :
  exists x,
    string_chars (escape_char c ++ t) = cons_chars x (string_chars t)
    /\ forall ts, decode (x :: ts) = String c (decode ts).
Proof.
  destruct c as [[] [] [] [] [] [] [] []];
    (eexists; split;
     [reflexivity | intros ts; destruct ts as [|[|] ?]; reflexivity]).
Qed.

Lemma escape_chars (s rest : string) :
  exists ts,
    string_chars (escape s ++ String dquote rest) = Some (ts, rest)
    /\ decode ts = s.
Proof.
  induction s as [|c s (ts & IH & Hts)]; simpl.
  - exists []. split; reflexivity.
  - rewrite append_assoc.
    destruct (escape_char_chars c (escape s ++ String dquote rest))
      as (x & -> & Hx).
    rewrite IH. simpl. exists (x :: ts). split; [reflexivity |].
    now rewrite Hx, Hts.
Qed.

(** A quoted string is read back as the string. *)
Lemma parse_string_quote (s rest : string) :
  parse_string (tail (quote s ++ rest)) = Some (s, rest).
Proof.
  unfold quote, parse_string. simpl. rewrite append_assoc. simpl.
  destruct (escape_chars s rest) as (ts & -> & ->). reflexivity.
Qed.

(** ** Values in JSON text *)

(** Induction on values, with the hypothesis on the elements of an array
    and on the properties of an object. *)
Lemma value_nested_ind (P : value -> Prop) :
  P VNull ->
  (forall b, P (VBool b)) ->
  (forall n, P (VNum n)) ->
  (forall s, P (VStr s)) ->
  (forall elems own, Forall P elems -> P (VArr elems own)) ->
  (forall props, Forall (fun kv => P (snd kv)) props -> P (VObj props)) ->
  forall v, P v.
Proof.
  intros HNull HBool HNum HStr HArr HObj.
  fix IH 1. intros [| b | n | s | elems own | props].
  - exact HNull.
  - apply HBool.
  - apply HNum.
  - apply HStr.
  - apply HArr. induction elems as [|x elems IHl]; constructor.
    + apply IH.
    + exact IHl.
  - apply HObj. induction props as [|[k x] props IHl]; constructor.
    + apply IH.
    + exact IHl.
Qed.

Lemma skip_ws_pad (gap indent : nat) (s : string) :
  skip_ws (pad gap indent ++ s) = skip_ws s.
Proof.
  unfold pad. destruct (gap =? 0)%nat; simpl; [reflexivity |].
  apply skip_ws_spaces.
Qed.

Lemma number_end_pad (gap indent : nat) (c : ascii) (s : string) :
  number_end (String c s) = true ->
  number_end (pad gap indent ++ String c s) = true.
Proof. unfold pad. now destruct (gap =? 0)%nat. Qed.

(** The text of a non-empty array or object. *)
Lemma wrap_pad (opening closing : string) (gap indent : nat)
  (parts : list string) :
  parts <> [] ->
  wrap opening closing (String newline "") (spaces gap) (spaces indent) parts
  = opening ++ pad gap (indent + gap)
      ++ join ("," ++ pad gap (indent + gap)) parts
      ++ pad gap indent ++ closing.
Proof.
  intros Hne. unfold wrap, pad.
  destruct parts as [|p parts]; [contradiction |].
  rewrite spaces_empty, spaces_app.
  destruct (gap =? 0)%nat; reflexivity.
Qed.

Lemma wrap_first (opening closing nl gap indent : string)
  (parts : list string) (c : ascii) (r : string) :
  opening = String c r ->
  exists r', wrap opening closing nl gap indent parts = String c r'.
Proof.
  intros ->. unfold wrap.
  destruct parts; [| destruct (gap =? "")]; simpl; eauto.
Qed.

Lemma serialize_first (gap indent : string) (v : value) :
  exists c r, serialize gap indent v = String c r /\ value_start c = true.
Proof.
  destruct v as [| [|] | [| negative | negative m e] | s | elems own | props];
    cbn [serialize]; try (eexists _, _; split; reflexivity).
  - destruct (number_json_first negative m e) as (c & r & -> & Hc).
    exists c, r. split; [reflexivity |].
    revert Hc. clear.
    destruct c as [[] [] [] [] [] [] [] []]; intros H;
      try discriminate H; reflexivity.
  - edestruct wrap_first as (r' & ->); [reflexivity |].
    eexists _, _; split; reflexivity.
  - edestruct wrap_first as (r' & ->); [reflexivity |].
    eexists _, _; split; reflexivity.
Qed.

Lemma join_first (sep : string) (parts : list string) (p : string)
  (c : ascii) (r : string) :
  p = String c r -> exists r', join sep (p :: parts) = String c r'.
Proof. intros ->. destruct parts; simpl; eauto. Qed.

Lemma value_start_skip (c : ascii) (r : string) :
  value_start c = true -> skip_ws (String c r) = String c r.
Proof.
  unfold value_start. intros H.
  apply andb_true_iff in H as [H _].
  apply andb_true_iff in H as [H _].
  apply negb_true_iff in H. simpl. now rewrite H.
Qed.

(** The parsers look at their text after its leading white space. *)
Lemma parse_value_ws (fuel : nat) (s s' : string) :
  skip_ws s = skip_ws s' -> parse_value fuel s = parse_value fuel s'.
Proof. intros H. destruct fuel; simpl; [reflexivity | now rewrite H]. Qed.

Lemma parse_elements_ws (fuel : nat) (s s' : string) (acc : list value) :
  skip_ws s = skip_ws s' ->
  parse_elements fuel s acc = parse_elements fuel s' acc.
Proof.
  intros H. destruct fuel; simpl; [reflexivity |].
  now rewrite (parse_value_ws fuel s s' H).
Qed.

Lemma parse_members_ws (fuel : nat) (s s' : string)
  (acc : list (string * value)) :
  skip_ws s = skip_ws s' ->
  parse_members fuel s acc = parse_members fuel s' acc.
Proof. intros H. destruct fuel; simpl; [reflexivity | now rewrite H]. Qed.

Lemma parse_elements_S (f : nat) (s : string) (acc : list value) :
  parse_elements (S f) s acc
  = match parse_value f s with
    | None => None
    | Some (v, rest) =>
        let s1 := skip_ws rest in
        if starts_with "," s1 then parse_elements f (tail s1) (acc ++ [v])
        else if starts_with "]" s1 then Some (VArr (acc ++ [v]) [], tail s1)
        else None
    end.
Proof. reflexivity. Qed.

Lemma parse_members_S (f : nat) (s : string) (acc : list (string * value)) :
  parse_members (S f) s acc
  = let s0 := skip_ws s in
    if starts_with dquote s0 then
      match parse_string (tail s0) with
      | None => None
      | Some (key, rest) =>
          let s1 := skip_ws rest in
          if starts_with ":" s1 then
            match parse_value f (tail s1) with
            | None => None
            | Some (v, rest') =>
                let s2 := skip_ws rest' in
                if starts_with "," s2
                then parse_members f (tail s2) (define key v acc)
                else if starts_with "}" s2
                then Some (VObj (define key v acc), tail s2)
                else None
            end
          else None
      end
    else None.
Proof. reflexivity. Qed.

Lemma join_cons (sep p q : string) (ps : list string) :
  join sep (p :: q :: ps) = p ++ sep ++ join sep (q :: ps).
Proof. reflexivity. Qed.

Lemma parse_elements_more (f : nat) (s t : string) (acc : list value)
  (v : value) :
  parse_value f s = Some (v, String "," t) ->
  parse_elements (S f) s acc = parse_elements f t (acc ++ [v]).
Proof. intros H. rewrite parse_elements_S, H. reflexivity. Qed.

Lemma parse_elements_last (f : nat) (s r t : string) (acc : list value)
  (v : value) :
  parse_value f s = Some (v, r) ->
  skip_ws r = String "]" t ->
  parse_elements (S f) s acc = Some (VArr (acc ++ [v]) [], t).
Proof. intros H Hr. rewrite parse_elements_S, H. cbv zeta. rewrite Hr. reflexivity. Qed.

(** The elements of an array of the text are read back one after the
    other. *)
Lemma parse_elements_join (gap indent outer : nat) (elems : list value) :
  Forall reads_back elems ->
  elems <> [] ->
  forall acc fuel rest,
    elems_size elems <= fuel ->
    parse_elements fuel
      (join ("," ++ pad gap indent)
         (map (serialize (spaces gap) (spaces indent)) elems)
       ++ pad gap outer ++ String "]" rest) acc
    = Some (VArr (acc ++ map plain elems) [], rest).
Proof.
  intros Hall. induction Hall as [|x elems Hx Hall IH]; [contradiction |].
  intros _ acc fuel rest Hfuel.
  cbn [elems_size fold_right] in Hfuel. fold (elems_size elems) in Hfuel.
  destruct fuel as [|f]; [lia |].
  destruct elems as [|y elems'].
  - cbn [map join].
    erewrite parse_elements_last; [reflexivity | |].
    + apply (Hx gap indent f); [lia | now apply number_end_pad].
    + now rewrite skip_ws_pad.
  - cbn [map]. rewrite join_cons, !append_assoc.
    erewrite parse_elements_more;
      [| apply (Hx gap indent f); [lia | reflexivity]].
    rewrite (parse_elements_ws f _ _ _ (skip_ws_pad gap indent _)).
    cbn [map] in IH. rewrite IH; [| discriminate | lia].
    now rewrite <- app_assoc.
Qed.

Lemma parse_members_more (f : nat) (s r r1 r2 t key : string)
  (acc : list (string * value)) (v : value) :
  skip_ws s = String dquote r ->
  parse_string r = Some (key, r1) ->
  skip_ws r1 = String ":" r2 ->
  parse_value f r2 = Some (v, String "," t) ->
  parse_members (S f) s acc = parse_members f t (define key v acc).
Proof.
  intros Hs Hk Hc Hv. rewrite parse_members_S. cbv zeta.
  rewrite Hs. cbn [starts_with tail]. rewrite Ascii.eqb_refl, Hk, Hc.
  cbn [starts_with tail]. rewrite Ascii.eqb_refl, Hv. reflexivity.
Qed.

Lemma parse_members_last (f : nat) (s r r1 r2 r3 t key : string)
  (acc : list (string * value)) (v : value) :
  skip_ws s = String dquote r ->
  parse_string r = Some (key, r1) ->
  skip_ws r1 = String ":" r2 ->
  parse_value f r2 = Some (v, r3) ->
  skip_ws r3 = String "}" t ->
  parse_members (S f) s acc = Some (VObj (define key v acc), t).
Proof.
  intros Hs Hk Hc Hv Hr. rewrite parse_members_S. cbv zeta.
  rewrite Hs. cbn [starts_with tail]. rewrite Ascii.eqb_refl, Hk, Hc.
  cbn [starts_with tail]. rewrite Ascii.eqb_refl, Hv, Hr. reflexivity.
Qed.

Lemma skip_ws_colon (gap : string) (s : string) :
  exists r2,
    skip_ws ((if gap =? "" then ":" else ": ") ++ s) = String ":" r2
    /\ skip_ws r2 = skip_ws s.
Proof. destruct (gap =? ""); eexists; split; reflexivity. Qed.

(** The members of an object of the text are read back one after the
    other, each defined on the object built so far. *)
Lemma parse_members_join (gap indent outer : nat)
  (props : list (string * value)) :
  Forall (fun kv => reads_back (snd kv)) props ->
  props <> [] ->
  forall acc fuel rest,
    props_size props <= fuel ->
    parse_members fuel
      (join ("," ++ pad gap indent)
         (map (member (spaces gap) (spaces indent)) props)
       ++ pad gap outer ++ String "}" rest) acc
    = Some
        (VObj (define_all (map (fun kv => (fst kv, plain (snd kv))) props) acc),
         rest).
Proof.
  intros Hall. induction Hall as [|[k x] props Hx Hall IH]; [contradiction |].
  intros _ acc fuel rest Hfuel.
  cbn [props_size fold_right snd] in Hfuel. fold (props_size props) in Hfuel.
  cbn [snd] in Hx.
  destruct fuel as [|f]; [lia |].
  destruct props as [|y props'].
  - cbn [map join]. unfold member at 1. cbn [fst snd].
    rewrite !append_assoc.
    edestruct (skip_ws_colon (spaces gap)) as (r2 & Hc & Hr2).
    erewrite parse_members_last; [reflexivity | reflexivity | | | |].
    + apply parse_string_quote.
    + exact Hc.
    + erewrite parse_value_ws; [| exact Hr2].
      apply (Hx gap indent f); [lia | now apply number_end_pad].
    + now rewrite skip_ws_pad.
  - cbn [map]. rewrite join_cons. unfold member at 1. cbn [fst snd].
    rewrite !append_assoc.
    edestruct (skip_ws_colon (spaces gap)) as (r2 & Hc & Hr2).
    erewrite parse_members_more; [| reflexivity | | |].
    2: apply parse_string_quote.
    2: exact Hc.
    2: { erewrite parse_value_ws; [| exact Hr2].
         apply (Hx gap indent f); [lia | reflexivity]. }
    rewrite (parse_members_ws f _ _ _ (skip_ws_pad gap indent _)).
    cbn [map] in IH. rewrite IH; [| discriminate | lia].
    reflexivity.
Qed.

Lemma parse_value_S (f : nat) (s : string) :
  parse_value (S f) s
  = let s0 := skip_ws s in
    if starts_with "{" s0 then
      let s1 := skip_ws (tail s0) in
      if starts_with "}" s1 then Some (VObj [], tail s1)
      else parse_members f s1 []
    else if starts_with "[" s0 then
      let s1 := skip_ws (tail s0) in
      if starts_with "]" s1 then Some (VArr [] [], tail s1)
      else parse_elements f s1 []
    else if starts_with dquote s0 then
      match parse_string (tail s0) with
      | Some (str, rest) => Some (VStr str, rest)
      | None => None
      end
    else
      match strip_prefix "null" s0 with
      | Some rest => Some (VNull, rest)
      | None =>
      match strip_prefix "true" s0 with
      | Some rest => Some (VBool true, rest)
      | None =>
      match strip_prefix "false" s0 with
      | Some rest => Some (VBool false, rest)
      | None =>
      match parse_number s0 with
      | Some (n, rest) => Some (VNum n, rest)
      | None => None
      end end end end.
Proof. reflexivity. Qed.

(** A text that starts as a number is parsed as a number. *)
Lemma parse_value_number (f : nat) (c : ascii) (r : string) :
  (is_digit c || (c =? "-")%char) = true ->
  parse_value (S f) (String c r)
  = match parse_number (String c r) with
    | Some (n, rest) => Some (VNum n, rest)
    | None => None
    end.
Proof.
  intros H. rewrite parse_value_S.
  destruct c as [[] [] [] [] [] [] [] []]; try discriminate H; reflexivity.
Qed.

Lemma skip_ws_idem (s : string) : skip_ws (skip_ws s) = skip_ws s.
Proof.
  induction s as [|c s IH]; simpl; [reflexivity |].
  destruct (is_ws c) eqn:E; [exact IH |]. simpl. now rewrite E.
Qed.

(** The text after an opening bracket or brace, when a value or a key
    follows: the closing character is not next. *)
Lemma skip_ws_open (gap indent : nat) (closing c : ascii) (r t : string) :
  value_start c = true ->
  (c =? closing)%char = false ->
  skip_ws (pad gap indent ++ String c r ++ t) = String c (r ++ t)
  /\ starts_with closing (String c (r ++ t)) = false.
Proof.
  intros Hc Hcl. rewrite skip_ws_pad. cbn [append].
  rewrite (value_start_skip c _ Hc). split; [reflexivity | exact Hcl].
Qed.

Lemma value_start_closing (c : ascii) :
  value_start c = true ->
  (c =? "]")%char = false /\ (c =? "}")%char = false.
Proof.
  unfold value_start. intros H.
  apply andb_true_iff in H as [H H2].
  apply andb_true_iff in H as [_ H1].
  now apply negb_true_iff in H1, H2.
Qed.

(** [JSON.parse] reads the text of [JSON.stringify] back. *)
Lemma serialize_reads_back (v : value) : reads_back v.
Proof.
  induction v as [| b | n | s | elems own IH | props IH]
    using value_nested_ind;
    intros gap indent fuel rest Hfuel Hrest;
    (destruct fuel as [|f]; [simpl in Hfuel; lia |]).
  - reflexivity.
  - destruct b; reflexivity.
  - destruct n as [| negative | negative m e]; [reflexivity | reflexivity |].
    cbn [serialize plain].
    destruct (number_json_first negative m e) as (c & r & E & Hc).
    pose proof (parse_number_json negative m e rest Hrest) as Hp.
    rewrite E in *. cbn [append] in *.
    now rewrite (parse_value_number f c _ Hc), Hp.
  - cbn [serialize]. rewrite parse_value_S.
    change (skip_ws (quote s ++ rest)) with (quote s ++ rest).
    cbv zeta.
    change (starts_with "{" (quote s ++ rest)) with false.
    change (starts_with "[" (quote s ++ rest)) with false.
    change (starts_with dquote (quote s ++ rest)) with true.
    cbv iota. now rewrite parse_string_quote.
  - cbn [serialize plain].
    destruct elems as [|x elems']; [reflexivity |].
    rewrite spaces_app.
    rewrite wrap_pad by discriminate.
    rewrite !append_assoc, parse_value_S.
    cbn [map].
    destruct (serialize_first (spaces gap) (spaces (indent + gap)) x)
      as (c & r & E & Hc).
    destruct (join_first ("," ++ pad gap (indent + gap))
                (map (serialize (spaces gap) (spaces (indent + gap))) elems')
                _ c r E) as (r' & Ej).
    destruct (value_start_closing c Hc) as [Hc1 _].
    destruct (skip_ws_open gap (indent + gap) "]" c r'
                (pad gap indent ++ "]" ++ rest) Hc Hc1) as [Hskip Hclose].
    rewrite <- Ej in Hskip at 1.
    change (skip_ws ("[" ++ ?t)) with ("[" ++ t).
    cbv zeta.
    change (starts_with "{" ("[" ++ ?t)) with false.
    change (starts_with "[" ("[" ++ ?t)) with true.
    cbv iota.
    change (tail ("[" ++ ?t)) with t.
    rewrite Hskip, Hclose.
    rewrite <- (value_start_skip c (r' ++ pad gap indent ++ "]" ++ rest) Hc).
    erewrite parse_elements_ws; [| apply skip_ws_idem].
    change (String c (r' ++ ?t)) with (String c r' ++ t).
    rewrite <- Ej.
    change ("]" ++ rest) with (String "]" rest).
    rewrite (parse_elements_join gap (indent + gap) indent (x :: elems'));
      [reflexivity | exact IH | discriminate |].
    simpl in Hfuel. unfold elems_size. simpl. lia.
  - cbn [serialize plain].
    destruct props as [|[k x] props']; [reflexivity |].
    rewrite spaces_app.
    rewrite wrap_pad by discriminate.
    rewrite !append_assoc, parse_value_S.
    fold (member (spaces gap) (spaces (indent + gap))).
    cbn [map].
    destruct (join_first ("," ++ pad gap (indent + gap))
                (map (member (spaces gap) (spaces (indent + gap))) props')
                (member (spaces gap) (spaces (indent + gap)) (k, x))
                dquote _ eq_refl) as (r' & Ej).
    destruct (skip_ws_open gap (indent + gap) "}" dquote r'
                (pad gap indent ++ "}" ++ rest) eq_refl eq_refl)
      as [Hskip Hclose].
    rewrite <- Ej in Hskip at 1.
    change (skip_ws ("{" ++ ?t)) with ("{" ++ t).
    cbv zeta.
    change (starts_with "{" ("{" ++ ?t)) with true.
    cbv iota.
    change (tail ("{" ++ ?t)) with t.
    rewrite Hskip, Hclose.
    rewrite <- (value_start_skip dquote (r' ++ pad gap indent ++ "}" ++ rest) eq_refl).
    erewrite parse_members_ws; [| apply skip_ws_idem].
    change (String dquote (r' ++ ?t)) with (String dquote r' ++ t).
    rewrite <- Ej.
    change ("}" ++ rest) with (String "}" rest).
    rewrite (parse_members_join gap (indent + gap) indent ((k, x) :: props'));
      [reflexivity | exact IH | discriminate |].
    simpl in Hfuel. unfold props_size. simpl. lia.
Qed.

(** ** Fuel: the text of a value is at least as long as the value is big *)

Lemma length_join_elems (sep : string) (f : value -> string)
  (elems : list value) :
  Forall (fun x => size x <= String.length (f x)) elems ->
  1 <= String.length sep ->
  elems_size elems <= S (String.length (join sep (map f elems))).
Proof.
  intros Hall Hsep. induction Hall as [|x elems Hx Hall IH]; simpl; [lia |].
  fold (elems_size elems).
  destruct elems as [|y elems'].
  - simpl. lia.
  - cbn [map] in *. rewrite !length_append. lia.
Qed.

Lemma length_join_props (sep : string) (f : string * value -> string)
  (props : list (string * value)) :
  Forall (fun kv => size (snd kv) <= String.length (f kv)) props ->
  1 <= String.length sep ->
  props_size props <= S (String.length (join sep (map f props))).
Proof.
  intros Hall Hsep. induction Hall as [|x props Hx Hall IH]; simpl; [lia |].
  fold (props_size props).
  destruct props as [|y props'].
  - simpl. lia.
  - cbn [map] in *. rewrite !length_append. lia.
Qed.

Lemma size_le_length (v : value) :
  forall gap indent,
    size v <= String.length (serialize (spaces gap) (spaces indent) v).
Proof.
  induction v as [| b | n | s | elems own IH | props IH]
    using value_nested_ind; intros gap indent.
  - simpl. lia.
  - destruct b; simpl; lia.
  - destruct n as [| negative | negative m e]; [simpl; lia | simpl; lia |].
    cbn [serialize size].
    destruct (number_json_first negative m e) as (c & r & -> & _). simpl. lia.
  - simpl. lia.
  - cbn [serialize size]. fold (elems_size elems).
    destruct elems as [|x elems']; [simpl; lia |].
    rewrite spaces_app, wrap_pad by discriminate.
    rewrite !length_append.
    pose proof (length_join_elems ("," ++ pad gap (indent + gap))
                  (serialize (spaces gap) (spaces (indent + gap))) (x :: elems'))
      as H.
    simpl String.length at 1.
    assert (Hc : 1 <= String.length "]") by (simpl; lia).
    revert Hc. generalize (String.length "]"). intros n Hn.
    enough (elems_size (x :: elems')
            <= S (String.length
                    (join ("," ++ pad gap (indent + gap))
                       (map (serialize (spaces gap) (spaces (indent + gap)))
                          (x :: elems'))))) by lia.
    apply H.
    + eapply Forall_impl; [| exact IH]. intros a Ha. apply Ha.
    + simpl. lia.
  - cbn [serialize size]. fold (props_size props).
    destruct props as [|x props']; [simpl; lia |].
    rewrite spaces_app, wrap_pad by discriminate.
    rewrite !length_append.
    fold (member (spaces gap) (spaces (indent + gap))).
    pose proof (length_join_props ("," ++ pad gap (indent + gap))
                  (member (spaces gap) (spaces (indent + gap))) (x :: props'))
      as H.
    simpl String.length at 1.
    assert (Hc : 1 <= String.length "}") by (simpl; lia).
    revert Hc. generalize (String.length "}"). intros n Hn.
    enough (props_size (x :: props')
            <= S (String.length
                    (join ("," ++ pad gap (indent + gap))
                       (map (member (spaces gap) (spaces (indent + gap)))
                          (x :: props'))))) by lia.
    apply H.
    + eapply Forall_impl; [| exact IH]. intros a Ha. cbv beta in Ha.
      unfold member. rewrite !length_append.
      specialize (Ha gap (indent + gap)). lia.
    + simpl. lia.
Qed.

(** [JSON.parse(JSON.stringify(v, null, space))] is [v] as JSON holds it. *)
Lemma JSON_parse_stringify (v : value) (space : nat) :
  JSON_parse (JSON_stringify v space) = Ok (plain v).
Proof.
  unfold JSON_parse, JSON_stringify.
  set (gap := Nat.min 10 space).
  pose proof (serialize_reads_back v gap 0
                (S (String.length (serialize (spaces gap) "" v))) "") as H.
  rewrite append_nil_r in H. simpl spaces in H.
  rewrite H; [reflexivity | | reflexivity].
  pose proof (size_le_length v gap 0). simpl spaces in *. lia.
Qed.

(** ** Fuel: the parser never lacks it *)

Lemma length_skip_ws (s : string) :
  String.length (skip_ws s) <= String.length s.
Proof.
  induction s as [|c s IH]; simpl; [lia |].
  destruct (is_ws c); simpl; lia.
Qed.

Lemma length_tail (c : ascii) (s : string) :
  starts_with c s = true -> S (String.length (tail s)) = String.length s.
Proof. destruct s; simpl; [discriminate | reflexivity]. Qed.

Lemma length_tail_le (s : string) :
  String.length (tail s) <= String.length s.
Proof. destruct s; simpl; lia. Qed.

Lemma lex_digits_length (s ds rest : string) :
  lex_digits s = (ds, rest) ->
  String.length s = String.length ds + String.length rest.
Proof.
  revert ds; induction s as [|c s IH]; simpl; intros ds.
  - intros [= <- <-]. reflexivity.
  - destruct (is_digit c).
    + destruct (lex_digits s) as [ds' rest'].
      intros [= <- <-]. simpl. now rewrite (IH ds' eq_refl).
    + intros [= <- <-]. reflexivity.
Qed.

Lemma strip_prefix_length (p s rest : string) :
  strip_prefix p s = Some rest ->
  String.length s = String.length p + String.length rest.
Proof.
  revert s; induction p as [|a p IH]; simpl; intros s.
  - now intros [= ->].
  - destruct s as [|b s]; [discriminate |].
    destruct (a =? b)%char; [| discriminate].
    intros H. simpl. now rewrite (IH s H).
Qed.

Lemma cons_chars_some (t : strchar) (r : option (list strchar * string))
  (ts : list strchar) (rest : string) :
  cons_chars t r = Some (ts, rest) -> exists ts', r = Some (ts', rest).
Proof. destruct r as [[ts' rest']|]; simpl; [| discriminate]. intros [= _ <-]. eauto. Qed.

(** A string literal ends with its closing quote. *)
Lemma string_chars_length (s : string) :
  forall ts rest,
    string_chars s = Some (ts, rest) -> String.length rest < String.length s.
Proof.
  assert (H : forall n s, String.length s <= n ->
                          forall ts rest, string_chars s = Some (ts, rest) ->
                                          String.length rest < String.length s).
  { induction n as [|n IH]; intros s0 Hn ts rest.
    - destruct s0; [discriminate | simpl in Hn; lia].
    - destruct s0 as [|c r]; [discriminate |].
      simpl in Hn. cbn [string_chars].
      destruct (c =? dquote)%char; [intros [= _ <-]; simpl; lia |].
      destruct (c =? "\")%char.
      + destruct r as [|e r1]; [discriminate |].
        destruct (e =? "u")%char.
        * destruct r1 as [|h1 [|h2 [|h3 [|h4 r2]]]]; try discriminate.
          destruct (hex4 h1 h2 h3 h4); [| discriminate].
          intros E. apply cons_chars_some in E as (ts' & E).
          apply IH in E; simpl in *; lia.
        * destruct (simple_escape e); [| discriminate].
          intros E. apply cons_chars_some in E as (ts' & E).
          apply IH in E; simpl in *; lia.
      + destruct (code c <? 32)%N; [discriminate |].
        intros E. apply cons_chars_some in E as (ts' & E).
        apply IH in E; simpl in *; lia. }
  intros ts rest. now apply (H (String.length s)).
Qed.

Lemma parse_string_length (s str rest : string) :
  parse_string s = Some (str, rest) -> String.length rest < String.length s.
Proof.
  unfold parse_string.
  destruct (string_chars s) as [[ts r]|] eqn:E; [| discriminate].
  intros [= _ <-]. now apply (string_chars_length s ts).
Qed.

Lemma parse_fraction_length (s fp rest : string) :
  parse_fraction s = Some (fp, rest) -> String.length rest <= String.length s.
Proof.
  unfold parse_fraction. destruct (starts_with "." s).
  - destruct (lex_digits (tail s)) as [ds r] eqn:E.
    destruct (ds =? ""); [discriminate |]. intros [= _ <-].
    apply lex_digits_length in E. pose proof (length_tail_le s). lia.
  - intros [= _ <-]. lia.
Qed.

Lemma parse_exponent_length (s rest : string) (x : Z) :
  parse_exponent s = Some (x, rest) -> String.length rest <= String.length s.
Proof.
  unfold parse_exponent.
  destruct (starts_with "e" s || starts_with "E" s).
  - match goal with
    | |- context [lex_digits ?t] =>
        destruct (lex_digits t) as [ds r] eqn:E;
        assert (Ht : String.length t <= String.length s)
    end.
    { destruct (starts_with "-" (tail s) || starts_with "+" (tail s));
        pose proof (length_tail_le s); pose proof (length_tail_le (tail s));
        lia. }
    destruct (ds =? ""); [discriminate |]. intros [= _ <-].
    apply lex_digits_length in E. lia.
  - intros [= _ <-]. lia.
Qed.

(** A number takes at least one character. *)
Lemma parse_number_length (s rest : string) (n : number) :
  parse_number s = Some (n, rest) -> String.length rest < String.length s.
Proof.
  unfold parse_number.
  destruct (lex_digits (if starts_with "-" s then tail s else s))
    as [ip s2] eqn:E.
  destruct (ip =? "") eqn:Hip; [discriminate |].
  destruct (starts_with "0" ip && negb (tail ip =? "")); [discriminate |].
  destruct (parse_fraction s2) as [[fp s3]|] eqn:Ef; [| discriminate].
  destruct (parse_exponent s3) as [[x r]|] eqn:Ex; [| discriminate].
  apply lex_digits_length in E.
  apply parse_fraction_length in Ef. apply parse_exponent_length in Ex.
  assert (Hlen : String.length rest = String.length r ->
                 String.length rest < String.length s).
  { intros ->. destruct ip; [discriminate |]. simpl in E.
    destruct (starts_with "-" s); [pose proof (length_tail_le s) |]; lia. }
  intros [= _ <-]. now apply Hlen.
Qed.

(** A parse that succeeds took no more fuel than it read characters: any
    greater fuel gives the same result. *)
Lemma parse_fuel (f : nat) :
  (forall s v rest,
      parse_value f s = Some (v, rest) ->
      exists need,
        need + String.length rest <= String.length s
        /\ forall f', need <= f' -> parse_value f' s = Some (v, rest))
  /\ (forall s acc v rest,
         parse_elements f s acc = Some (v, rest) ->
         exists need,
           need + String.length rest <= String.length s
           /\ forall f', need <= f' -> parse_elements f' s acc = Some (v, rest))
  /\ (forall s acc v rest,
         parse_members f s acc = Some (v, rest) ->
         exists need,
           need + String.length rest <= String.length s
           /\ forall f', need <= f' -> parse_members f' s acc = Some (v, rest)).
Proof.
  induction f as [|f (IHv & IHe & IHm)];
    [repeat split; intros; discriminate |].
  repeat split.
  - intros s v rest. rewrite parse_value_S. cbv zeta.
    pose proof (length_skip_ws s) as Hs0.
    pose proof (length_skip_ws (tail (skip_ws s))) as Hs1.
    destruct (starts_with "{" (skip_ws s)) eqn:Eobj.
    { pose proof (length_tail _ _ Eobj) as Ht.
      destruct (starts_with "}" (skip_ws (tail (skip_ws s)))) eqn:Eclose.
      - intros [= <- <-]. exists 1. split.
        + pose proof (length_tail _ _ Eclose). lia.
        + intros [|f'] Hf; [lia |].
          rewrite parse_value_S. cbv zeta. now rewrite Eobj, Eclose.
      - intros H. destruct (IHm _ _ _ _ H) as (need & Hlen & Hneed).
        exists (S need). split; [lia |].
        intros [|f'] Hf; [lia |].
        rewrite parse_value_S. cbv zeta. rewrite Eobj, Eclose.
        apply Hneed. lia. }
    destruct (starts_with "[" (skip_ws s)) eqn:Earr.
    { pose proof (length_tail _ _ Earr) as Ht.
      destruct (starts_with "]" (skip_ws (tail (skip_ws s)))) eqn:Eclose.
      - intros [= <- <-]. exists 1. split.
        + pose proof (length_tail _ _ Eclose). lia.
        + intros [|f'] Hf; [lia |].
          rewrite parse_value_S. cbv zeta. now rewrite Eobj, Earr, Eclose.
      - intros H. destruct (IHe _ _ _ _ H) as (need & Hlen & Hneed).
        exists (S need). split; [lia |].
        intros [|f'] Hf; [lia |].
        rewrite parse_value_S. cbv zeta. rewrite Eobj, Earr, Eclose.
        apply Hneed. lia. }
    intros H. exists 1. split.
    + destruct (starts_with dquote (skip_ws s)) eqn:Estr.
      { destruct (parse_string (tail (skip_ws s))) as [[str r]|] eqn:E;
          [| discriminate].
        injection H as _ <-. apply parse_string_length in E.
        pose proof (length_tail_le (skip_ws s)). lia. }
      destruct (strip_prefix "null" (skip_ws s)) eqn:E1.
      { injection H as _ <-. apply strip_prefix_length in E1. simpl in E1. lia. }
      destruct (strip_prefix "true" (skip_ws s)) eqn:E2.
      { injection H as _ <-. apply strip_prefix_length in E2. simpl in E2. lia. }
      destruct (strip_prefix "false" (skip_ws s)) eqn:E3.
      { injection H as _ <-. apply strip_prefix_length in E3. simpl in E3. lia. }
      destruct (parse_number (skip_ws s)) as [[n r]|] eqn:E; [| discriminate].
      injection H as _ <-. apply parse_number_length in E. lia.
    + intros [|f'] Hf; [lia |].
      rewrite parse_value_S. cbv zeta. now rewrite Eobj, Earr.
  - intros s acc v rest. rewrite parse_elements_S.
    destruct (parse_value f s) as [[x r]|] eqn:E; [| discriminate].
    destruct (IHv _ _ _ E) as (needx & Hlenx & Hneedx).
    cbv zeta. pose proof (length_skip_ws r) as Hr.
    destruct (starts_with "," (skip_ws r)) eqn:Ecomma.
    { pose proof (length_tail _ _ Ecomma) as Ht.
      intros H. destruct (IHe _ _ _ _ H) as (need & Hlen & Hneed).
      exists (S (needx + need)). split; [lia |].
      intros [|f'] Hf; [lia |].
      rewrite parse_elements_S, (Hneedx f') by lia.
      cbv zeta. rewrite Ecomma. apply Hneed. lia. }
    destruct (starts_with "]" (skip_ws r)) eqn:Eclose; [| discriminate].
    pose proof (length_tail _ _ Eclose) as Ht.
    intros [= <- <-]. exists (S needx). split; [lia |].
    intros [|f'] Hf; [lia |].
    rewrite parse_elements_S, (Hneedx f') by lia.
    cbv zeta. now rewrite Ecomma, Eclose.
  - intros s acc v rest. rewrite parse_members_S. cbv zeta.
    pose proof (length_skip_ws s) as Hs0.
    destruct (starts_with dquote (skip_ws s)) eqn:Equote; [| discriminate].
    pose proof (length_tail _ _ Equote) as Ht0.
    destruct (parse_string (tail (skip_ws s))) as [[key r]|] eqn:Ekey;
      [| discriminate].
    pose proof (parse_string_length _ _ _ Ekey) as Hkey.
    pose proof (length_skip_ws r) as Hr.
    destruct (starts_with ":" (skip_ws r)) eqn:Ecolon; [| discriminate].
    pose proof (length_tail _ _ Ecolon) as Ht1.
    destruct (parse_value f (tail (skip_ws r))) as [[x r']|] eqn:E;
      [| discriminate].
    destruct (IHv _ _ _ E) as (needx & Hlenx & Hneedx).
    pose proof (length_skip_ws r') as Hr'.
    destruct (starts_with "," (skip_ws r')) eqn:Ecomma.
    { pose proof (length_tail _ _ Ecomma) as Ht.
      intros H. destruct (IHm _ _ _ _ H) as (need & Hlen & Hneed).
      exists (S (needx + need)). split; [lia |].
      intros [|f'] Hf; [lia |].
      rewrite parse_members_S. cbv zeta.
      rewrite Equote, Ekey, Ecolon, (Hneedx f') by lia.
      rewrite Ecomma. apply Hneed. lia. }
    destruct (starts_with "}" (skip_ws r')) eqn:Eclose; [| discriminate].
    pose proof (length_tail _ _ Eclose) as Ht.
    intros [= <- <-]. exists (S needx). split; [lia |].
    intros [|f'] Hf; [lia |].
    rewrite parse_members_S. cbv zeta.
    rewrite Equote, Ekey, Ecolon, (Hneedx f') by lia.
    now rewrite Ecomma, Eclose.
Qed.

(** The fuel of [JSON_parse] is enough for every text: a parse that
    succeeds with some fuel succeeds with it. *)
Lemma JSON_parse_fuel (text : string) (f : nat) (v : value) (rest : string) :
  parse_value f text = Some (v, rest) ->
  parse_value (S (String.length text)) text = Some (v, rest).
Proof.
  intros H. destruct (proj1 (parse_fuel f) _ _ _ H) as (need & Hlen & Hneed).
  apply Hneed. lia.
Qed.

(** ** Objects: the order of the keys *)

Lemma lookup_fresh (k : string) (props : list (string * value)) :
  existsb (String.eqb k) (map fst props) = false -> lookup k props = None.
Proof.
  induction props as [|[k' v] props IH]; simpl; [reflexivity |].
  intros H. apply orb_false_iff in H as [Hk H].
  rewrite String.eqb_sym, Hk. now apply IH.
Qed.

Lemma insert_index_last (i : N) (k : string) (v : value)
  (props : list (string * value)) :
  forallb (below i) (map fst props) = true ->
  insert_index i k v props = (props ++ [(k, v)])%list.
Proof.
  induction props as [|[k' v'] props IH]; simpl; [reflexivity |].
  intros H. apply andb_true_iff in H as [Hk H].
  unfold below in Hk. destruct (array_index k') as [j|]; [| discriminate].
  rewrite Hk. now rewrite IH.
Qed.

(** A key that takes the last place is added at the end. *)
Lemma define_appendable (k : string) (v : value)
  (props : list (string * value)) :
  appendable (map fst props) k = true ->
  define k v props = (props ++ [(k, v)])%list.
Proof.
  unfold appendable, define. intros H.
  apply andb_true_iff in H as [Hfresh Hidx].
  apply negb_true_iff in Hfresh.
  rewrite (lookup_fresh k props Hfresh).
  destruct (array_index k) as [i|]; [| reflexivity].
  now apply insert_index_last.
Qed.

Lemma define_all_canonical (props acc : list (string * value)) :
  canonical_after (map fst acc) (map fst props) = true ->
  define_all props acc = (acc ++ props)%list.
Proof.
  revert acc; induction props as [|[k v] props IH]; intros acc H; simpl in *.
  - now rewrite app_nil_r.
  - apply andb_true_iff in H as [Hk H].
    rewrite (define_appendable k v acc Hk).
    unfold define_all in IH. rewrite IH.
    + now rewrite <- app_assoc.
    + now rewrite map_app.
Qed.

(** A binary64 number other than the negative zero goes through JSON
    text unchanged. *)
Lemma carried_binary64 (negative : bool) (m : N) (e : Z) :
  binary64 m e = true ->
  negb (negative && (m =? 0)%N) = true ->
  carried negative m e = Finite negative m e.
Proof.
  intros H Hz. unfold carried.
  destruct (N.eqb_spec m 0) as [-> | Hm].
  - destruct (binary64_bounds 0 e H) as (_ & _ & [Hn | ->]).
    + exfalso. assert (0 < 2 ^ 52)%Z by (apply Z.pow_pos_nonneg; lia).
      simpl Z.of_N in Hn. lia.
    + now destruct negative.
  - now apply canonical_binary64.
Qed.

(** The keys of an object stay as they are in JSON text. *)
Lemma plain_object (props : list (string * value)) :
  canonical_after [] (map fst props) = true ->
  plain (VObj props) = VObj (map (fun kv => (fst kv, plain (snd kv))) props).
Proof.
  intros H. cbn [plain]. f_equal.
  apply (define_all_canonical _ []). cbn [map].
  now rewrite map_map.
Qed.

(** JSON data goes through JSON text unchanged when its numbers do. *)
Lemma plain_json_data (v : value) :
  json_data v = true -> lossless v = true -> plain v = v.
Proof.
  induction v as [| b | n | s | elems own IH | props IH]
    using value_nested_ind; intros H L; try reflexivity.
  - destruct n as [| negative | negative m e]; try discriminate.
    cbn [plain json_data lossless] in *. f_equal.
    now apply carried_binary64.
  - cbn [json_data lossless plain] in *.
    apply andb_true_iff in H as [Helems Hown].
    apply andb_true_iff in L as [Lelems _].
    destruct own; [| discriminate]. f_equal.
    induction IH as [|x elems Hx _ IHl]; simpl in *; [reflexivity |].
    apply andb_true_iff in Helems as [Hjx Helems].
    apply andb_true_iff in Lelems as [Llx Lelems].
    now rewrite Hx, IHl.
  - cbn [json_data lossless] in *.
    apply andb_true_iff in H as [Hkeys Hvals].
    rewrite (plain_object props Hkeys). f_equal.
    clear Hkeys.
    induction IH as [|[k x] props Hx _ IHl]; simpl in *; [reflexivity |].
    apply andb_true_iff in Hvals as [Hjx Hvals].
    apply andb_true_iff in L as [Llx L].
    now rewrite Hx, IHl.
Qed.

(** [JSON.parse(JSON.stringify(v, null, space))] is [v], for JSON data
    whose numbers go through JSON text. *)
Lemma JSON_roundtrip (v : value) (space : nat) :
  json_data v = true -> lossless v = true ->
  JSON_parse (JSON_stringify v space) = Ok v.
Proof. intros H L. now rewrite JSON_parse_stringify, plain_json_data. Qed.

Lemma keys_replace (k : string) (v : value) (props : list (string * value)) :
  map fst (replace k v props) = map fst props.
Proof.
  induction props as [|[k' v'] props IH]; simpl; [reflexivity |].
  destruct (k' =? k); simpl; [reflexivity | now rewrite IH].
Qed.

Lemma json_data_replace (k : string) (v : value)
  (props : list (string * value)) :
  json_data v = true ->
  forallb (fun kv => json_data (snd kv)) props = true ->
  forallb (fun kv => json_data (snd kv)) (replace k v props) = true.
Proof.
  intros Hv. induction props as [|[k' v'] props IH]; simpl; [reflexivity |].
  intros H. apply andb_true_iff in H as [Hv' H].
  destruct (k' =? k); simpl.
  - now rewrite Hv, H.
  - now rewrite Hv', IH.
Qed.

Lemma lookup_none_fresh (k : string) (props : list (string * value)) :
  lookup k props = None -> existsb (String.eqb k) (map fst props) = false.
Proof.
  induction props as [|[k' v] props IH]; simpl; [reflexivity |].
  rewrite (String.eqb_sym k k').
  destruct (k' =? k); [discriminate |]. exact IH.
Qed.

Lemma canonical_after_snoc (seen ks : list string) (k : string) :
  canonical_after seen (ks ++ [k])
  = canonical_after seen ks && appendable (seen ++ ks) k.
Proof.
  revert seen; induction ks as [|k' ks IH]; intros seen; simpl.
  - now rewrite app_nil_r, andb_true_r.
  - rewrite IH, <- app_assoc. simpl. now rewrite andb_assoc.
Qed.

(** Setting a property whose key is not an array index keeps an object
    JSON data: the value is replaced in place, or the key is added last. *)
Lemma define_name_json_data (k : string) (v : value)
  (props : list (string * value)) :
  array_index k = None ->
  json_data v = true ->
  json_data (VObj props) = true ->
  json_data (VObj (define k v props)) = true.
Proof.
  intros Hk Hv H. simpl in *. apply andb_true_iff in H as [Hkeys Hvals].
  unfold define. destruct (lookup k props) eqn:E.
  - now rewrite keys_replace, Hkeys, json_data_replace.
  - rewrite Hk, map_app. cbn [map fst].
    rewrite canonical_after_snoc, Hkeys, forallb_app, Hvals.
    simpl. rewrite Hv. unfold appendable.
    now rewrite (lookup_none_fresh k props E), Hk.
Qed.

(** ** Objects stay in enumeration order *)

Lemma appendable_app (s1 s2 : list string) (k : string) :
  appendable (s1 ++ s2) k = appendable s1 k && appendable s2 k.
Proof.
  unfold appendable. rewrite existsb_app.
  destruct (array_index k) as [i|].
  - rewrite forallb_app.
    destruct (existsb (String.eqb k) s1), (existsb (String.eqb k) s2),
      (forallb (below i) s1), (forallb (below i) s2); reflexivity.
  - destruct (existsb (String.eqb k) s1), (existsb (String.eqb k) s2);
      reflexivity.
Qed.

(** In a canonical sequence every key can follow each key seen before. *)
Lemma canonical_after_seen (seen ks : list string) (s x : string) :
  canonical_after seen ks = true ->
  In s seen -> In x ks -> appendable [s] x = true.
Proof.
  revert seen; induction ks as [|k ks IH]; intros seen H Hs Hx;
    [contradiction |].
  simpl in H. apply andb_true_iff in H as [Hk H].
  destruct Hx as [-> | Hx].
  - apply in_split in Hs as (l1 & l2 & ->).
    rewrite appendable_app in Hk. apply andb_true_iff in Hk as [_ Hk].
    change (s :: l2) with ([s] ++ l2)%list in Hk.
    rewrite appendable_app in Hk. now apply andb_true_iff in Hk as [Hk _].
  - apply (IH (seen ++ [k])%list); [assumption | | assumption].
    apply in_or_app. now left.
Qed.

(** A key may be added to the keys seen when every later key can follow
    it. *)
Lemma canonical_after_more (s1 s2 ks : list string) (k : string) :
  canonical_after (s1 ++ s2) ks = true ->
  Forall (fun x => appendable [k] x = true) ks ->
  canonical_after (s1 ++ [k] ++ s2) ks = true.
Proof.
  revert s2; induction ks as [|x ks IH]; intros s2 H Hall; [reflexivity |].
  simpl in H. apply andb_true_iff in H as [Hx H].
  inversion Hall as [|? ? Hkx Hall']; subst.
  cbn [canonical_after]. apply andb_true_iff. split.
  - rewrite !appendable_app in *. apply andb_true_iff in Hx as [H1 H2].
    now rewrite H1, H2, Hkx.
  - rewrite <- !app_assoc. apply IH; [| assumption].
    now rewrite app_assoc.
Qed.

Lemma appendable_single (s k : string) :
  appendable [s] k
  = negb (k =? s)
    && match array_index k with
       | Some i => below i s
       | None => true
       end.
Proof.
  unfold appendable. simpl. rewrite orb_false_r.
  destruct (array_index k); [now rewrite andb_true_r | reflexivity].
Qed.

(** A new index key, put at its place, keeps the keys canonical. *)
Lemma insert_index_canonical (i : N) (k : string) (v : value)
  (props : list (string * value)) :
  forall seen,
    array_index k = Some i ->
    canonical_after seen (map fst props) = true ->
    appendable seen k = true ->
    existsb (String.eqb k) (map fst props) = false ->
    canonical_after seen (map fst (insert_index i k v props)) = true.
Proof.
  induction props as [|[k' v'] props IH]; intros seen Hk H Hseen Hfresh.
  - simpl. now rewrite Hseen.
  - cbn [map fst canonical_after existsb] in H, Hfresh.
    apply andb_true_iff in H as [Hk' H].
    apply orb_false_iff in Hfresh as [Hne Hfresh].
    assert (Hlater : forall x, In x (map fst props) ->
                               appendable [k'] x = true).
    { intros x Hx. apply (canonical_after_seen (seen ++ [k']) (map fst props));
        [assumption | | assumption].
      apply in_or_app. right. now left. }
    assert (Hxk : forall x, In x (map fst props) -> (x =? k) = false).
    { intros x Hx. destruct (String.eqb_spec x k) as [-> |]; [| reflexivity].
      rewrite <- Hfresh. symmetry. apply existsb_exists.
      exists k. split; [assumption | apply String.eqb_refl]. }
    assert (Hfront :
              (forall j, below j k' = true -> below j k = true) ->
              (match array_index k' with
               | Some j => below j k
               | None => true
               end = true) ->
              canonical_after seen (k :: k' :: map fst props) = true).
    { intros Hbelow Hk'k.
      cbn [canonical_after]. rewrite Hseen. cbn [andb].
      apply andb_true_iff. split.
      - rewrite appendable_app, Hk'. cbn [andb].
        rewrite appendable_single, String.eqb_sym, Hne. exact Hk'k.
      - rewrite <- app_assoc.
        apply (canonical_after_more seen [k'] (map fst props) k);
          [assumption |].
        apply Forall_forall. intros x Hx.
        specialize (Hlater x Hx). rewrite appendable_single in *.
        rewrite (Hxk x Hx). cbn [negb andb].
        apply andb_true_iff in Hlater as [_ Hlater].
        destruct (array_index x) as [jx|]; [| reflexivity].
        now apply Hbelow. }
    cbn [insert_index].
    destruct (array_index k') as [j|] eqn:Ek'.
    + destruct (N.ltb_spec j i) as [Hlt | Hge].
      * cbn [map fst canonical_after]. rewrite Hk'. cbn [andb].
        apply IH; try assumption.
        rewrite appendable_app, Hseen. cbn [andb].
        rewrite appendable_single, Hne, Hk. cbn [negb andb].
        unfold below. rewrite Ek'. now apply N.ltb_lt.
      * assert (Hij : (i < j)%N).
        { destruct (N.eq_dec i j) as [-> | Hneq]; [| lia].
          rewrite (array_index_inj k k' j Hk Ek'), String.eqb_refl in Hne.
          discriminate. }
        apply Hfront.
        -- intros jx. unfold below. rewrite Ek', Hk.
           intros Hj. apply N.ltb_lt in Hj. apply N.ltb_lt. lia.
        -- unfold below. rewrite Hk. now apply N.ltb_lt.
    + apply Hfront; [| reflexivity].
      intros jx. unfold below. rewrite Ek'. discriminate.
Qed.

Lemma json_data_insert_index (i : N) (k : string) (v : value)
  (props : list (string * value)) :
  json_data v = true ->
  forallb (fun kv => json_data (snd kv)) props = true ->
  forallb (fun kv => json_data (snd kv)) (insert_index i k v props) = true.
Proof.
  intros Hv. induction props as [|[k' v'] props IH]; simpl.
  - now rewrite Hv.
  - intros H. pose proof H as H'. apply andb_true_iff in H as [Hv' H].
    destruct (array_index k') as [j|]; [destruct (j <? i)%N |]; simpl;
      rewrite ?Hv, ?Hv', ?H, ?IH; auto.
Qed.

(** Setting a property keeps an object JSON data. *)
Lemma define_json_data (k : string) (v : value)
  (props : list (string * value)) :
  json_data v = true ->
  json_data (VObj props) = true ->
  json_data (VObj (define k v props)) = true.
Proof.
  intros Hv H.
  destruct (array_index k) as [i|] eqn:Hk;
    [| now apply define_name_json_data].
  simpl in *. apply andb_true_iff in H as [Hkeys Hvals].
  unfold define. destruct (lookup k props) eqn:E.
  - now rewrite keys_replace, Hkeys, json_data_replace.
  - rewrite Hk.
    rewrite (insert_index_canonical i k v props []); try assumption.
    + now apply json_data_insert_index.
    + unfold appendable. now rewrite Hk.
    + now apply lookup_none_fresh.
Qed.

(** ** What [JSON.parse] returns is JSON data *)

Lemma parse_number_json_data (s rest : string) (n : number) :
  parse_number s = Some (n, rest) -> json_data (VNum n) = true.
Proof.
  unfold parse_number.
  destruct (lex_digits (if starts_with "-" s then tail s else s)) as [ip s2].
  destruct (ip =? ""); [discriminate |].
  destruct (starts_with "0" ip && negb (tail ip =? "")); [discriminate |].
  destruct (parse_fraction s2) as [[fp s3]|]; [| discriminate].
  destruct (parse_exponent s3) as [[x r]|]; [| discriminate].
  intros [= <- _].
  match goal with
  | |- context [decimal ?neg ?mant ?x] =>
      pose proof (decimal_binary64 neg mant x ltac:(lia)) as H;
      destruct (decimal neg mant x)
  end; [contradiction | reflexivity | exact H].
Qed.

Lemma parse_json_data (fuel : nat) :
  (forall s v rest, parse_value fuel s = Some (v, rest) -> json_data v = true)
  /\ (forall s acc v rest,
         forallb json_data acc = true ->
         parse_elements fuel s acc = Some (v, rest) -> json_data v = true)
  /\ (forall s acc v rest,
         json_data (VObj acc) = true ->
         parse_members fuel s acc = Some (v, rest) -> json_data v = true).
Proof.
  induction fuel as [|f (IHv & IHe & IHm)];
    [repeat split; intros; discriminate |].
  repeat split.
  - intros s v rest. rewrite parse_value_S. cbv zeta.
    destruct (starts_with "{" (skip_ws s)).
    { destruct (starts_with "}" (skip_ws (tail (skip_ws s)))).
      - intros [= <- _]. reflexivity.
      - now apply IHm. }
    destruct (starts_with "[" (skip_ws s)).
    { destruct (starts_with "]" (skip_ws (tail (skip_ws s)))).
      - intros [= <- _]. reflexivity.
      - now apply IHe. }
    destruct (starts_with dquote (skip_ws s)).
    { destruct (parse_string (tail (skip_ws s))) as [[str r]|];
        [| discriminate].
      intros [= <- _]. reflexivity. }
    destruct (strip_prefix "null" (skip_ws s)); [intros [= <- _]; reflexivity |].
    destruct (strip_prefix "true" (skip_ws s)); [intros [= <- _]; reflexivity |].
    destruct (strip_prefix "false" (skip_ws s)); [intros [= <- _]; reflexivity |].
    destruct (parse_number (skip_ws s)) as [[n r]|] eqn:E; [| discriminate].
    intros [= <- _]. now apply (parse_number_json_data _ _ _ E).
  - intros s acc v rest Hacc. rewrite parse_elements_S.
    destruct (parse_value f s) as [[x r]|] eqn:E; [| discriminate].
    cbv zeta.
    assert (Hacc' : forallb json_data (acc ++ [x]) = true).
    { rewrite forallb_app, Hacc. simpl. now rewrite (IHv _ _ _ E). }
    destruct (starts_with "," (skip_ws r)); [now apply IHe |].
    destruct (starts_with "]" (skip_ws r)); [| discriminate].
    intros [= <- _]. simpl. now rewrite Hacc'.
  - intros s acc v rest Hacc. rewrite parse_members_S. cbv zeta.
    destruct (starts_with dquote (skip_ws s)); [| discriminate].
    destruct (parse_string (tail (skip_ws s))) as [[key r]|]; [| discriminate].
    destruct (starts_with ":" (skip_ws r)); [| discriminate].
    destruct (parse_value f (tail (skip_ws r))) as [[x r']|] eqn:E;
      [| discriminate].
    assert (Hacc' : json_data (VObj (define key x acc)) = true).
    { apply define_json_data; [now apply (IHv _ _ _ E) | assumption]. }
    destruct (starts_with "," (skip_ws r')); [now apply IHm |].
    destruct (starts_with "}" (skip_ws r')); [| discriminate].
    now intros [= <- _].
Qed.

Lemma JSON_parse_json_data (text : string) (v : value) :
  JSON_parse text = Ok v -> json_data v = true.
Proof.
  unfold JSON_parse.
  destruct (parse_value (S (String.length text)) text) as [[x rest]|] eqn:E;
    [| discriminate].
  destruct (skip_ws rest =? ""); [| discriminate].
  intros [= <-].
  now apply (proj1 (parse_json_data _) _ _ _ E).
Qed.

(** ** Reading a property after it was set *)

Lemma lookup_replace_same (k : string) (v x : value)
  (props : list (string * value)) :
  lookup k props = Some x -> lookup k (replace k v props) = Some v.
Proof.
  induction props as [|[k' v'] props IH]; simpl; [discriminate |].
  destruct (k' =? k) eqn:E; simpl; rewrite E; [reflexivity | exact IH].
Qed.

Lemma lookup_replace_other (k k0 : string) (v : value)
  (props : list (string * value)) :
  k <> k0 -> lookup k (replace k0 v props) = lookup k props.
Proof.
  intros Hne. induction props as [|[k' v'] props IH]; simpl; [reflexivity |].
  destruct (k' =? k0) eqn:E; simpl.
  - apply String.eqb_eq in E. subst k'.
    destruct (String.eqb_spec k0 k) as [-> |]; [contradiction | reflexivity].
  - now rewrite IH.
Qed.

Lemma lookup_insert_same (i : N) (k : string) (v : value)
  (props : list (string * value)) :
  lookup k props = None -> lookup k (insert_index i k v props) = Some v.
Proof.
  induction props as [|[k' v'] props IH]; simpl.
  - now rewrite String.eqb_refl.
  - destruct (k' =? k) eqn:E; [discriminate |]. intros H.
    destruct (array_index k') as [j|]; [destruct (j <? i)%N |]; simpl;
      rewrite ?E, ?String.eqb_refl; auto.
Qed.

Lemma lookup_insert_other (i : N) (k k0 : string) (v : value)
  (props : list (string * value)) :
  k <> k0 -> lookup k (insert_index i k0 v props) = lookup k props.
Proof.
  intros Hne.
  assert (E0 : (k0 =? k) = false)
    by (apply String.eqb_neq; congruence).
  induction props as [|[k' v'] props IH]; simpl.
  - now rewrite E0.
  - destruct (array_index k') as [j|]; [destruct (j <? i)%N |]; simpl;
      rewrite ?E0, ?IH; reflexivity.
Qed.

Lemma lookup_app_last (k k0 : string) (v : value)
  (props : list (string * value)) :
  lookup k (props ++ [(k0, v)])
  = match lookup k props with
    | Some x => Some x
    | None => if k0 =? k then Some v else None
    end.
Proof.
  induction props as [|[k' v'] props IH]; simpl; [reflexivity |].
  destruct (k' =? k); [reflexivity | exact IH].
Qed.

(** After [obj[k] = v], [obj[k]] is [v] ... *)
Lemma lookup_define_same (k : string) (v : value)
  (props : list (string * value)) :
  lookup k (define k v props) = Some v.
Proof.
  unfold define. destruct (lookup k props) as [x|] eqn:E.
  - now apply (lookup_replace_same k v x).
  - destruct (array_index k) as [i|].
    + now apply lookup_insert_same.
    + now rewrite lookup_app_last, E, String.eqb_refl.
Qed.

(** ... and every other property is what it was. *)
Lemma lookup_define_other (k k0 : string) (v : value)
  (props : list (string * value)) :
  k <> k0 -> lookup k (define k0 v props) = lookup k props.
Proof.
  intros Hne. unfold define. destruct (lookup k0 props) as [x|] eqn:E.
  - now apply lookup_replace_other.
  - destruct (array_index k0) as [i|].
    + now apply lookup_insert_other.
    + rewrite lookup_app_last.
      destruct (lookup k props); [reflexivity |].
      destruct (String.eqb_spec k0 k) as [-> |]; [contradiction | reflexivity].
Qed.

(** What [JSON.parse] makes of the text of an object or of an array is a
    valid body. *)
Lemma valid_body_parsed (text : string) (v : value) :
  JSON_parse text = Ok v ->
  is_record v = true \/ is_array v = true ->
  valid_body v = true.
Proof.
  intros Ht Hshape. apply JSON_parse_json_data in Ht.
  destruct v; destruct Hshape; try discriminate; exact Ht.
Qed.

(** ** Values once they went through JSON text *)

Lemma json_data_plain (v : value) : json_data (plain v) = true.
Proof.
  apply (JSON_parse_json_data (JSON_stringify v 0)).
  apply JSON_parse_stringify.
Qed.

(** What went through JSON text goes through it unchanged. *)
Lemma lossless_plain (v : value) :
  json_data v = true -> lossless (plain v) = true.
Proof.
  induction v as [| b | n | s | elems own IH | props IH]
    using value_nested_ind; intros H; try reflexivity.
  - destruct n as [| negative | negative m e]; try reflexivity.
    cbn [plain json_data lossless] in *. unfold carried.
    destruct (N.eqb_spec m 0) as [-> | Hm]; [reflexivity |].
    rewrite (canonical_binary64 negative m e H). cbn [lossless].
    destruct (N.eqb_spec m 0); [contradiction |].
    now rewrite andb_false_r.
  - cbn [json_data plain lossless] in *.
    apply andb_true_iff in H as [Helems _].
    rewrite andb_true_r.
    induction IH as [|x elems Hx _ IHl]; simpl in *; [reflexivity |].
    apply andb_true_iff in Helems as [Hjx Helems].
    now rewrite Hx, IHl.
  - cbn [json_data] in H. apply andb_true_iff in H as [Hkeys Hvals].
    rewrite (plain_object props Hkeys). cbn [lossless]. clear Hkeys.
    induction IH as [|[k x] props Hx _ IHl]; simpl in *; [reflexivity |].
    apply andb_true_iff in Hvals as [Hjx Hvals].
    now rewrite Hx, IHl.
Qed.

Lemma plain_idem (v : value) :
  json_data v = true -> plain (plain v) = plain v.
Proof.
  intros H. apply plain_json_data; [apply json_data_plain |].
  now apply lossless_plain.
Qed.

Lemma map_plain_idem (items : list value) :
  forallb json_data items = true ->
  map plain (map plain items) = map plain items.
Proof.
  induction items as [|x items IH]; simpl; [reflexivity |].
  intros H. apply andb_true_iff in H as [Hx H].
  now rewrite plain_idem, IH.
Qed.

Lemma map_plain_lossless (items : list value) :
  forallb json_data items = true ->
  forallb lossless items = true ->
  map plain items = items.
Proof.
  induction items as [|x items IH]; simpl; [reflexivity |].
  intros H L. apply andb_true_iff in H as [Hx H].
  apply andb_true_iff in L as [Lx L].
  now rewrite plain_json_data, IH.
Qed.

(** Reading a property of a record in JSON text. *)
Lemma lookup_plain (k : string) (props : list (string * value)) :
  lookup k (map (fun kv => (fst kv, plain (snd kv))) props)
  = option_map plain (lookup k props).
Proof.
  induction props as [|[k' v] props IH]; simpl; [reflexivity |].
  destruct (k' =? k); [reflexivity | exact IH].
Qed.

(** ** The storage adapter *)

(** Runs the primitives of asynchronous code. *)
Ltac run_async :=
  unfold try_catch, bind, lift, ret, fs_readFile, fs_writeFile.

(** [readData] never throws and leaves the world as it is. *)
Lemma readData_total (w : world) : exists data, readData w = (Ok data, w).
Proof.
  unfold readData. run_async.
  destruct (data_json w) as [| errno | text]; eauto.
  destruct (JSON_parse text); eauto.
Qed.

Lemma holds_readData (w : world) (items : list value) :
  holds w items -> readData w = (Ok (VArr items []), w).
Proof.
  unfold holds. destruct (readData_total w) as (data & ->). simpl.
  now intros [= ->].
Qed.

(** After a write that succeeds, [readData] returns what was written, as
    JSON holds it. *)
Lemma readData_writeData (w : world) (data : value) :
  write_fault w = None ->
  fst (writeData data w) = Ok tt
  /\ fst (readData (snd (writeData data w))) = Ok (plain data).
Proof.
  intros Hw. unfold writeData. run_async. rewrite Hw. simpl.
  split; [reflexivity |].
  unfold readData. run_async. simpl.
  now rewrite JSON_parse_stringify.
Qed.

(** What [readData] returns is JSON data. *)
Lemma readData_json_data (w : world) (data : value) :
  fst (readData w) = Ok data -> json_data data = true.
Proof.
  unfold readData. run_async.
  destruct (data_json w) as [| errno | text]; simpl;
    try (intros [= <-]; reflexivity).
  destruct (JSON_parse text) eqn:E; simpl; intros [= <-];
    [now apply (JSON_parse_json_data text) | reflexivity].
Qed.

Lemma holds_json_data (w : world) (items : list value) :
  holds w items -> forallb json_data items = true.
Proof.
  intros H. apply readData_json_data in H.
  simpl in H. now rewrite andb_true_r in H.
Qed.

(** What [GET /items] answers. *)
Lemma get_items_run (w : world) :
  exists data,
    fst (readData w) = Ok data
    /\ get_items w
       = (Ok {| status := 200; body := JSON_stringify data 0 |}, w)
    /\ sent {| status := 200; body := JSON_stringify data 0 |}
       = Ok (plain data).
Proof.
  destruct (readData_total w) as (data & E). exists data.
  split; [now rewrite E |]. split.
  - unfold get_items, bind. now rewrite E.
  - unfold sent. simpl. apply JSON_parse_stringify.
Qed.

(** A client reads of the store what it holds, as JSON text carries it. *)
Lemma holds_lists (w : world) (items : list value) :
  holds w items -> lists w (map plain items).
Proof.
  intros H. destruct (get_items_run w) as (data & Hread & Hrun & Hsent).
  unfold holds in H. rewrite H in Hread. injection Hread as <-.
  eexists. split; [unfold responds; now rewrite Hrun |].
  split; [reflexivity | exact Hsent].
Qed.

Lemma lists_holds (w : world) (items : list value) :
  lists w items ->
  exists stored,
    holds w stored
    /\ forallb json_data stored = true
    /\ map plain stored = items
    /\ map plain items = items.
Proof.
  intros (resp & Hresp & _ & Hsent).
  destruct (get_items_run w) as (data & Hread & Hrun & Hdata).
  unfold responds in Hresp. rewrite Hrun in Hresp. injection Hresp as <-.
  rewrite Hdata in Hsent. injection Hsent as Hplain.
  pose proof (readData_json_data w data Hread) as Hj.
  destruct data as [| | [| |] | | stored own | props]; try discriminate.
  cbn [json_data] in Hj. apply andb_true_iff in Hj as [Hj Hown].
  destruct own; [| discriminate].
  cbn [plain] in Hplain. injection Hplain as Hplain.
  exists stored. repeat split; try assumption.
  rewrite <- Hplain. now apply map_plain_idem.
Qed.

(** ** [find] *)

Lemma find_first_found (p : value -> result bool) (l : list value)
  (x : value) :
  find_first p l = Ok (Some x) -> In x l /\ p x = Ok true.
Proof.
  induction l as [|y l IH]; simpl; [discriminate |].
  destruct (p y) as [[|] | e] eqn:E; [| | discriminate].
  - intros [= ->]. split; [now left | exact E].
  - intros H. destruct (IH H). split; [now right | assumption].
Qed.

Lemma find_first_skip (p : value -> result bool) (pre post : list value)
  (x : value) :
  Forall (fun y => p y = Ok false) pre ->
  p x = Ok true ->
  find_first p (pre ++ x :: post) = Ok (Some x).
Proof.
  intros Hpre Hx. induction Hpre as [|y pre Hy _ IH]; simpl.
  - now rewrite Hx.
  - now rewrite Hy.
Qed.

Lemma find_first_none (p : value -> result bool) (l : list value) :
  Forall (fun y => p y = Ok false) l -> find_first p l = Ok None.
Proof.
  intros H. induction H as [|y l Hy _ IH]; simpl; [reflexivity |].
  now rewrite Hy.
Qed.

(** The test [item.id === id] holds only on an item whose [id] is a number
    equal to [id]; such an item is an object or an array, hence truthy. *)
Lemma id_is_true (id : number) (item : value) :
  id_is id item = Ok true ->
  (exists m, get_id item = Ok (Some (VNum m)) /\ number_eqb m id = true)
  /\ truthy (Some item) = true.
Proof.
  unfold id_is. destruct item as [| b | n | s | elems own | props]; simpl;
    try discriminate.
  - destruct (lookup "id" own) as [[| | m | | |]|]; simpl; try discriminate.
    intros [= H]. split; [eauto | reflexivity].
  - destruct (lookup "id" props) as [[| | m | | |]|]; simpl; try discriminate.
    intros [= H]. split; [eauto | reflexivity].
Qed.

Lemma number_eqb_refl (n : number) : n <> NaN -> number_eqb n n = true.
Proof.
  destruct n as [| s | s m e]; simpl; [contradiction | |]; intros _.
  - now destruct s.
  - rewrite N.eqb_refl, Z.eqb_refl. destruct s; simpl; apply orb_true_r.
Qed.

Lemma number_eqb_trans (a b c : number) :
  number_eqb a b = true -> number_eqb b c = true -> number_eqb a c = true.
Proof.
  destruct a as [| s | s m e], b as [| t | t n f], c as [| u | u l h];
    simpl; try discriminate.
  - intros H1 H2. apply Bool.eqb_prop in H1, H2. subst. now destruct u.
  - intros H1 H2.
    apply orb_true_iff in H1 as [H1 | H1], H2 as [H2 | H2].
    + apply andb_true_iff in H1 as [-> _], H2 as [_ ->]. reflexivity.
    + apply andb_true_iff in H1 as [Hm Hn], H2 as [H2 _].
      apply andb_true_iff in H2 as [_ Hl].
      apply N.eqb_eq in Hn, Hl. subst. now rewrite Hm.
    + apply andb_true_iff in H1 as [H1 _], H2 as [Hn Hl].
      apply andb_true_iff in H1 as [_ Hm].
      apply N.eqb_eq in Hm, Hn. subst. rewrite Hl. reflexivity.
    + apply andb_true_iff in H1 as [H1 He], H2 as [H2 Hf].
      apply andb_true_iff in H1 as [Hs Hm], H2 as [Ht Hn].
      apply Bool.eqb_prop in Hs, Ht. apply N.eqb_eq in Hm, Hn.
      apply Z.eqb_eq in He, Hf. subst.
      rewrite N.eqb_refl, Z.eqb_refl.
      destruct u; simpl; apply orb_true_r.
Qed.

(** Numbers that [===] makes equal have the same text. *)
Lemma number_eqb_json (a b : number) :
  number_eqb a b = true -> number_json a = number_json b.
Proof.
  destruct a as [| s | s m e], b as [| t | t n f]; simpl; try discriminate;
    try reflexivity.
  intros H. apply orb_true_iff in H as [H | H].
  - apply andb_true_iff in H as [-> ->]. reflexivity.
  - apply andb_true_iff in H as [H He]. apply andb_true_iff in H as [Hs Hm].
    apply Bool.eqb_prop in Hs. apply N.eqb_eq in Hm. apply Z.eqb_eq in He.
    now subst.
Qed.

Lemma decimal_not_NaN (negative : bool) (s x : Z) :
  (0 <= s)%Z -> decimal negative s x <> NaN.
Proof.
  intros Hs E. pose proof (decimal_binary64 negative s x Hs) as H.
  now rewrite E in H.
Qed.

(** Both zeros are the number of the integer 0. *)
Lemma decimal_zero (negative : bool) :
  decimal negative 0 0 = Finite negative 0 emin.
Proof. now destruct negative. Qed.

(** [parseInt] returns [NaN] or the number of an integer. *)
Lemma parseInt_integer (s : string) :
  parseInt s = NaN
  \/ exists z, number_eqb (parseInt s) (Dec z 0) = true.
Proof.
  unfold parseInt.
  match goal with
  | |- context [match ?m with Some _ => _ | None => NaN end] =>
      destruct m as [n|]; [right | now left]
  end.
  match goal with
  | |- context [decimal ?b _ 0] => generalize b
  end.
  intros negative. unfold Dec.
  destruct (N.eq_dec n 0) as [-> | Hn].
  - exists 0%Z. simpl Z.of_N. rewrite decimal_zero.
    now destruct negative.
  - exists (if negative then (- Z.of_N n)%Z else Z.of_N n).
    replace (decimal _ (Z.abs _) _) with (decimal negative (Z.of_N n) 0).
    + apply number_eqb_refl, decimal_not_NaN. lia.
    + destruct negative.
      * destruct (Z.ltb_spec (- Z.of_N n) 0) as [_ | ?]; [| lia].
        f_equal. lia.
      * destruct (Z.ltb_spec (Z.of_N n) 0) as [? | _]; [lia |].
        f_equal. lia.
Qed.

(** ** The route handlers *)

Lemma body_not_found : JSON_stringify not_found 0 = not_found_text.
Proof. reflexivity. Qed.

Lemma get_items_id_run (w : world) (items : list value) (seg : string) :
  holds w items ->
  get_items_id seg w
  = match find_first (id_is (parseInt seg)) items with
    | Ok (Some found) =>
        if truthy (Some found)
        then (Ok {| status := 200; body := JSON_stringify found 0 |}, w)
        else (Ok {| status := 404; body := not_found_text |}, w)
    | Ok None => (Ok {| status := 404; body := not_found_text |}, w)
    | Throw e => (Throw e, w)
    end.
Proof.
  intros H. unfold get_items_id, bind. rewrite (holds_readData w items H).
  unfold lift. simpl Array_find.
  destruct (find_first (id_is (parseInt seg)) items) as [[found|] | e];
    try reflexivity.
  destruct (truthy (Some found)); reflexivity.
Qed.

Lemma post_items_run (w : world) (items : list value) (req_body newItem : value)
  (uuid : string) :
  holds w items ->
  set_id req_body (VStr uuid) = Ok newItem ->
  post_items req_body uuid w
  = match write_fault w with
    | Some (errno, residue) =>
        (Throw (SystemError errno),
         {| data_json := residue; write_fault := write_fault w |})
    | None =>
        (Ok {| status := 201; body := JSON_stringify newItem 0 |},
         {| data_json :=
              Content (JSON_stringify (VArr (items ++ [newItem]) []) 2);
            write_fault := write_fault w |})
    end.
Proof.
  intros H Hset. unfold post_items, bind. rewrite (holds_readData w items H).
  unfold lift. rewrite Hset. simpl Array_push. cbv iota.
  unfold writeData, fs_writeFile.
  destruct (write_fault w) as [[errno residue]|]; reflexivity.
Qed.

(** No item passes the test of the handler: the answer is 404. *)
Lemma get_items_id_none (w : world) (items : list value)
  (identifier : string) :
  holds w items ->
  Forall (fun item => id_is (parseInt identifier) item = Ok false) items ->
  get_items_id identifier w
  = (Ok {| status := 404; body := not_found_text |}, w).
Proof.
  intros H Hall. rewrite (get_items_id_run w items identifier H).
  now rewrite (find_first_none _ _ Hall).
Qed.

Lemma valid_body_set_id (req_body : value) (uuid : string) :
  valid_body req_body = true ->
  exists newItem,
    set_id req_body (VStr uuid) = Ok newItem
    /\ json_data (plain newItem) = true
    /\ plain (plain newItem) = plain newItem.
Proof.
  destruct req_body as [| | | | elems own | props]; try discriminate;
    unfold valid_body; intros H.
  - exists (VArr elems (define "id" (VStr uuid) own)).
    split; [reflexivity |].
    change (plain (VArr elems (define "id" (VStr uuid) own)))
      with (plain (VArr elems own)).
    split; [apply json_data_plain | now apply plain_idem].
  - exists (VObj (define "id" (VStr uuid) props)).
    split; [reflexivity |].
    split; [apply json_data_plain |].
    apply plain_idem. now apply define_name_json_data.
Qed.

(** The record that [newItem.id = uuid] makes of an object, in JSON text:
    its [id] is the identifier, its keys and its other fields are those of
    the object. *)
Lemma plain_set_id (props : list (string * value)) (uuid : string) :
  json_data (VObj props) = true ->
  exists created,
    plain (VObj (define "id" (VStr uuid) props)) = VObj created
    /\ map fst created = map fst (define "id" (VStr uuid) props)
    /\ lookup "id" created = Some (VStr uuid)
    /\ (forall k, k <> "id" ->
                  lookup k created = option_map plain (lookup k props))
    /\ (lossless (VObj props) = true ->
        created = define "id" (VStr uuid) props).
Proof.
  intros H.
  assert (Hdef : json_data (VObj (define "id" (VStr uuid) props)) = true)
    by now apply define_name_json_data.
  pose proof Hdef as Hkeys. cbn [json_data] in Hkeys.
  apply andb_true_iff in Hkeys as [Hkeys _].
  rewrite (plain_object _ Hkeys). eexists. split; [reflexivity |].
  split; [rewrite map_map; reflexivity |].
  split; [now rewrite lookup_plain, lookup_define_same |].
  split.
  - intros k Hk. now rewrite lookup_plain, lookup_define_other.
  - intros L.
    assert (Ldef : lossless (VObj (define "id" (VStr uuid) props)) = true).
    { cbn [lossless] in *. unfold define.
      destruct (lookup "id" props).
      - clear - L. induction props as [|[k v] props IH]; simpl in *;
          [reflexivity |].
        apply andb_true_iff in L as [Lv L].
        destruct (k =? "id"); simpl; [exact L | now rewrite Lv, IH].
      - simpl. now rewrite forallb_app, L. }
    pose proof (plain_json_data _ Hdef Ldef) as Hp.
    rewrite (plain_object _ Hkeys) in Hp. now injection Hp.
Qed.

(** ** [parseInt] reads a numeral back *)

Lemma ws_width_numeral (c : ascii) (r : string) :
  (is_digit c || (c =? "-")%char) = true -> ws_width (String c r) = 0.
Proof.
  intros H.
  destruct c as [[] [] [] [] [] [] [] []]; try discriminate H;
    destruct r as [|b [|d r']]; reflexivity.
Qed.

Lemma trim_start_none (s : string) : ws_width s = 0 -> trim_start s = s.
Proof.
  unfold trim_start. intros H.
  destruct (String.length s); simpl; [reflexivity | now rewrite H].
Qed.

Lemma strip_prefix_numeral (p : ascii) (ds suffix : string) :
  is_digit p = false ->
  all_digits ds = true ->
  ds <> "" ->
  starts_with p suffix = false ->
  strip_prefix (String "0" (String p "")) (ds ++ suffix) = None.
Proof.
  intros Hp Hds Hne Hsuffix.
  destruct ds as [|c ds']; [contradiction |].
  cbn [append strip_prefix].
  destruct ("0" =? c)%char; [| reflexivity].
  destruct ds' as [|d ds'']; cbn [append].
  - destruct suffix as [|e rest]; [reflexivity |].
    cbn [strip_prefix]. simpl in Hsuffix.
    rewrite Ascii.eqb_sym, Hsuffix. reflexivity.
  - cbn [strip_prefix].
    destruct (Ascii.eqb_spec p d) as [-> |]; [| reflexivity].
    cbn [all_digits] in Hds. rewrite Hp in Hds.
    now rewrite andb_false_r in Hds.
Qed.

(** [parseInt] stops at the end of a decimal numeral. *)
Lemma parseInt_numeral_prefix (z : Z) (suffix : string) :
  ends_numeral suffix = true ->
  parseInt (numeral z ++ suffix) = Dec z 0.
Proof.
  intros Hsuffix.
  assert (Hs : match suffix with
               | String c _ => is_digit c = false
               | "" => True
               end
               /\ starts_with "x" suffix = false
               /\ starts_with "X" suffix = false).
  { destruct suffix as [|c rest]; [repeat split |].
    simpl in *. apply andb_true_iff in Hsuffix as [Hsuffix HX].
    apply andb_true_iff in Hsuffix as [Hd Hx].
    apply negb_true_iff in Hd, Hx, HX. repeat split; assumption. }
  destruct Hs as (Hdigit & Hx & HX).
  unfold numeral, parseInt, Dec.
  pose proof (N_digits_digits (Z.abs_N z)) as Hds.
  pose proof (N_digits_val (Z.abs_N z)) as Hval.
  destruct (N_digits_first (Z.abs_N z)) as (c & r & E & Hc).
  set (ds := N_digits (Z.abs_N z)) in *.
  assert (Hc' : (c =? "-")%char = false /\ (c =? "+")%char = false).
  { clear - Hc. destruct c as [[] [] [] [] [] [] [] []];
      try discriminate Hc; split; reflexivity. }
  destruct Hc' as [Hminus Hplus].
  rewrite append_assoc.
  set (text := sign_text (z <? 0)%Z ++ ds ++ suffix).
  assert (Htrim : trim_start text = text).
  { apply trim_start_none. unfold text.
    destruct (z <? 0)%Z; cbn [sign_text].
    - now apply (ws_width_numeral "-" (ds ++ suffix)).
    - simpl. rewrite E. apply ws_width_numeral. now rewrite Hc. }
  rewrite Htrim.
  assert (Hsign : starts_with "-" text = (z <? 0)%Z
                  /\ (if starts_with "-" text || starts_with "+" text
                      then tail text else text) = ds ++ suffix).
  { unfold text. destruct (z <? 0)%Z; simpl; [split; reflexivity |].
    rewrite E. simpl. rewrite Hminus, Hplus. split; reflexivity. }
  destruct Hsign as [-> ->].
  assert (Hne : ds <> "") by (rewrite E; discriminate).
  rewrite !strip_prefix_numeral by (assumption || reflexivity).
  rewrite lex_digits_app by assumption.
  rewrite E at 1. simpl String.eqb. cbv iota. rewrite Hval.
  f_equal; lia.
Qed.

(** [parseInt] of the numeral of an integer is the number of the integer. *)
Lemma parseInt_numeral (z : Z) : parseInt (numeral z) = Dec z 0.
Proof.
  rewrite <- (append_nil_r (numeral z)).
  now apply parseInt_numeral_prefix.
Qed.

Lemma Dec_not_NaN (z : Z) (k : nat) : Dec z k <> NaN.
Proof. unfold Dec. apply decimal_not_NaN. lia. Qed.

(** With a number as its [id], an item is found under the numeral of that
    number, when no item before it has the same [id]. *)
Lemma get_items_id_numeral (w : world) (before after : list value)
  (item : value) (z : Z) :
  holds w (before ++ item :: after) ->
  Forall (fun x => id_is (Dec z 0) x = Ok false) before ->
  get_id item = Ok (Some (VNum (Dec z 0))) ->
  responds (get_items_id (numeral z) w)
    {| status := 200; body := JSON_stringify item 0 |}.
Proof.
  intros H Hbefore Hid.
  unfold responds. rewrite (get_items_id_run w _ _ H), parseInt_numeral.
  assert (Hitem : id_is (Dec z 0) item = Ok true).
  { unfold id_is. rewrite Hid. simpl.
    now rewrite (number_eqb_refl _ (Dec_not_NaN z 0)). }
  rewrite (find_first_skip _ _ _ _ Hbefore Hitem).
  now destruct (id_is_true _ _ Hitem) as [_ ->].
Qed.

(** ** The scenarios *)

Lemma responds_status (run : result response * world) (r : response) :
  responds run r -> status_of run = Some (status r).
Proof. unfold responds, status_of. now intros ->. Qed.

Lemma responds_read (run : result response * world) (r : response) :
  responds run r -> read_of run = Some (sent r).
Proof. unfold responds, read_of. now intros ->. Qed.

Lemma lists_empty_store : lists empty_store [].
Proof.
  exists {| status := 200; body := "[]" |}. repeat split; reflexivity.
Qed.

Lemma lists_store_of_duplicates : lists (store_of duplicates) duplicates.
Proof.
  exists {| status := 200; body := JSON_stringify (VArr duplicates []) 0 |}.
  split; [vm_compute; reflexivity |].
  split; [reflexivity | vm_compute; reflexivity].
Qed.

Lemma holds_store_of_duplicates : holds (store_of duplicates) duplicates.
Proof. vm_compute. reflexivity. Qed.

Lemma valid_with_client_id : valid_body (VObj with_client_id) = true.
Proof. vm_compute. reflexivity. Qed.

(** The body [{"big":1e999}] is a valid body: its field is an infinity. *)
Lemma big_body_parsed :
  JSON_parse big_body_text = Ok big_body /\ valid_body big_body = true.
Proof. split; vm_compute; reflexivity. Qed.

(** The body [{"z":-0}] is a valid body: its field is the negative zero. *)
Lemma negative_zero_body_parsed :
  JSON_parse negative_zero_text = Ok negative_zero_body
  /\ valid_body negative_zero_body = true.
Proof. split; vm_compute; reflexivity. Qed.

(* ================================================================= *)
(** * The claims *)

(** ** Get by id *)

(** C1 (the code departs from the claim).  An item that [POST /items] has
    just created is in the collection under its generated identifier, and
    [GET /items/{id}] with that identifier answers 404 instead of 200 with
    the record: the handler compares the stored string with the number
    that [parseInt] makes of the path segment. *)
Theorem get_by_id_misses_created_item :
  responds (post_items widget uuid_example empty_store)
    {| status := 201; body := JSON_stringify created_widget 0 |}
  /\ holds (snd (post_items widget uuid_example empty_store)) [created_widget]
  /\ has_id uuid_example created_widget = true
  /\ responds
       (get_items_id uuid_example
          (snd (post_items widget uuid_example empty_store)))
       {| status := 404; body := not_found_text |}.
Proof. repeat split; vm_compute; reflexivity. Qed.

(** C5, counterexample.  The collection holds one item, of id 1; the
    identifier [1abc] is the id of no item, and [GET /items/1abc] answers
    200 with that item: [parseInt] reads the leading digits.  And on the
    collection [[null]] the request ends with a [TypeError], not with an
    answer. *)
Lemma get_by_id_reads_leading_digits :
  ~ absent_id_not_found (store_of [numbered 1 "Widget"])
      [numbered 1 "Widget"] "1abc"
  /\ ~ absent_id_not_found store_of_null [VNull] "1".
Proof.
  unfold absent_id_not_found. split; intros H.
  - assert (Hstored : holds (store_of [numbered 1 "Widget"])
                        [numbered 1 "Widget"])
      by (vm_compute; reflexivity).
    assert (Hnone : has_id "1abc" (numbered 1 "Widget") = false)
      by (vm_compute; reflexivity).
    assert (Hfound : status_of
                       (get_items_id "1abc" (store_of [numbered 1 "Widget"]))
                     = Some 200)
      by (vm_compute; reflexivity).
    assert (E : responds
                  (get_items_id "1abc" (store_of [numbered 1 "Widget"]))
                  {| status := 404; body := not_found_text |}).
    { apply H; [exact Hstored |]. intros item [<- | []]. exact Hnone. }
    apply responds_status in E. rewrite Hfound in E. discriminate E.
  - assert (Hthrown : status_of (get_items_id "1" store_of_null) = None)
      by (vm_compute; reflexivity).
    assert (E : responds (get_items_id "1" store_of_null)
                  {| status := 404; body := not_found_text |}).
    { apply H; [reflexivity |]. intros item [<- | []]. reflexivity. }
    apply responds_status in E. rewrite Hthrown in E. discriminate E.
Qed.

Section GetById.

Variables (w : world) (items : list value) (identifier : string).
Hypothesis stored : holds w items.

(** C5, amended.  When the identifier is the [id] of no item of the
    collection, no item is [null], and [parseInt] reads the identifier in
    full (it makes no number of it, or the number that is written so),
    [GET /items/{id}] answers 404 with the body
    [{"message":"Item not found"}]. *)
Theorem get_by_id_not_found :
  (forall item, In item items -> has_id identifier item = false) ->
  existsb is_null items = false ->
  read_in_full identifier = true ->
  responds (get_items_id identifier w)
    {| status := 404; body := not_found_text |}.
Proof.
  intros Hnone Hnull Hfull. unfold responds.
  rewrite (get_items_id_none w items identifier stored); [reflexivity |].
  apply Forall_forall. intros item Hin.
  specialize (Hnone item Hin).
  assert (Hitem : is_null item = false).
  { destruct (is_null item) eqn:E; [| reflexivity].
    rewrite <- Hnull. symmetry. apply existsb_exists. eauto. }
  destruct (id_is (parseInt identifier) item) as [[|] | e] eqn:E;
    [| reflexivity |].
  - exfalso. destruct (id_is_true _ _ E) as [(m & Hm & Heq) _].
    pose proof (number_eqb_json _ _ Heq) as Htext.
    unfold has_id in Hnone. rewrite Hm in Hnone.
    unfold read_in_full in Hfull.
    destruct (parseInt identifier) as [| s | s n e] eqn:Ep.
    + destruct m; discriminate Heq.
    + rewrite Htext, Hfull in Hnone. discriminate Hnone.
    + rewrite Htext, Hfull in Hnone. discriminate Hnone.
  - exfalso. unfold id_is in E.
    destruct item; try discriminate; simpl in E; discriminate E.
Qed.

(** C7.  When two items (or more) of the collection match the identifier,
    [GET /items/{id}] answers with the first of them in the order of the
    collection. *)
Theorem get_by_id_first_match (before between after : list value)
  (first second : value) :
  items = (before ++ first :: between ++ second :: after)%list ->
  Forall (fun item => id_is (parseInt identifier) item = Ok false) before ->
  id_is (parseInt identifier) first = Ok true ->
  id_is (parseInt identifier) second = Ok true ->
  responds (get_items_id identifier w)
    {| status := 200; body := JSON_stringify first 0 |}.
Proof.
  intros Hitems Hbefore Hfirst _. unfold responds.
  rewrite (get_items_id_run w items identifier stored), Hitems.
  rewrite (find_first_skip _ _ _ _ Hbefore Hfirst).
  now destruct (id_is_true _ _ Hfirst) as [_ ->].
Qed.

(** C10.  [GET /items/{id}] parses the path segment with [parseInt] and
    compares with [===]: an item it answers with has a number as its
    [id], equal to the number of the integer parsed from the segment; and
    when the [id] of every item is a string, as the identifiers that
    [POST /items] generates are, it answers 404 whatever the segment. *)
Theorem get_by_id_numbers_only :
  (forall resp,
      responds (get_items_id identifier w) resp ->
      status resp = 200 ->
      exists item z m,
        In item items
        /\ number_eqb (parseInt identifier) (Dec z 0) = true
        /\ get_id item = Ok (Some (VNum m))
        /\ number_eqb m (Dec z 0) = true
        /\ body resp = JSON_stringify item 0)
  /\ (Forall (fun item => exists s, get_id item = Ok (Some (VStr s))) items ->
      responds (get_items_id identifier w)
        {| status := 404; body := not_found_text |}).
Proof.
  split.
  - intros resp Hresp Hstatus. unfold responds in Hresp.
    rewrite (get_items_id_run w items identifier stored) in Hresp.
    destruct (find_first (id_is (parseInt identifier)) items)
      as [[found|] | e] eqn:E.
    + destruct (find_first_found _ _ _ E) as [Hin Hid].
      destruct (id_is_true _ _ Hid) as [(m & Hm & Heq) Ht].
      rewrite Ht in Hresp. simpl in Hresp. injection Hresp as <-.
      destruct (parseInt_integer identifier) as [E0 | (z & E0)].
      * rewrite E0 in Heq. destruct m; discriminate.
      * exists found, z, m. repeat split; try assumption.
        exact (number_eqb_trans _ _ _ Heq E0).
    + simpl in Hresp. injection Hresp as <-. discriminate.
    + discriminate.
  - intros Hall. unfold responds.
    rewrite (get_items_id_none w items identifier stored); [reflexivity |].
    eapply Forall_impl; [| exact Hall].
    intros item (s & Hs). unfold id_is. now rewrite Hs.
Qed.

End GetById.

Lemma get_by_id_not_found_witness :
  holds (store_of [numbered 1 "Widget"]) [numbered 1 "Widget"]
  /\ (forall item, In item [numbered 1 "Widget"] -> has_id "2" item = false)
  /\ existsb is_null [numbered 1 "Widget"] = false
  /\ read_in_full "2" = true
  /\ responds (get_items_id "2" (store_of [numbered 1 "Widget"]))
       {| status := 404; body := not_found_text |}.
Proof.
  assert (H : holds (store_of [numbered 1 "Widget"]) [numbered 1 "Widget"])
    by (vm_compute; reflexivity).
  assert (Hnone : forall item,
             In item [numbered 1 "Widget"] -> has_id "2" item = false)
    by (intros item [<- | []]; vm_compute; reflexivity).
  assert (Hfull : read_in_full "2" = true) by (vm_compute; reflexivity).
  split; [exact H |]. split; [exact Hnone |]. split; [reflexivity |].
  split; [exact Hfull |].
  exact (get_by_id_not_found _ _ "2" H Hnone eq_refl Hfull).
Defined.

Lemma get_by_id_first_match_witness :
  holds (store_of duplicates) duplicates
  /\ duplicates
     = ([numbered 3 "other"] ++ numbered 7 "first"
          :: [numbered 5 "between"] ++ numbered 7 "second" :: [])%list
  /\ Forall (fun item => id_is (parseInt "7") item = Ok false)
       [numbered 3 "other"]
  /\ id_is (parseInt "7") (numbered 7 "first") = Ok true
  /\ id_is (parseInt "7") (numbered 7 "second") = Ok true
  /\ responds (get_items_id "7" (store_of duplicates))
       {| status := 200; body := JSON_stringify (numbered 7 "first") 0 |}.
Proof.
  pose proof holds_store_of_duplicates as H.
  assert (Hb : Forall (fun item => id_is (parseInt "7") item = Ok false)
                 [numbered 3 "other"])
    by (repeat constructor; vm_compute; reflexivity).
  assert (H1 : id_is (parseInt "7") (numbered 7 "first") = Ok true)
    by (vm_compute; reflexivity).
  assert (H2 : id_is (parseInt "7") (numbered 7 "second") = Ok true)
    by (vm_compute; reflexivity).
  split; [exact H |]. split; [reflexivity |]. split; [exact Hb |].
  split; [exact H1 |]. split; [exact H2 |].
  exact (get_by_id_first_match (store_of duplicates) duplicates "7" H
           [numbered 3 "other"] [numbered 5 "between"] []
           (numbered 7 "first") (numbered 7 "second")
           eq_refl Hb H1 H2).
Defined.

Lemma get_by_id_numbers_only_witness :
  holds (store_of [created_widget]) [created_widget]
  /\ Forall (fun item => exists s, get_id item = Ok (Some (VStr s)))
       [created_widget]
  /\ responds (get_items_id uuid_example (store_of [created_widget]))
       {| status := 404; body := not_found_text |}.
Proof.
  assert (H : holds (store_of [created_widget]) [created_widget])
    by reflexivity.
  assert (Hall : Forall (fun item => exists s, get_id item = Ok (Some (VStr s)))
                   [created_widget]).
  { constructor; [| constructor]. exists uuid_example. reflexivity. }
  split; [exact H |]. split; [exact Hall |].
  exact (proj2 (get_by_id_numbers_only _ _ uuid_example H) Hall).
Defined.

(** ** The storage adapter *)

(** C3, counterexample.  The collection that [POST /items] saves after the
    body [[]] holds an array with a named property [id]: loading gives the
    array without it.  An infinity is saved as [null], the negative zero as
    [0]. *)
Lemma save_then_load_loses :
  ~ saved_is_loaded empty_store [created_array]
  /\ ~ saved_is_loaded empty_store [VNum (Infinity false)]
  /\ ~ saved_is_loaded empty_store [VNum (Finite true 0 emin)].
Proof.
  unfold saved_is_loaded, holds.
  repeat split; intros [_ H]; vm_compute in H; discriminate H.
Qed.

(** C3, amended.  Saving a collection of JSON data whose numbers are
    finite, none the negative zero, and then loading returns the
    collection that was saved, same items in the same order. *)
Theorem save_then_load (w : world) (items : list value) :
  forallb json_data items = true ->
  forallb lossless items = true ->
  write_fault w = None ->
  responds (writeData (VArr items []) w) tt
  /\ holds (snd (writeData (VArr items []) w)) items.
Proof.
  intros Hitems Litems Hw.
  destruct (readData_writeData w (VArr items []) Hw) as [Hsave Hload].
  split; [exact Hsave |].
  unfold holds. rewrite Hload. cbn [plain].
  now rewrite map_plain_lossless.
Qed.

Lemma save_then_load_witness :
  forallb json_data duplicates = true
  /\ forallb lossless duplicates = true
  /\ write_fault empty_store = None
  /\ responds (writeData (VArr duplicates []) empty_store) tt
  /\ holds (snd (writeData (VArr duplicates []) empty_store)) duplicates.
Proof.
  assert (Hj : forallb json_data duplicates = true)
    by (vm_compute; reflexivity).
  assert (Hl : forallb lossless duplicates = true)
    by (vm_compute; reflexivity).
  split; [exact Hj |]. split; [exact Hl |]. split; [reflexivity |].
  exact (save_then_load empty_store duplicates Hj Hl eq_refl).
Defined.

(** C4.  Whatever makes reading the document fail (no document, a read
    error, a text that is not JSON), [readData] returns the empty sequence
    and raises nothing, and [GET /items] answers 200 with [[]]. *)
Theorem load_falls_back_to_empty (w : world) :
  data_json w = Absent
  \/ (exists errno, data_json w = Unreadable errno)
  \/ (exists text e, data_json w = Content text /\ JSON_parse text = Throw e) ->
  readData w = (Ok (VArr [] []), w)
  /\ get_items w = (Ok {| status := 200; body := "[]" |}, w).
Proof.
  intros H.
  assert (E : readData w = (Ok (VArr [] []), w)).
  { unfold readData. run_async.
    destruct H as [-> | [(errno & ->) | (text & e & -> & Ht)]];
      try reflexivity.
    now rewrite Ht. }
  split; [exact E |].
  unfold get_items, bind. now rewrite E.
Qed.

Lemma load_falls_back_to_empty_witness :
  (data_json corrupted_store = Absent
   \/ (exists errno, data_json corrupted_store = Unreadable errno)
   \/ (exists text e,
          data_json corrupted_store = Content text
          /\ JSON_parse text = Throw e))
  /\ get_items corrupted_store
     = (Ok {| status := 200; body := "[]" |}, corrupted_store).
Proof.
  assert (H : data_json corrupted_store = Absent
              \/ (exists errno, data_json corrupted_store = Unreadable errno)
              \/ (exists text e,
                     data_json corrupted_store = Content text
                     /\ JSON_parse text = Throw e)).
  { right. right. exists "{ not json", SyntaxError. split; reflexivity. }
  split; [exact H |].
  exact (proj2 (load_falls_back_to_empty corrupted_store H)).
Defined.

(** ** Create *)

(** C2, counterexample.  An array is a valid JSON body: the answer echoes
    it as it came, with no [id] at all.  And nothing keeps the identifier
    that a client supplies from being the one that is generated. *)
Lemma post_echo_without_fresh_id :
  ~ echoes_fresh_id empty_store (VArr [] []) uuid_example
  /\ ~ echoes_fresh_id empty_store (VObj [("id", VStr uuid_example)])
         uuid_example.
Proof.
  split; intros (resp & item & Hresp & _ & Hsent & Hid & Hclient).
  - vm_compute in Hresp. injection Hresp as <-.
    vm_compute in Hsent. injection Hsent as <-. discriminate Hid.
  - now apply Hclient.
Qed.

(** C9, counterexample.  The body [{"big":1e999}] reaches the handler with
    an infinity as its field, which is echoed as [null]; the negative zero
    of the body [{"z":-0}] is echoed as [0]; and an array is echoed without
    the generated [id]. *)
Lemma post_changes_fields :
  ~ echoes_other_fields empty_store big_body uuid_example
  /\ ~ echoes_other_fields empty_store negative_zero_body uuid_example
  /\ ~ echoes_other_fields empty_store (VArr [] []) uuid_example.
Proof.
  repeat split; intros (resp & created & Hresp & Hsent & Hid & Hother);
    apply responds_read in Hresp; rewrite Hsent in Hresp.
  - assert (E : read_of (post_items big_body uuid_example empty_store)
                = Some (Ok (VObj [("big", VNull);
                                  ("id", VStr uuid_example)])))
      by (vm_compute; reflexivity).
    rewrite E in Hresp. injection Hresp as <-.
    specialize (Hother "big" ltac:(discriminate)). discriminate Hother.
  - assert (E : read_of
                  (post_items negative_zero_body uuid_example empty_store)
                = Some (Ok (VObj [("z", VNum (Finite false 0 emin));
                                  ("id", VStr uuid_example)])))
      by (vm_compute; reflexivity).
    rewrite E in Hresp. injection Hresp as <-.
    specialize (Hother "z" ltac:(discriminate)). discriminate Hother.
  - assert (E : read_of (post_items (VArr [] []) uuid_example empty_store)
                = Some (Ok (VArr [] [])))
      by (vm_compute; reflexivity).
    rewrite E in Hresp. injection Hresp as <-. discriminate Hid.
Qed.

(** C8, counterexample.  The write fails, and the request is not answered
    with a server error: the handler sends nothing at all. *)
Lemma post_write_failure_unanswered :
  ~ answers_server_error
      (post_items widget uuid_example (read_only (store_of duplicates))).
Proof.
  intros (resp & Hresp & _).
  assert (E : status_of
                (post_items widget uuid_example
                   (read_only (store_of duplicates)))
              = None)
    by (vm_compute; reflexivity).
  apply responds_status in Hresp. rewrite E in Hresp. discriminate Hresp.
Qed.

Section Create.

Variables (w : world) (items : list value).
Variables (req_body : value) (uuid : string).
Hypothesis stored : holds w items.
Hypothesis valid : valid_body req_body = true.

Section WriteSucceeds.

Hypothesis written : write_fault w = None.

(** The run of [POST /items]: the item made of the body is echoed and
    appended to the document. *)
Lemma post_items_created :
  exists newItem,
    set_id req_body (VStr uuid) = Ok newItem
    /\ json_data (plain newItem) = true
    /\ post_items req_body uuid w
       = (Ok {| status := 201; body := JSON_stringify newItem 0 |},
          {| data_json :=
               Content (JSON_stringify (VArr (items ++ [newItem]) []) 2);
             write_fault := None |})
    /\ sent {| status := 201; body := JSON_stringify newItem 0 |}
       = Ok (plain newItem)
    /\ holds (snd (post_items req_body uuid w))
         (map plain items ++ [plain newItem])
    /\ map plain (map plain items ++ [plain newItem])
       = (map plain items ++ [plain newItem])%list.
Proof.
  destruct (valid_body_set_id req_body uuid valid)
    as (newItem & Hset & Hj & Hpp).
  exists newItem. split; [exact Hset |]. split; [exact Hj |].
  pose proof (post_items_run w items req_body newItem uuid stored Hset)
    as Hrun.
  rewrite written in Hrun. rewrite Hrun.
  split; [reflexivity |]. split; [| split].
  - unfold sent. simpl. apply JSON_parse_stringify.
  - unfold holds, readData. run_async. simpl.
    rewrite JSON_parse_stringify. simpl.
    now rewrite map_app.
  - rewrite map_app, (map_plain_idem items (holds_json_data w items stored)).
    simpl. now rewrite Hpp.
Qed.

(** C2, amended.  For every JSON object posted to [POST /items], the
    item echoed in the 201 answer carries the generated identifier as
    its [id], whatever [id] the client supplied: it differs from the
    [id] of the body unless the client supplied that very identifier. *)
Theorem post_object_echoes_generated_id (props : list (string * value)) :
  req_body = VObj props ->
  exists resp item,
    responds (post_items req_body uuid w) resp
    /\ status resp = 201
    /\ sent resp = Ok item
    /\ get_id item = Ok (Some (VStr uuid))
    /\ (lookup "id" props <> Some (VStr uuid) ->
        get_id item <> get_id req_body).
Proof.
  intros Hobj.
  destruct post_items_created as (newItem & Hset & Hj & Hrun & Hsent & _).
  pose proof valid as Hvalid. rewrite Hobj in Hset, Hvalid |- *.
  injection Hset as <-.
  destruct (plain_set_id props uuid Hvalid)
    as (created & Hplain & _ & Hid & _).
  rewrite Hplain in Hsent. rewrite Hobj in Hrun.
  eexists _, _. split; [unfold responds; now rewrite Hrun |].
  split; [reflexivity |]. split; [exact Hsent |].
  simpl. rewrite Hid. split; [reflexivity |].
  intros Hne E. apply Hne. now injection E as <-.
Qed.

(** C9, amended.  For a JSON object whose numbers are finite, none the
    negative zero, the record that [POST /items] echoes and stores is the
    object of the body with its [id] set to the generated identifier:
    every other field is echoed and stored as the client sent it. *)
Theorem post_keeps_other_fields (props : list (string * value)) :
  req_body = VObj props ->
  lossless req_body = true ->
  exists created resp,
    responds (post_items req_body uuid w) resp
    /\ status resp = 201
    /\ sent resp = Ok created
    /\ holds (snd (post_items req_body uuid w)) (map plain items ++ [created])
    /\ created = VObj (define "id" (VStr uuid) props)
    /\ get_own "id" created = Some (VStr uuid)
    /\ (forall k, k <> "id" -> get_own k created = get_own k req_body).
Proof.
  intros Hobj Hlossless.
  destruct post_items_created
    as (newItem & Hset & _ & Hrun & Hsent & Hafter & _).
  pose proof valid as Hvalid. rewrite Hobj in Hset, Hvalid, Hlossless |- *.
  injection Hset as <-.
  destruct (plain_set_id props uuid Hvalid)
    as (created & Hplain & _ & _ & _ & Hsame).
  rewrite Hplain, (Hsame Hlossless) in Hsent, Hafter.
  rewrite Hobj in Hrun, Hafter.
  exists (VObj (define "id" (VStr uuid) props)).
  exists {| status := 201;
            body := JSON_stringify (VObj (define "id" (VStr uuid) props)) 0 |}.
  split; [unfold responds; now rewrite Hrun |].
  split; [reflexivity |]. split; [exact Hsent |]. split; [exact Hafter |].
  split; [reflexivity |]. split.
  - simpl. apply lookup_define_same.
  - intros k Hk. simpl. now apply lookup_define_other.
Qed.

End WriteSucceeds.

(** C8, amended.  When the write of the document fails, [writeData] raises
    the failure and [POST /items] does not catch it: the request ends with
    that exception and the handler sends no response, neither the 201
    answer nor an error response. *)
Theorem post_write_failure (errno : string) (residue : document) :
  write_fault w = Some (errno, residue) ->
  (forall data, fst (writeData data w) = Throw (SystemError errno))
  /\ fst (post_items req_body uuid w) = Throw (SystemError errno)
  /\ (forall resp, ~ responds (post_items req_body uuid w) resp)
  /\ data_json (snd (post_items req_body uuid w)) = residue.
Proof.
  intros Hw.
  destruct (valid_body_set_id req_body uuid valid) as (newItem & Hset & _).
  pose proof (post_items_run w items req_body newItem uuid stored Hset)
    as Hrun.
  rewrite Hw in Hrun.
  split.
  - intros data. unfold writeData. run_async. now rewrite Hw.
  - rewrite Hrun. split; [reflexivity |]. split; [| reflexivity].
    intros resp Hresp. unfold responds in Hresp. discriminate Hresp.
Qed.

End Create.

(** C6.  With no other writer, [GET /items] right after a successful
    [POST /items] answers with the items that it listed before, in their
    order, followed by the item just created. *)
Theorem get_items_after_post (w : world) (items : list value)
  (req_body : value) (uuid : string) :
  lists w items ->
  valid_body req_body = true ->
  write_fault w = None ->
  exists created posted listed,
    responds (post_items req_body uuid w) posted
    /\ status posted = 201
    /\ sent posted = Ok created
    /\ responds (get_items (snd (post_items req_body uuid w))) listed
    /\ status listed = 200
    /\ sent listed = Ok (VArr (items ++ [created]) []).
Proof.
  intros Hlists Hvalid Hw.
  destruct (lists_holds w items Hlists) as (prior & Hprior & _ & Hitems & _).
  destruct (post_items_created w prior req_body uuid Hprior Hvalid Hw)
    as (newItem & _ & _ & Hrun & Hsent & Hafter & Hsettled).
  rewrite Hitems in Hafter, Hsettled.
  destruct (holds_lists _ _ Hafter) as (listed & Hlisted & Hstatus & Hread).
  rewrite Hsettled in Hread.
  exists (plain newItem).
  exists {| status := 201; body := JSON_stringify newItem 0 |}.
  exists listed.
  split; [unfold responds; now rewrite Hrun |].
  split; [reflexivity |]. split; [exact Hsent |].
  split; [exact Hlisted |]. split; [exact Hstatus | exact Hread].
Qed.

Lemma post_object_echoes_generated_id_witness :
  holds empty_store []
  /\ valid_body (VObj with_client_id) = true
  /\ write_fault empty_store = None
  /\ VObj with_client_id = VObj with_client_id
  /\ exists resp item,
       responds (post_items (VObj with_client_id) uuid_example empty_store) resp
       /\ status resp = 201
       /\ sent resp = Ok item
       /\ get_id item = Ok (Some (VStr uuid_example))
       /\ (lookup "id" with_client_id <> Some (VStr uuid_example) ->
           get_id item <> get_id (VObj with_client_id)).
Proof.
  split; [reflexivity |]. split; [exact valid_with_client_id |].
  split; [reflexivity |]. split; [reflexivity |].
  exact (post_object_echoes_generated_id empty_store [] (VObj with_client_id)
           uuid_example eq_refl valid_with_client_id eq_refl
           with_client_id eq_refl).
Defined.

Lemma get_items_after_post_witness :
  lists (store_of duplicates) duplicates
  /\ valid_body widget = true
  /\ write_fault (store_of duplicates) = None
  /\ exists created posted listed,
       responds (post_items widget uuid_example (store_of duplicates)) posted
       /\ status posted = 201
       /\ sent posted = Ok created
       /\ responds
            (get_items
               (snd (post_items widget uuid_example (store_of duplicates))))
            listed
       /\ status listed = 200
       /\ sent listed = Ok (VArr (duplicates ++ [created]) []).
Proof.
  split; [exact lists_store_of_duplicates |].
  split; [reflexivity |]. split; [reflexivity |].
  exact (get_items_after_post (store_of duplicates) duplicates widget
           uuid_example lists_store_of_duplicates eq_refl eq_refl).
Defined.

Lemma post_keeps_other_fields_witness :
  holds empty_store []
  /\ valid_body (VObj with_client_id) = true
  /\ write_fault empty_store = None
  /\ VObj with_client_id = VObj with_client_id
  /\ lossless (VObj with_client_id) = true
  /\ exists created resp,
       responds (post_items (VObj with_client_id) uuid_example empty_store) resp
       /\ status resp = 201
       /\ sent resp = Ok created
       /\ holds
            (snd (post_items (VObj with_client_id) uuid_example empty_store))
            (map plain [] ++ [created])
       /\ created = VObj (define "id" (VStr uuid_example) with_client_id)
       /\ get_own "id" created = Some (VStr uuid_example)
       /\ (forall k, k <> "id" ->
                     get_own k created = get_own k (VObj with_client_id)).
Proof.
  assert (Hl : lossless (VObj with_client_id) = true)
    by (vm_compute; reflexivity).
  split; [reflexivity |]. split; [exact valid_with_client_id |].
  split; [reflexivity |]. split; [reflexivity |]. split; [exact Hl |].
  exact (post_keeps_other_fields empty_store [] (VObj with_client_id)
           uuid_example eq_refl valid_with_client_id eq_refl
           with_client_id eq_refl Hl).
Defined.

Lemma post_write_failure_witness :
  holds (read_only (store_of duplicates)) duplicates
  /\ valid_body widget = true
  /\ write_fault (read_only (store_of duplicates))
     = Some ("EACCES", data_json (store_of duplicates))
  /\ fst (post_items widget uuid_example (read_only (store_of duplicates)))
     = Throw (SystemError "EACCES")
  /\ (forall resp,
         ~ responds
             (post_items widget uuid_example (read_only (store_of duplicates)))
             resp).
Proof.
  assert (H : holds (read_only (store_of duplicates)) duplicates)
    by (vm_compute; reflexivity).
  split; [exact H |]. split; [reflexivity |]. split; [reflexivity |].
  pose proof (post_write_failure (read_only (store_of duplicates)) duplicates
                widget uuid_example H eq_refl
                "EACCES" (data_json (store_of duplicates)) eq_refl)
    as (_ & Hpost & Hnone & _).
  split; [exact Hpost | exact Hnone].
Defined.

(* ================================================================= *)
(** * Further properties of the code *)

(** ** Helpers *)

Lemma post_items_phases (req_body : value) (uuid : string) (w : world) :
  post_items req_body uuid w
  = (data <- readData ;; post_items_resume req_body uuid data) w.
Proof. reflexivity. Qed.

Lemma post_items_resume_run (w : world) (items : list value)
  (own : list (string * value)) (req_body newItem : value) (uuid : string) :
  set_id req_body (VStr uuid) = Ok newItem ->
  write_fault w = None ->
  post_items_resume req_body uuid (VArr items own) w
  = (Ok {| status := 201; body := JSON_stringify newItem 0 |},
     {| data_json :=
          Content (JSON_stringify (VArr (items ++ [newItem]) own) 2);
        write_fault := None |}).
Proof.
  intros Hset Hw. unfold post_items_resume, bind, lift.
  rewrite Hset. simpl Array_push. cbv iota.
  unfold writeData. run_async. now rewrite Hw.
Qed.

(** What [readData] returns from a document that [writeData] has written. *)
Lemma holds_appended (items : list value) (newItem : value)
  (fault : option (string * document)) :
  holds
    {| data_json := Content (JSON_stringify (VArr (items ++ [newItem]) []) 2);
       write_fault := fault |}
    (map plain items ++ [plain newItem]).
Proof.
  unfold holds, readData. run_async. simpl.
  rewrite JSON_parse_stringify. simpl. now rewrite map_app.
Qed.

(** [POST /items] on a store of which a client reads [items]. *)
Lemma post_items_listed (w : world) (items : list value) (req_body : value)
  (uuid : string) :
  lists w items ->
  valid_body req_body = true ->
  write_fault w = None ->
  exists prior newItem,
    holds w prior
    /\ map plain prior = items
    /\ set_id req_body (VStr uuid) = Ok newItem
    /\ post_items req_body uuid w
       = (Ok {| status := 201; body := JSON_stringify newItem 0 |},
          {| data_json :=
               Content (JSON_stringify (VArr (prior ++ [newItem]) []) 2);
             write_fault := None |})
    /\ sent {| status := 201; body := JSON_stringify newItem 0 |}
       = Ok (plain newItem)
    /\ holds (snd (post_items req_body uuid w)) (items ++ [plain newItem])
    /\ lists (snd (post_items req_body uuid w)) (items ++ [plain newItem]).
Proof.
  intros Hlists Hvalid Hw.
  destruct (lists_holds w items Hlists) as (prior & Hprior & _ & Hitems & _).
  destruct (post_items_created w prior req_body uuid Hprior Hvalid Hw)
    as (newItem & Hset & _ & Hrun & Hsent & Hafter & Hsettled).
  rewrite Hitems in Hafter, Hsettled.
  exists prior, newItem. repeat split; try assumption.
  rewrite <- Hsettled. now apply holds_lists.
Qed.

Lemma id_is_NaN (item : value) :
  is_null item = false -> id_is NaN item = Ok false.
Proof.
  unfold id_is. destruct item as [| | | | elems own | props]; simpl;
    try discriminate; intros _; try reflexivity.
  - now destruct (lookup "id" own) as [[| | [| |] | | |]|].
  - now destruct (lookup "id" props) as [[| | [| |] | | |]|].
Qed.

Lemma parseInt_no_number (c : ascii) (r : string) :
  starts_no_number c = true -> parseInt (String c r) = NaN.
Proof.
  intros H. unfold parseInt.
  destruct c as [[] [] [] [] [] [] [] []]; try discriminate H;
    (rewrite trim_start_none by (destruct r as [|b [|d r']]; reflexivity));
    reflexivity.
Qed.

Lemma keys_define_name (k : string) (v : value)
  (props : list (string * value)) :
  array_index k = None ->
  map fst (define k v props)
  = match lookup k props with
    | Some _ => map fst props
    | None => (map fst props ++ [k])%list
    end.
Proof.
  intros Hk. unfold define. destruct (lookup k props).
  - apply keys_replace.
  - rewrite Hk. now rewrite map_app.
Qed.

(** ** Reading *)

(** X1.  [GET /items] never fails: whatever the state of the document, it
    answers 200 with the JSON text of what [readData] returns, which a
    client reads as that value once through JSON text, and it leaves the
    document as it is. *)
Theorem get_items_always_answers (w : world) :
  exists data,
    fst (readData w) = Ok data
    /\ get_items w = (Ok {| status := 200; body := JSON_stringify data 0 |}, w)
    /\ sent {| status := 200; body := JSON_stringify data 0 |}
       = Ok (plain data).
Proof. apply get_items_run. Qed.

(** X2.  [GET /items/:id] never writes: the document is the same after the
    request, answered or not; and an answer is either a 200 or the 404
    with the body [{"message":"Item not found"}]. *)
Theorem get_by_id_reads_only (w : world) (identifier : string) :
  snd (get_items_id identifier w) = w
  /\ forall resp,
       responds (get_items_id identifier w) resp ->
       status resp = 200
       \/ resp = {| status := 404; body := not_found_text |}.
Proof.
  unfold responds, get_items_id, bind.
  destruct (readData_total w) as (data & ->). unfold lift.
  destruct (Array_find data (id_is (parseInt identifier)))
    as [[found|] | e]; cbv iota.
  - destruct (truthy (Some found)); simpl;
      (split; [reflexivity |]); intros resp [= <-]; [now left | now right].
  - simpl. split; [reflexivity |]. intros resp [= <-]. now right.
  - simpl. split; [reflexivity | discriminate].
Qed.

(** X3.  A document that is JSON but no array is not repaired: [GET /items]
    answers 200 with it as it is, while [GET /items/:id] and [POST /items]
    end with a [TypeError] ([data.find] and [data.push] are no functions),
    without an answer and without touching the document. *)
Theorem document_not_an_array (w : world) (text : string) (data : value)
  (req_body : value) (uuid : string) :
  data_json w = Content text ->
  JSON_parse text = Ok data ->
  is_array data = false ->
  valid_body req_body = true ->
  get_items w = (Ok {| status := 200; body := JSON_stringify data 0 |}, w)
  /\ (forall identifier, get_items_id identifier w = (Throw TypeError, w))
  /\ post_items req_body uuid w = (Throw TypeError, w).
Proof.
  intros Hdoc Hparse Harr Hbody.
  assert (E : readData w = (Ok data, w)).
  { unfold readData. run_async. now rewrite Hdoc, Hparse. }
  split; [unfold get_items, bind; now rewrite E |]. split.
  - intros identifier. unfold get_items_id, bind. rewrite E. unfold lift.
    destruct data; try discriminate; reflexivity.
  - destruct (valid_body_set_id req_body uuid Hbody) as (newItem & Hset & _).
    unfold post_items, bind. rewrite E. unfold lift. rewrite Hset.
    destruct data; try discriminate; reflexivity.
Qed.

Lemma document_not_an_array_witness :
  data_json store_of_object = Content "{}"
  /\ JSON_parse "{}" = Ok (VObj [])
  /\ is_array (VObj []) = false
  /\ valid_body widget = true
  /\ get_items store_of_object
     = (Ok {| status := 200; body := JSON_stringify (VObj []) 0 |},
        store_of_object)
  /\ (forall identifier,
         get_items_id identifier store_of_object
         = (Throw TypeError, store_of_object))
  /\ post_items widget uuid_example store_of_object
     = (Throw TypeError, store_of_object).
Proof.
  split; [reflexivity |]. split; [reflexivity |]. split; [reflexivity |].
  split; [reflexivity |].
  exact (document_not_an_array store_of_object "{}" (VObj []) widget
           uuid_example eq_refl eq_refl eq_refl eq_refl).
Defined.

(** X4.  A [null] among the items makes [GET /items/:id] end with a
    [TypeError] ([item.id] on [null]) instead of an answer, for every
    identifier that no item before the [null] matches. *)
Theorem get_by_id_null_item (w : world) (before after : list value)
  (identifier : string) :
  holds w (before ++ VNull :: after) ->
  Forall (fun item => id_is (parseInt identifier) item = Ok false) before ->
  get_items_id identifier w = (Throw TypeError, w).
Proof.
  intros H Hbefore. rewrite (get_items_id_run w _ identifier H).
  assert (E : find_first (id_is (parseInt identifier))
                (before ++ VNull :: after) = Throw TypeError).
  { clear H. induction Hbefore as [|x before Hx _ IH]; simpl;
      [reflexivity |].
    now rewrite Hx. }
  now rewrite E.
Qed.

Lemma get_by_id_null_item_witness :
  holds store_of_null ([] ++ VNull :: [])
  /\ Forall (fun item => id_is (parseInt "1") item = Ok false) []
  /\ get_items_id "1" store_of_null = (Throw TypeError, store_of_null).
Proof.
  split; [reflexivity |]. split; [constructor |].
  exact (get_by_id_null_item store_of_null [] [] "1" eq_refl
           (Forall_nil _)).
Defined.

(** X5.  An identifier that starts with a visible character other than a
    digit or a sign (a letter, as most generated identifiers do) parses to
    [NaN], which equals no [id]: [GET /items/:id] answers 404 on every
    collection without [null] items. *)
Theorem get_by_id_not_a_number (w : world) (items : list value)
  (c : ascii) (rest : string) :
  holds w items ->
  existsb is_null items = false ->
  starts_no_number c = true ->
  responds (get_items_id (String c rest) w)
    {| status := 404; body := not_found_text |}.
Proof.
  intros H Hnull Hc. unfold responds.
  rewrite (get_items_id_none w items (String c rest) H); [reflexivity |].
  rewrite (parseInt_no_number c rest Hc).
  apply Forall_forall. intros item Hin. apply id_is_NaN.
  destruct (is_null item) eqn:E; [| reflexivity].
  rewrite <- Hnull. symmetry. apply existsb_exists. eauto.
Qed.

Lemma get_by_id_not_a_number_witness :
  holds (store_of duplicates) duplicates
  /\ existsb is_null duplicates = false
  /\ starts_no_number "f" = true
  /\ responds
       (get_items_id (String "f" "47ac10b-58cc-4372-a567-0e02b2c3d479")
          (store_of duplicates))
       {| status := 404; body := not_found_text |}.
Proof.
  split; [exact holds_store_of_duplicates |].
  split; [reflexivity |]. split; [reflexivity |].
  exact (get_by_id_not_a_number (store_of duplicates) duplicates "f"
           "47ac10b-58cc-4372-a567-0e02b2c3d479" holds_store_of_duplicates
           eq_refl eq_refl).
Defined.

(** X6.  An item whose [id] is the number of an integer is found under the
    decimal numeral of that integer, when no item before it has the same
    [id]: [GET /items/:id] answers 200 with the text of the item, which
    the client reads as the item once through JSON text. *)
Theorem get_by_id_finds_number (w : world) (before after : list value)
  (item : value) (z : Z) :
  holds w (before ++ item :: after) ->
  Forall (fun x => id_is (Dec z 0) x = Ok false) before ->
  get_id item = Ok (Some (VNum (Dec z 0))) ->
  exists resp,
    responds (get_items_id (numeral z) w) resp
    /\ status resp = 200
    /\ body resp = JSON_stringify item 0
    /\ sent resp = Ok (plain item).
Proof.
  intros H Hbefore Hid.
  pose proof (get_items_id_numeral w before after item z H Hbefore Hid)
    as Hresp.
  eexists. split; [exact Hresp |]. split; [reflexivity |].
  split; [reflexivity |].
  unfold sent. simpl. apply JSON_parse_stringify.
Qed.

Lemma get_by_id_finds_number_witness :
  holds (store_of duplicates)
    ([numbered 3 "other"; numbered 7 "first"] ++ numbered 5 "between"
       :: [numbered 7 "second"])
  /\ Forall (fun x => id_is (Dec 5 0) x = Ok false)
       [numbered 3 "other"; numbered 7 "first"]
  /\ get_id (numbered 5 "between") = Ok (Some (VNum (Dec 5 0)))
  /\ exists resp,
       responds (get_items_id (numeral 5) (store_of duplicates)) resp
       /\ status resp = 200
       /\ body resp = JSON_stringify (numbered 5 "between") 0
       /\ sent resp = Ok (plain (numbered 5 "between")).
Proof.
  assert (Hb : Forall (fun x => id_is (Dec 5 0) x = Ok false)
                 [numbered 3 "other"; numbered 7 "first"])
    by (repeat constructor; vm_compute; reflexivity).
  split; [exact holds_store_of_duplicates |].
  split; [exact Hb |]. split; [reflexivity |].
  exact (get_by_id_finds_number (store_of duplicates)
           [numbered 3 "other"; numbered 7 "first"] [numbered 7 "second"]
           (numbered 5 "between") 5 holds_store_of_duplicates Hb eq_refl).
Defined.

(** X7.  [GET /items/:id] reads a path segment no further than its leading
    decimal numeral: what follows the numeral, when it starts with neither
    a digit nor [x] or [X], changes nothing to the request. *)
Theorem get_by_id_ignores_suffix (w : world) (z : Z) (suffix : string) :
  ends_numeral suffix = true ->
  get_items_id (numeral z ++ suffix) w = get_items_id (numeral z) w.
Proof.
  intros Hsuffix. unfold get_items_id.
  now rewrite (parseInt_numeral_prefix z suffix Hsuffix), parseInt_numeral.
Qed.

Lemma get_by_id_ignores_suffix_witness :
  ends_numeral "-and-more" = true
  /\ get_items_id (numeral 7 ++ "-and-more") (store_of duplicates)
     = get_items_id (numeral 7) (store_of duplicates).
Proof.
  split; [reflexivity |].
  exact (get_by_id_ignores_suffix (store_of duplicates) 7 "-and-more" eq_refl).
Defined.

(** ** Writing *)

(** X8.  [POST /items] does not tell a document it cannot read from an
    empty collection: when the document is absent, unreadable or not JSON,
    a successful request replaces it, and the collection is then the
    created item alone. *)
Theorem post_replaces_unreadable_document (w : world) (req_body : value)
  (uuid : string) :
  data_json w = Absent
  \/ (exists errno, data_json w = Unreadable errno)
  \/ (exists text e, data_json w = Content text /\ JSON_parse text = Throw e) ->
  valid_body req_body = true ->
  write_fault w = None ->
  exists created resp,
    responds (post_items req_body uuid w) resp
    /\ status resp = 201
    /\ sent resp = Ok created
    /\ holds (snd (post_items req_body uuid w)) [created].
Proof.
  intros Hdoc Hbody Hw.
  assert (H : holds w []).
  { unfold holds, readData. run_async.
    destruct Hdoc as [-> | [(errno & ->) | (text & e & -> & Ht)]];
      try reflexivity.
    now rewrite Ht. }
  destruct (post_items_created w [] req_body uuid H Hbody Hw)
    as (newItem & _ & _ & Hrun & Hsent & Hafter & _).
  exists (plain newItem), {| status := 201; body := JSON_stringify newItem 0 |}.
  split; [unfold responds; now rewrite Hrun |].
  split; [reflexivity |]. split; [exact Hsent | exact Hafter].
Qed.

Lemma post_replaces_unreadable_document_witness :
  (data_json corrupted_store = Absent
   \/ (exists errno, data_json corrupted_store = Unreadable errno)
   \/ (exists text e,
          data_json corrupted_store = Content text
          /\ JSON_parse text = Throw e))
  /\ valid_body widget = true
  /\ write_fault corrupted_store = None
  /\ exists created resp,
       responds (post_items widget uuid_example corrupted_store) resp
       /\ status resp = 201
       /\ sent resp = Ok created
       /\ holds (snd (post_items widget uuid_example corrupted_store))
            [created].
Proof.
  assert (H : data_json corrupted_store = Absent
              \/ (exists errno, data_json corrupted_store = Unreadable errno)
              \/ (exists text e,
                     data_json corrupted_store = Content text
                     /\ JSON_parse text = Throw e)).
  { right. right. exists "{ not json", SyntaxError. split; reflexivity. }
  split; [exact H |]. split; [reflexivity |]. split; [reflexivity |].
  exact (post_replaces_unreadable_document corrupted_store widget
           uuid_example H eq_refl eq_refl).
Defined.

(** X9.  The record that [POST /items] echoes lists its fields in the order
    of the body: an [id] that the client supplied keeps its place, and
    otherwise [id] comes last. *)
Theorem post_keeps_field_order (w : world) (items : list value)
  (props : list (string * value)) (uuid : string) :
  holds w items ->
  valid_body (VObj props) = true ->
  write_fault w = None ->
  exists resp created,
    responds (post_items (VObj props) uuid w) resp
    /\ sent resp = Ok (VObj created)
    /\ map fst created
       = match lookup "id" props with
         | Some _ => map fst props
         | None => (map fst props ++ ["id"])%list
         end.
Proof.
  intros H Hbody Hw.
  destruct (post_items_created w items (VObj props) uuid H Hbody Hw)
    as (newItem & Hset & _ & Hrun & Hsent & _).
  injection Hset as <-.
  destruct (plain_set_id props uuid Hbody) as (created & Hplain & Hkeys & _).
  rewrite Hplain in Hsent.
  exists {| status := 201;
            body := JSON_stringify (VObj (define "id" (VStr uuid) props)) 0 |}.
  exists created.
  split; [unfold responds; now rewrite Hrun |].
  split; [exact Hsent |].
  rewrite Hkeys. now apply keys_define_name.
Qed.

Lemma post_keeps_field_order_witness :
  holds empty_store []
  /\ valid_body (VObj with_client_id) = true
  /\ write_fault empty_store = None
  /\ exists resp created,
       responds (post_items (VObj with_client_id) uuid_example empty_store) resp
       /\ sent resp = Ok (VObj created)
       /\ map fst created
          = match lookup "id" with_client_id with
            | Some _ => map fst with_client_id
            | None => (map fst with_client_id ++ ["id"])%list
            end.
Proof.
  split; [reflexivity |]. split; [exact valid_with_client_id |].
  split; [reflexivity |].
  exact (post_keeps_field_order empty_store [] with_client_id uuid_example
           eq_refl valid_with_client_id eq_refl).
Defined.

(** X10.  Two requests [POST /items] handled one after the other, on a
    store of which [GET /items] lists [items], both answer 201, and the
    collection is then [items] followed by the two created items in the
    order of the requests. *)
Theorem two_posts_append_in_order (w : world) (items : list value)
  (a b : value) (ua ub : string) :
  lists w items ->
  valid_body a = true ->
  valid_body b = true ->
  write_fault w = None ->
  exists first second created_a created_b,
    responds (two_posts a ua b ub w) (first, second)
    /\ status first = 201 /\ sent first = Ok created_a
    /\ status second = 201 /\ sent second = Ok created_b
    /\ holds (snd (two_posts a ua b ub w)) (items ++ [created_a; created_b]).
Proof.
  intros H Ha Hb Hw.
  destruct (post_items_listed w items a ua H Ha Hw)
    as (priorA & newA & _ & _ & _ & HrunA & HsentA & _ & HafterA).
  rewrite HrunA in HafterA. simpl snd in HafterA.
  destruct (post_items_listed _ (items ++ [plain newA]) b ub HafterA Hb
              eq_refl)
    as (priorB & newB & _ & _ & _ & HrunB & HsentB & HafterB & _).
  exists {| status := 201; body := JSON_stringify newA 0 |}.
  exists {| status := 201; body := JSON_stringify newB 0 |}.
  exists (plain newA), (plain newB).
  rewrite HrunB in HafterB. simpl snd in HafterB.
  unfold responds, two_posts, bind, ret.
  rewrite HrunA, HrunB. simpl fst. simpl snd.
  replace (items ++ [plain newA; plain newB])%list
    with ((items ++ [plain newA]) ++ [plain newB])%list
    by (now rewrite <- app_assoc).
  repeat split; assumption.
Qed.

Lemma two_posts_append_in_order_witness :
  lists empty_store []
  /\ valid_body widget = true
  /\ valid_body (VObj with_client_id) = true
  /\ write_fault empty_store = None
  /\ exists first second created_a created_b,
       responds
         (two_posts widget uuid_example (VObj with_client_id) "second-uuid"
            empty_store)
         (first, second)
       /\ status first = 201 /\ sent first = Ok created_a
       /\ status second = 201 /\ sent second = Ok created_b
       /\ holds
            (snd
               (two_posts widget uuid_example (VObj with_client_id)
                  "second-uuid" empty_store))
            ([] ++ [created_a; created_b]).
Proof.
  split; [exact lists_empty_store |]. split; [reflexivity |].
  split; [exact valid_with_client_id |]. split; [reflexivity |].
  exact (two_posts_append_in_order empty_store [] widget
           (VObj with_client_id) uuid_example "second-uuid"
           lists_empty_store eq_refl valid_with_client_id eq_refl).
Defined.

(** X11.  Nothing orders two requests [POST /items] that overlap: when both
    handlers have read the document before either writes it, both answer
    201 and the second write replaces the first, so that the collection
    ends with the second item only and the first, though acknowledged, is
    not stored. *)
Theorem interleaved_posts_lose_first (w : world) (items : list value)
  (a b : value) (ua ub : string) :
  lists w items ->
  valid_body a = true ->
  valid_body b = true ->
  write_fault w = None ->
  exists first second created_a created_b,
    responds (interleaved_posts a ua b ub w) (first, second)
    /\ status first = 201 /\ sent first = Ok created_a
    /\ status second = 201 /\ sent second = Ok created_b
    /\ holds (snd (interleaved_posts a ua b ub w)) (items ++ [created_b]).
Proof.
  intros Hlists Ha Hb Hw.
  destruct (lists_holds w items Hlists) as (prior & H & _ & Hitems & _).
  destruct (valid_body_set_id a ua Ha) as (newA & HsetA & _).
  destruct (valid_body_set_id b ub Hb) as (newB & HsetB & _).
  exists {| status := 201; body := JSON_stringify newA 0 |}.
  exists {| status := 201; body := JSON_stringify newB 0 |}.
  exists (plain newA), (plain newB).
  unfold responds, interleaved_posts, bind, ret.
  rewrite (holds_readData w prior H). cbv beta iota.
  rewrite (holds_readData w prior H). cbv beta iota.
  rewrite (post_items_resume_run w prior [] a newA ua HsetA Hw).
  cbv beta iota.
  rewrite (post_items_resume_run
             {| data_json :=
                  Content (JSON_stringify (VArr (prior ++ [newA]) []) 2);
                write_fault := None |}
             prior [] b newB ub HsetB eq_refl).
  simpl fst. simpl snd.
  repeat split; try (unfold sent; simpl; apply JSON_parse_stringify).
  rewrite <- Hitems. apply holds_appended.
Qed.

Lemma interleaved_posts_lose_first_witness :
  lists empty_store []
  /\ valid_body widget = true
  /\ valid_body (VObj with_client_id) = true
  /\ write_fault empty_store = None
  /\ exists first second created_a created_b,
       responds
         (interleaved_posts widget uuid_example (VObj with_client_id)
            "second-uuid" empty_store)
         (first, second)
       /\ status first = 201 /\ sent first = Ok created_a
       /\ status second = 201 /\ sent second = Ok created_b
       /\ holds
            (snd
               (interleaved_posts widget uuid_example (VObj with_client_id)
                  "second-uuid" empty_store))
            ([] ++ [created_b]).
Proof.
  split; [exact lists_empty_store |]. split; [reflexivity |].
  split; [exact valid_with_client_id |]. split; [reflexivity |].
  exact (interleaved_posts_lose_first empty_store [] widget
           (VObj with_client_id) uuid_example "second-uuid"
           lists_empty_store eq_refl valid_with_client_id eq_refl).
Defined.



(** X13.  A successful [writeData] never leaves a document that [readData]
    cannot read: whatever value is saved, the document is then a JSON text
    and [readData] returns the saved value as JSON holds it, not the
    fallback. *)
Theorem save_leaves_json (w : world) (data : value) :
  write_fault w = None ->
  exists text,
    data_json (snd (writeData data w)) = Content text
    /\ JSON_parse text = Ok (plain data)
    /\ json_data (plain data) = true
    /\ fst (readData (snd (writeData data w))) = Ok (plain data).
Proof.
  intros Hw. exists (JSON_stringify data 2).
  split; [unfold writeData; run_async; now rewrite Hw |].
  split; [apply JSON_parse_stringify |].
  split; [apply json_data_plain |].
  exact (proj2 (readData_writeData w data Hw)).
Qed.

Lemma save_leaves_json_witness :
  write_fault empty_store = None
  /\ exists text,
       data_json (snd (writeData (VArr [VNum NaN] [("id", VStr "x")])
                         empty_store))
       = Content text
       /\ JSON_parse text = Ok (plain (VArr [VNum NaN] [("id", VStr "x")]))
       /\ json_data (plain (VArr [VNum NaN] [("id", VStr "x")])) = true
       /\ fst (readData
                 (snd (writeData (VArr [VNum NaN] [("id", VStr "x")])
                         empty_store)))
          = Ok (plain (VArr [VNum NaN] [("id", VStr "x")])).
Proof.
  split; [reflexivity |].
  exact (save_leaves_json empty_store (VArr [VNum NaN] [("id", VStr "x")])
           eq_refl).
Defined.

(** X14.  An array posted to [POST /items] is accepted and stored as an
    item without the generated identifier: the identifier is set on the
    array as a named property, which JSON text does not carry, so that
    neither the answer nor the document shows an [id].  The elements are
    echoed once through JSON text: as they came when their numbers are
    finite and none is the negative zero. *)
Theorem post_array_stored_without_id (w : world) (items elems : list value)
  (own : list (string * value)) (uuid : string) :
  lists w items ->
  valid_body (VArr elems own) = true ->
  write_fault w = None ->
  exists resp echoed,
    responds (post_items (VArr elems own) uuid w) resp
    /\ status resp = 201
    /\ sent resp = Ok echoed
    /\ echoed = VArr (map plain elems) []
    /\ get_id echoed = Ok None
    /\ (lossless (VArr elems own) = true -> echoed = VArr elems own)
    /\ holds (snd (post_items (VArr elems own) uuid w)) (items ++ [echoed]).
Proof.
  intros H Hbody Hw.
  destruct (post_items_listed w items (VArr elems own) uuid H Hbody Hw)
    as (prior & newItem & _ & _ & Hset & Hrun & Hsent & Hafter & _).
  injection Hset as <-.
  cbn [plain] in Hsent, Hafter.
  eexists _, _. split; [unfold responds; now rewrite Hrun |].
  split; [reflexivity |]. split; [exact Hsent |].
  split; [reflexivity |]. split; [reflexivity |].
  split; [| exact Hafter].
  intros L. exact (plain_json_data (VArr elems own) Hbody L).
Qed.

Lemma post_array_stored_without_id_witness :
  lists empty_store []
  /\ valid_body (VArr [VStr "Widget"] []) = true
  /\ write_fault empty_store = None
  /\ exists resp echoed,
       responds (post_items (VArr [VStr "Widget"] []) uuid_example empty_store)
         resp
       /\ status resp = 201
       /\ sent resp = Ok echoed
       /\ echoed = VArr (map plain [VStr "Widget"]) []
       /\ get_id echoed = Ok None
       /\ (lossless (VArr [VStr "Widget"] []) = true ->
           echoed = VArr [VStr "Widget"] [])
       /\ holds
            (snd (post_items (VArr [VStr "Widget"] []) uuid_example
                    empty_store))
            ([] ++ [echoed]).
Proof.
  split; [exact lists_empty_store |]. split; [reflexivity |].
  split; [reflexivity |].
  exact (post_array_stored_without_id empty_store [] [VStr "Widget"] []
           uuid_example lists_empty_store eq_refl eq_refl).
Defined.

(** ** Writing, then reading *)

(** X15.  The record that [POST /items] has just created is never what
    [GET /items/:id] answers under the generated identifier: a 200 answer
    to that request is an item listed before, whose [id] is a number. *)
Theorem created_item_not_retrievable (w : world) (items : list value)
  (props : list (string * value)) (uuid : string) :
  lists w items ->
  valid_body (VObj props) = true ->
  write_fault w = None ->
  forall resp,
    responds (get_items_id uuid (snd (post_items (VObj props) uuid w))) resp ->
    status resp = 200 ->
    exists item m,
      In item items
      /\ get_id item = Ok (Some (VNum m))
      /\ body resp = JSON_stringify item 0.
Proof.
  intros H Hbody Hw resp Hresp Hstatus.
  destruct (post_items_listed w items (VObj props) uuid H Hbody Hw)
    as (prior & newItem & _ & _ & Hset & _ & _ & Hafter & _).
  injection Hset as <-.
  destruct (plain_set_id props uuid Hbody) as (created & Hplain & _ & Hid & _).
  rewrite Hplain in Hafter.
  unfold responds in Hresp.
  rewrite (get_items_id_run _ _ uuid Hafter) in Hresp.
  destruct (find_first (id_is (parseInt uuid)) (items ++ [VObj created]))
    as [[found|] | e] eqn:E.
  - destruct (find_first_found _ _ _ E) as [Hin Hfound].
    destruct (id_is_true _ _ Hfound) as [(m & Hm & _) Ht].
    rewrite Ht in Hresp. simpl in Hresp. injection Hresp as <-.
    exists found, m. split; [| split; [exact Hm | reflexivity]].
    apply in_app_or in Hin as [Hin | [<- | []]]; [exact Hin |].
    simpl in Hm. rewrite Hid in Hm. discriminate Hm.
  - simpl in Hresp. injection Hresp as <-. discriminate Hstatus.
  - discriminate Hresp.
Qed.

Lemma created_item_not_retrievable_witness :
  lists (store_of [numbered 110 "old"]) [numbered 110 "old"]
  /\ valid_body widget = true
  /\ write_fault (store_of [numbered 110 "old"]) = None
  /\ responds
       (get_items_id "110ec58a-a0f2-4ac4-8393-c866d813b8d1"
          (snd (post_items widget "110ec58a-a0f2-4ac4-8393-c866d813b8d1"
                  (store_of [numbered 110 "old"]))))
       {| status := 200; body := JSON_stringify (numbered 110 "old") 0 |}
  /\ exists item m,
       In item [numbered 110 "old"]
       /\ get_id item = Ok (Some (VNum m))
       /\ body {| status := 200;
                  body := JSON_stringify (numbered 110 "old") 0 |}
          = JSON_stringify item 0.
Proof.
  assert (Hl : lists (store_of [numbered 110 "old"]) [numbered 110 "old"]).
  { exists {| status := 200;
              body := JSON_stringify (VArr [numbered 110 "old"] []) 0 |}.
    split; [vm_compute; reflexivity |].
    split; [reflexivity | vm_compute; reflexivity]. }
  assert (Hresp : responds
                    (get_items_id "110ec58a-a0f2-4ac4-8393-c866d813b8d1"
                       (snd (post_items widget
                               "110ec58a-a0f2-4ac4-8393-c866d813b8d1"
                               (store_of [numbered 110 "old"]))))
                    {| status := 200;
                       body := JSON_stringify (numbered 110 "old") 0 |})
    by (vm_compute; reflexivity).
  split; [exact Hl |]. split; [reflexivity |]. split; [reflexivity |].
  split; [exact Hresp |].
  exact (created_item_not_retrievable (store_of [numbered 110 "old"])
           [numbered 110 "old"] [("name", VStr "Widget")]
           "110ec58a-a0f2-4ac4-8393-c866d813b8d1"
           Hl eq_refl eq_refl _ Hresp eq_refl).
Defined.
